(** * nix-tts [modules.py]: a functional model of the flow building blocks

    The module is PyTorch code.  Tensors are modelled as nested lists of real
    numbers, outermost axis first: a [Tensor3] of shape [(b, c, t)] is a list
    of [b] batch entries, each a list of [c] channel rows of [t] samples.
    Scalars are the real numbers of the Standard Library: the model is the
    exact-arithmetic reading of the code, and rounding, infinities and NaN of
    the float32 arithmetic are outside it.

    The torch primitives the module calls ([*], [+], [torch.sum],
    [torch.flip], [torch.split], [torch.cat], [nn.Conv1d], [nn.LayerNorm],
    ...) are modelled by their documented meaning on well-shaped operands.
    The one shape check that is modelled as an error is the one of
    [torch.split], which [ConvFlow.forward] runs first; for every other
    primitive the shape hypotheses of a theorem say on which operands the
    model speaks. *)

From Stdlib Require Import String.
From Stdlib Require Import Reals Lra Lia List Arith Bool.
Import ListNotations.
Open Scope R_scope.

(** ** Tensors *)

Abbreviation Tensor1 := (list R).
Abbreviation Tensor2 := (list (list R)).
Abbreviation Tensor3 := (list (list (list R))).
Abbreviation Tensor4 := (list (list (list (list R)))).

(** The size of the axis below the outermost one: [x.size(1)] of a tensor
    with a batch entry, the length of the rows of a matrix. *)
Definition size1 {A} (x : list (list A)) : nat := length (hd [] x).

(** Indexing, with [0] outside the tensor. *)
Definition get2 (x : Tensor2) (c t : nat) : R := nth t (nth c x []) 0.
Definition get3 (x : Tensor3) (b c t : nat) : R := get2 (nth b x []) c t.
Definition get4 (x : Tensor4) (b c t : nat) : Tensor1 :=
  nth t (nth c (nth b x []) []) [].

Definition shape1 (t : nat) (x : Tensor1) : Prop := length x = t.
Definition shape2 (c t : nat) (x : Tensor2) : Prop :=
  length x = c /\ Forall (shape1 t) x.
Definition shape3 (b c t : nat) (x : Tensor3) : Prop :=
  length x = b /\ Forall (shape2 c t) x.

(** Every entry satisfies [P]. *)
Definition all3 (P : R -> Prop) (x : Tensor3) : Prop :=
  Forall (Forall (Forall P)) x.
Definition all4 (P : R -> Prop) (x : Tensor4) : Prop :=
  Forall (all3 P) x.

(** A mask holds only the values 0 and 1. *)
Definition is_mask (m : Tensor3) : Prop :=
  Forall (Forall (Forall (fun v => v = 0 \/ v = 1))) m.

(** What a call returns or raises. *)
Inductive result (A : Type) : Type :=
| Ok (a : A)
| RuntimeError (msg : String.string).
Arguments Ok {A} a.
Arguments RuntimeError {A} msg.

(** ** Torch primitives *)

Fixpoint map2 {A B C} (f : A -> B -> C) (xs : list A) (ys : list B) : list C :=
  match xs, ys with
  | x :: xs', y :: ys' => f x y :: map2 f xs' ys'
  | _, _ => []
  end.

(** One axis of torch broadcasting: an axis of size 1 is stretched to the
    size of the other operand, axes of equal size are paired. *)
Definition broadcast {A B C} (f : A -> B -> C) (xs : list A) (ys : list B)
  : list C :=
  match xs, ys with
  | [x], _ => map (f x) ys
  | _, [y] => map (fun x => f x y) xs
  | _, _ => map2 f xs ys
  end.

(** Size of a broadcast axis, the index read in an operand whose axis has
    size [n], and the sizes torch accepts together. *)
Definition bdim (n1 n2 : nat) : nat := if (n1 =? 1)%nat then n2 else n1.
Definition bidx (n i : nat) : nat := if (n =? 1)%nat then 0%nat else i.
Definition compat (n1 n2 : nat) : Prop := n1 = n2 \/ n1 = 1%nat \/ n2 = 1%nat.

Definition bop3 (f : R -> R -> R) : Tensor3 -> Tensor3 -> Tensor3 :=
  broadcast (broadcast (broadcast f)).

Definition tmul : Tensor3 -> Tensor3 -> Tensor3 := bop3 Rmult.
Definition tadd : Tensor3 -> Tensor3 -> Tensor3 := bop3 Rplus.
Definition tsub : Tensor3 -> Tensor3 -> Tensor3 := bop3 Rminus.

(** A tensor of shape [(c, 1)] meets one of shape [(b, c, t)] as [(1, c, 1)]. *)
Definition unsqueeze0 (x : Tensor2) : Tensor3 := [x].

Definition map3 (f : R -> R) (x : Tensor3) : Tensor3 := map (map (map f)) x.

Definition torch_exp : Tensor3 -> Tensor3 := map3 exp.
Definition torch_log : Tensor3 -> Tensor3 := map3 ln.
Definition torch_neg : Tensor3 -> Tensor3 := map3 Ropp.
Definition torch_clamp_min (x : Tensor3) (lo : R) : Tensor3 :=
  map3 (fun v => Rmax v lo) x.

Definition Rsum (l : list R) : R := fold_right Rplus 0 l.

(** The sum of [f 0], ..., [f (n - 1)]. *)
Definition sigma (n : nat) (f : nat -> R) : R := Rsum (map f (seq 0 n)).

(** [torch.sum(x, [1, 2])]: one scalar per batch entry. *)
Definition torch_sum12 (x : Tensor3) : Tensor1 :=
  map (fun xb => Rsum (map Rsum xb)) x.

(** [torch.flip(x, [1])]: the channel axis reversed. *)
Definition torch_flip1 (x : Tensor3) : Tensor3 := map (@rev Tensor1) x.

(** [torch.zeros(n)]. *)
Definition torch_zeros (n : nat) : Tensor1 := repeat 0 n.

(** [torch.split(x, [n0, n1], 1)]: the sizes must add up to the size of the
    channel axis, otherwise the call raises. *)
Definition torch_split1 (x : Tensor3) (n0 n1 : nat)
  : option (Tensor3 * Tensor3) :=
  if forallb (fun xb => length xb =? n0 + n1)%nat x
  then Some (map (firstn n0) x, map (fun xb => firstn n1 (skipn n0 xb)) x)
  else None.

(** [torch.cat([x0, x1], 1)]. *)
Definition torch_cat1 (x0 x1 : Tensor3) : Tensor3 := map2 (@app Tensor1) x0 x1.

(** The matrix of one batch entry with its two axes exchanged. *)
Definition transpose (m : Tensor2) : Tensor2 :=
  map (fun t => map (fun row => nth t row 0) m) (seq 0 (size1 m)).

(** [x.transpose(1, 2)]. *)
Definition transpose12 (x : Tensor3) : Tensor3 := map transpose x.

(** *** [nn.Conv1d] *)

Record Conv1d : Type := nn_Conv1d {
  conv_in_channels : nat;
  conv_out_channels : nat;
  conv_kernel_size : nat;
  conv_stride : nat;
  conv_padding : nat;
  conv_dilation : nat;
  conv_groups : nat;
  conv_weight : Tensor3; (* (out_channels, in_channels / groups, kernel_size) *)
  conv_bias : Tensor1    (* (out_channels) *)
}.

(** Zero padding of a row on both sides. *)
Definition pad (p : nat) (row : Tensor1) : Tensor1 :=
  repeat 0 p ++ row ++ repeat 0 p.

(** Length of the output of a convolution over an input of length [l]. *)
Definition conv_out_length (cv : Conv1d) (l : nat) : nat :=
  let span := (conv_dilation cv * (conv_kernel_size cv - 1) + 1)%nat in
  if (l + 2 * conv_padding cv <? span)%nat then 0%nat
  else ((l + 2 * conv_padding cv - span) / conv_stride cv + 1)%nat.

(** The cross-correlation of the torch documentation: output channel [o]
    of group [g] sums, over the input channels [ci] of its group and the
    taps [j] of its kernel, [weight[o][ci][j] * input[g * cin_g + ci][t * stride + j * dilation]]
    on the zero-padded input, and adds [bias[o]]. *)
Definition Conv1d_forward (cv : Conv1d) (x : Tensor3) : Tensor3 :=
  let cin_g := (conv_in_channels cv / conv_groups cv)%nat in
  let cout_g := (conv_out_channels cv / conv_groups cv)%nat in
  map (fun xb =>
    map (fun o =>
      let g := (o / cout_g)%nat in
      map (fun t =>
        nth o (conv_bias cv) 0 +
        Rsum (map (fun ci =>
          Rsum (map (fun j =>
            nth j (nth ci (nth o (conv_weight cv) []) []) 0 *
            nth (t * conv_stride cv + j * conv_dilation cv)
                (pad (conv_padding cv) (nth (g * cin_g + ci) xb [])) 0)
            (seq 0 (conv_kernel_size cv))))
          (seq 0 cin_g)))
        (seq 0 (conv_out_length cv (size1 xb))))
      (seq 0 (conv_out_channels cv)))
    x.

(** A convolution with one tap, stride 1 and no padding, as
    [nn.Conv1d(c_in, c_out, 1)] builds it: each output column is computed
    from the input column of the same time step. *)
Definition pointwise (cv : Conv1d) : Prop :=
  conv_kernel_size cv = 1%nat /\ conv_stride cv = 1%nat
  /\ conv_padding cv = 0%nat /\ conv_dilation cv = 1%nat.

(** Output channel [o] of a pointwise convolution on the column [col]. *)
Definition pointwise_entry (cv : Conv1d) (o : nat) (col : nat -> R) : R :=
  let cin_g := (conv_in_channels cv / conv_groups cv)%nat in
  let cout_g := (conv_out_channels cv / conv_groups cv)%nat in
  nth o (conv_bias cv) 0 +
  Rsum (map (fun ci =>
    Rsum (map (fun j =>
      nth j (nth ci (nth o (conv_weight cv) []) []) 0
      * col (o / cout_g * cin_g + ci)%nat)
      (seq 0 1)))
    (seq 0 cin_g)).

(** Two tensors of one shape that hold the same entries wherever the mask
    is 1. *)
Definition agree_valid (b c t : nat) (m x x' : Tensor3) : Prop :=
  shape3 b c t x /\ shape3 b c t x' /\
  forall i j k, (i < b)%nat -> (j < c)%nat -> (k < t)%nat ->
                get3 m i 0 k = 1 -> get3 x i j k = get3 x' i j k.

(** *** [nn.LayerNorm] over the last axis *)

Record LayerNorm : Type := {
  normalized_shape : nat;
  ln_eps : R;
  ln_weight : Tensor1;
  ln_bias : Tensor1
}.

Definition layer_norm_row (ln : LayerNorm) (v : Tensor1) : Tensor1 :=
  let n := INR (length v) in
  let mean := Rsum v / n in
  let var := Rsum (map (fun a => (a - mean) * (a - mean)) v) / n in
  map (fun i =>
         (nth i v 0 - mean) / sqrt (var + ln_eps ln) * nth i (ln_weight ln) 0
         + nth i (ln_bias ln) 0)
      (seq 0 (length v)).

Definition nn_LayerNorm_forward (ln : LayerNorm) (x : Tensor3) : Tensor3 :=
  map (map (layer_norm_row ln)) x.

(** ** [commons] *)

(** Modelled from the spec: [commons.get_padding] is imported by
    [modules.py] and defined in [commons.py]; section 6 of the specification
    gives it as [get_padding(kernel_size, dilation) -> int], returning
    [dilation*(kernel_size-1)/2]. *)
Definition get_padding (kernel_size dilation : nat) : nat :=
  (dilation * (kernel_size - 1) / 2)%nat.

(** ** [modules.py] *)

(** *** [class LayerNorm(nn.LayerNorm)] *)

Definition LayerNorm_init (normalized_shape : nat) : LayerNorm :=
  {| normalized_shape := normalized_shape;
     ln_eps := 1e-05;
     ln_weight := repeat 1 normalized_shape;
     ln_bias := repeat 0 normalized_shape |}.

Definition LayerNorm_forward (self : LayerNorm) (x : Tensor3) : Tensor3 :=
  transpose12 (nn_LayerNorm_forward self (transpose12 x)).

(** What a flow returns: a pair in forward mode, one tensor in reverse
    mode. *)
Inductive FlowOutput : Type :=
| Forward (y : Tensor3) (logdet : Tensor1)
| Reverse (x : Tensor3).

Definition tensor_of (o : FlowOutput) : Tensor3 :=
  match o with
  | Forward y _ => y
  | Reverse x => x
  end.

Definition logdet_of (o : FlowOutput) : option Tensor1 :=
  match o with
  | Forward _ logdet => Some logdet
  | Reverse _ => None
  end.

(** *** [class Log] *)

Definition Log_forward (x x_mask : Tensor3) (reverse : bool) : FlowOutput :=
  if negb reverse then
    let y := tmul (torch_log (torch_clamp_min x 1e-5)) x_mask in
    let logdet := torch_sum12 (torch_neg y) in
    Forward y logdet
  else
    let x := tmul (torch_exp x) x_mask in
    Reverse x.

(** [torch.ones] of shape [(a, b, c)]. *)
Definition ones3 (a b c : nat) : Tensor3 := repeat (repeat (repeat 1 c) b) a.

(** [torch.zeros] of shape [(a, b, c)], also the state of a weight after
    [.data.zero_()]. *)
Definition zeros3 (a b c : nat) : Tensor3 := repeat (repeat (repeat 0 c) b) a.

(** *** [class ElementwiseAffine] *)

Record ElementwiseAffine : Type := {
  ea_channels : nat;
  ea_m : Tensor2;    (* (channels, 1) *)
  ea_logs : Tensor2  (* (channels, 1) *)
}.

(** What [__init__] establishes and training keeps: both parameters have
    shape [(channels, 1)]. *)
Definition ElementwiseAffine_inv (self : ElementwiseAffine) : Prop :=
  shape2 (ea_channels self) 1 (ea_m self)
  /\ shape2 (ea_channels self) 1 (ea_logs self).

Definition ElementwiseAffine_init (channels : nat) : ElementwiseAffine :=
  {| ea_channels := channels;
     ea_m := repeat [0] channels;
     ea_logs := repeat [0] channels |}.

Definition ElementwiseAffine_forward (self : ElementwiseAffine)
    (x x_mask : Tensor3) (reverse : bool) : FlowOutput :=
  let m := unsqueeze0 (ea_m self) in
  let logs := unsqueeze0 (ea_logs self) in
  if negb reverse then
    let y := tadd m (tmul (torch_exp logs) x) in
    let y := tmul y x_mask in
    let logdet := torch_sum12 (tmul logs x_mask) in
    Forward y logdet
  else
    let x := tmul (tmul (tsub x m) (torch_exp (torch_neg logs))) x_mask in
    Reverse x.

(** The inverse as section 4.3 of the specification writes it, on one
    entry: [(y/mask - m) * exp(-logs) * mask].  The quotient by a mask entry
    0 has no value. *)
Definition spec_affine_inverse (y mask m logs : R) : option R :=
  if Req_dec_T mask 0 then None
  else Some ((y / mask - m) * exp (- logs) * mask).

(** The log-determinant as section 8 of the specification writes it:
    [sum(logs * mask)] over the channel and time axes of batch entry [i]. *)
Definition spec_affine_logdet (logs : Tensor2) (mask : Tensor3) (c t i : nat)
  : R :=
  sigma c (fun j => sigma t (fun k => get2 logs j 0 * get3 mask i 0 k)).

(** *** [class Flip] *)

(** [*args] takes the mask a caller passes; no element of it is read. *)
Definition Flip_forward (x : Tensor3) (args : list Tensor3) (reverse : bool)
  : FlowOutput :=
  let x := torch_flip1 x in
  if negb reverse then
    let logdet := torch_zeros (length x) in
    Forward x logdet
  else
    Reverse x.

(** *** Functions of other modules

    [F.gelu] and [nn.Dropout] belong to torch and the spline kernel to
    [transforms.py]; [modules.py] imports them and defines none.  They are
    the parameters of the definitions below. *)

Section Modules.

(** [F.gelu] on one scalar. *)
Variable gelu : R -> R.

(** [nn.Dropout(p)] applied to a tensor. *)
Variable nn_Dropout : R -> Tensor3 -> Tensor3.

(** The rational-quadratic spline with linear tails on one scalar:
    [spline v widths heights derivatives inverse tail_bound] is the pair of
    the transformed value and the log of the absolute derivative. *)
Variable spline : R -> Tensor1 -> Tensor1 -> Tensor1 -> bool -> R -> R * R.

Definition F_gelu : Tensor3 -> Tensor3 := map3 gelu.

Fixpoint imap_from {A B} (k : nat) (f : nat -> A -> B) (l : list A) : list B :=
  match l with
  | [] => []
  | a :: l' => f k a :: imap_from (S k) f l'
  end.

(** [map] with the position of each element. *)
Definition imap {A B} (f : nat -> A -> B) (l : list A) : list B :=
  imap_from 0 f l.

(** Modelled from the spec: [transforms.piecewise_rational_quadratic_transform]
    is imported by [modules.py] and defined in [transforms.py]; sections 1
    and 6 of the specification give it as a black-box bijection
    [transform(x, unnormalized_widths, unnormalized_heights,
    unnormalized_derivatives, inverse, tail_bound) -> (y, logabsdet)].  It
    acts on each element of [inputs] with the parameters stored at the
    position of that element, and both results have the shape of [inputs]. *)
Definition piecewise_rational_quadratic_transform (inputs : Tensor3)
    (unnormalized_widths unnormalized_heights unnormalized_derivatives : Tensor4)
    (inverse : bool) (tail_bound : R) : Tensor3 * Tensor3 :=
  let at_ (pick : R * R -> R) :=
    imap (fun b => imap (fun c => imap (fun t v =>
      pick (spline v (get4 unnormalized_widths b c t)
                     (get4 unnormalized_heights b c t)
                     (get4 unnormalized_derivatives b c t)
                     inverse tail_bound)))) inputs in
  (at_ fst, at_ snd).

(** *** [class DDSConv] *)

Record DDSConv : Type := {
  dds_channels : nat;
  dds_kernel_size : nat;
  dds_n_layers : nat;
  dds_p_dropout : R;
  convs_sep : list Conv1d;
  convs_1x1 : list Conv1d;
  norms_1 : list LayerNorm;
  norms_2 : list LayerNorm
}.

(** [w_sep i] and [w_1x1 i] are the weight and bias that torch draws for the
    two convolutions of layer [i]. *)
Definition DDSConv_init (channels kernel_size n_layers : nat) (p_dropout : R)
    (w_sep w_1x1 : nat -> Tensor3 * Tensor1) : DDSConv :=
  {| dds_channels := channels;
     dds_kernel_size := kernel_size;
     dds_n_layers := n_layers;
     dds_p_dropout := p_dropout;
     convs_sep :=
       map (fun i =>
              let dilation := (kernel_size ^ i)%nat in
              nn_Conv1d channels channels kernel_size 1
                        (get_padding kernel_size dilation) dilation channels
                        (fst (w_sep i)) (snd (w_sep i)))
           (seq 0 n_layers);
     convs_1x1 :=
       map (fun i => nn_Conv1d channels channels 1 1 0 1 1
                               (fst (w_1x1 i)) (snd (w_1x1 i)))
           (seq 0 n_layers);
     norms_1 := map (fun _ => LayerNorm_init channels) (seq 0 n_layers);
     norms_2 := map (fun _ => LayerNorm_init channels) (seq 0 n_layers) |}.

Definition no_conv : Conv1d := nn_Conv1d 0 0 0 1 0 1 1 [] [].
Definition no_norm : LayerNorm := LayerNorm_init 0.

(** [x * x_mask] under [if x_mask is not None]. *)
Definition masked (x : Tensor3) (x_mask : option Tensor3) : Tensor3 :=
  match x_mask with
  | Some m => tmul x m
  | None => x
  end.

(** The body of the loop of [DDSConv.forward] for layer [i]. *)
Definition DDSConv_layer (self : DDSConv) (x_mask : option Tensor3)
    (x : Tensor3) (i : nat) : Tensor3 :=
  let x := masked x x_mask in
  let y := Conv1d_forward (nth i (convs_sep self) no_conv) x in
  let y := LayerNorm_forward (nth i (norms_1 self) no_norm) y in
  let y := F_gelu y in
  let y := Conv1d_forward (nth i (convs_1x1 self) no_conv) y in
  let y := LayerNorm_forward (nth i (norms_2 self) no_norm) y in
  let y := F_gelu y in
  let y := nn_Dropout (dds_p_dropout self) y in
  let x := tadd x y in
  masked x x_mask.

Definition DDSConv_forward (self : DDSConv) (x : Tensor3)
    (x_mask g : option Tensor3) : Tensor3 :=
  let x := match g with
           | Some g => tadd x g
           | None => x
           end in
  fold_left (DDSConv_layer self x_mask) (seq 0 (dds_n_layers self)) x.

(** *** [class DSResBlock] *)

Record DSResBlock : Type := { dds_conv : DDSConv }.

Definition DSResBlock_init (channels kernel_size : nat)
    (w_sep w_1x1 : nat -> Tensor3 * Tensor1) : DSResBlock :=
  {| dds_conv := DDSConv_init channels kernel_size 3 0 w_sep w_1x1 |}.

Definition DSResBlock_forward (self : DSResBlock) (x : Tensor3)
    (x_mask : option Tensor3) : Tensor3 :=
  DDSConv_forward (dds_conv self) x None None.

(** *** [class ConvFlow] *)

Record ConvFlow : Type := {
  cf_in_channels : nat;
  cf_filter_channels : nat;
  cf_kernel_size : nat;
  cf_n_layers : nat;
  cf_num_bins : nat;
  cf_tail_bound : R;
  cf_half_channels : nat;
  cf_pre : Conv1d;
  cf_convs : DDSConv;
  cf_proj : Conv1d
}.

(** [w_pre] is the weight and bias torch draws for [self.pre]; [w_sep] and
    [w_1x1] are those of the layers of [self.convs]. *)
Definition ConvFlow_init (in_channels filter_channels kernel_size n_layers
    num_bins : nat) (tail_bound : R) (w_pre : Tensor3 * Tensor1)
    (w_sep w_1x1 : nat -> Tensor3 * Tensor1) : ConvFlow :=
  let half_channels := (in_channels / 2)%nat in
  let proj_channels := (half_channels * (num_bins * 3 - 1))%nat in
  {| cf_in_channels := in_channels;
     cf_filter_channels := filter_channels;
     cf_kernel_size := kernel_size;
     cf_n_layers := n_layers;
     cf_num_bins := num_bins;
     cf_tail_bound := tail_bound;
     cf_half_channels := half_channels;
     cf_pre := nn_Conv1d half_channels filter_channels 1 1 0 1 1
                         (fst w_pre) (snd w_pre);
     cf_convs := DDSConv_init filter_channels kernel_size n_layers 0
                              w_sep w_1x1;
     cf_proj := nn_Conv1d filter_channels proj_channels 1 1 0 1 1
                          (zeros3 proj_channels filter_channels 1)
                          (torch_zeros proj_channels) |}.

(** What [__init__] establishes and training keeps: [pre] and [proj] are
    convolutions of kernel size 1. *)
Definition ConvFlow_inv (self : ConvFlow) : Prop :=
  pointwise (cf_pre self) /\ pointwise (cf_proj self).

(** [h.reshape(b, c, -1, t)]: the channel axis cut into [c] runs of equal
    length. *)
Definition reshape_b_c_m1_t (h : Tensor3) (c : nat) : Tensor4 :=
  map (fun hb =>
         let n := (length hb / c)%nat in
         map (fun i => firstn n (skipn (i * n) hb)) (seq 0 c))
      h.

(** [h.permute(0, 1, 3, 2)]. *)
Definition permute_0132 (h : Tensor4) : Tensor4 := map (map transpose) h.

(** [h[..., lo:hi]] and [h[..., lo:]] with a map over the kept entries. *)
Definition slice_last (f : R -> R) (lo : nat) (hi : option nat) (h : Tensor4)
  : Tensor4 :=
  map (map (map (fun v =>
    map f (skipn lo (match hi with Some n => firstn n v | None => v end))))) h.

(** Lines 228 to 237 of [ConvFlow.forward]: the three parameter tensors of
    the spline, predicted from [x0]. *)
Definition ConvFlow_spline_params (self : ConvFlow) (x0 x_mask : Tensor3)
    (g : option Tensor3) : Tensor4 * Tensor4 * Tensor4 :=
  let h := Conv1d_forward (cf_pre self) x0 in
  let h := DDSConv_forward (cf_convs self) h (Some x_mask) g in
  let h := tmul (Conv1d_forward (cf_proj self) h) x_mask in
  let c := size1 x0 in
  let h := permute_0132 (reshape_b_c_m1_t h c) in
  let scale := sqrt (INR (cf_filter_channels self)) in
  let num_bins := cf_num_bins self in
  let unnormalized_widths :=
    slice_last (fun v => v / scale) 0 (Some num_bins) h in
  let unnormalized_heights :=
    slice_last (fun v => v / scale) num_bins (Some (2 * num_bins)%nat) h in
  let unnormalized_derivatives :=
    slice_last (fun v => v) (2 * num_bins) None h in
  (unnormalized_widths, unnormalized_heights, unnormalized_derivatives).

Definition ConvFlow_forward (self : ConvFlow) (x x_mask : Tensor3)
    (g : option Tensor3) (reverse : bool) : result FlowOutput :=
  match torch_split1 x (cf_half_channels self) (cf_half_channels self) with
  | None =>
      RuntimeError
        "split_with_sizes expects split_sizes to sum exactly to the size of dimension 1"%string
  | Some (x0, x1) =>
      let '(unnormalized_widths, unnormalized_heights,
            unnormalized_derivatives) :=
        ConvFlow_spline_params self x0 x_mask g in
      let '(x1, logabsdet) :=
        piecewise_rational_quadratic_transform x1
          unnormalized_widths unnormalized_heights unnormalized_derivatives
          reverse (cf_tail_bound self) in
      let x := tmul (torch_cat1 x0 x1) x_mask in
      let logdet := torch_sum12 (tmul logabsdet x_mask) in
      if negb reverse then Ok (Forward x logdet) else Ok (Reverse x)
  end.

(** *** The four flows behind one call *)

Inductive Flow : Type :=
| FlowLog
| FlowElementwiseAffine (self : ElementwiseAffine)
| FlowFlip
| FlowConvFlow (self : ConvFlow).

(** A flow as its constructor leaves it, on an input of [c] channels:
    [ElementwiseAffine(c)]; [ConvFlow] with [c] twice its [half_channels]. *)
Definition Flow_ready (flow : Flow) (c : nat) : Prop :=
  match flow with
  | FlowLog | FlowFlip => True
  | FlowElementwiseAffine self =>
      ea_channels self = c /\ ElementwiseAffine_inv self
  | FlowConvFlow self =>
      c = (cf_half_channels self + cf_half_channels self)%nat
      /\ ConvFlow_inv self
  end.

(** The tolerance of section 8 of the specification. *)
Definition close (u v : R) : Prop := Rabs (u - v) < 1e-4.

(** [flow(x, x_mask, reverse=reverse)]. *)
Definition Flow_forward (flow : Flow) (x x_mask : Tensor3) (reverse : bool)
  : result FlowOutput :=
  match flow with
  | FlowLog => Ok (Log_forward x x_mask reverse)
  | FlowElementwiseAffine self =>
      Ok (ElementwiseAffine_forward self x x_mask reverse)
  | FlowFlip => Ok (Flip_forward x [x_mask] reverse)
  | FlowConvFlow self => ConvFlow_forward self x x_mask None reverse
  end.

(** ** The rest of [modules.py] *)

(** What a constructor returns or raises; [exc] is the name of the
    exception. *)
Inductive checked (A : Type) : Type :=
| Done (a : A)
| Raise (exc : string).
Arguments Done {A} a.
Arguments Raise {A} exc.

(** [LRELU_SLOPE]. *)
Definition LRELU_SLOPE : R := 0.1.

(** [F.leaky_relu(x, negative_slope)]: [max(0, x) + negative_slope * min(0, x)]
    on every entry. *)
Definition F_leaky_relu (x : Tensor3) (negative_slope : R) : Tensor3 :=
  map3 (fun v => Rmax 0 v + negative_slope * Rmin 0 v) x.

(** [torch.nn.SiLU()]: [x * sigmoid(x)] on every entry. *)
Definition nn_SiLU (x : Tensor3) : Tensor3 :=
  map3 (fun v => v * (1 / (1 + exp (- v)))) x.

(** A convolution that keeps the length of its input when its kernel size
    [k] is odd: [channels] output channels, stride 1, the padding of
    [get_padding], and a dilation of at least 1, without which torch
    refuses the call. *)
Definition same_length_conv (channels k : nat) (cv : Conv1d) : Prop :=
  conv_out_channels cv = channels /\ conv_kernel_size cv = k
  /\ conv_stride cv = 1%nat
  /\ conv_padding cv = get_padding k (conv_dilation cv)
  /\ (0 < conv_dilation cv)%nat.

(** What [DDSConv.__init__] establishes for a kernel size of at least 1 and
    training keeps: per layer one
    depthwise and one pointwise convolution and two normalisations, of the
    sizes the constructor gives them. *)
Definition DDSConv_wf (self : DDSConv) : Prop :=
  length (convs_sep self) = dds_n_layers self
  /\ length (convs_1x1 self) = dds_n_layers self
  /\ Forall (same_length_conv (dds_channels self) (dds_kernel_size self))
            (convs_sep self)
  /\ Forall (same_length_conv (dds_channels self) 1) (convs_1x1 self)
  /\ Forall (fun cv => conv_in_channels cv = dds_channels self
                       /\ conv_groups cv = dds_channels self)
            (convs_sep self)
  /\ Forall (fun cv => conv_in_channels cv = dds_channels self
                       /\ conv_groups cv = 1%nat)
            (convs_1x1 self)
  /\ length (norms_1 self) = dds_n_layers self
  /\ length (norms_2 self) = dds_n_layers self
  /\ Forall (fun ln => normalized_shape ln = dds_channels self)
            (norms_1 self ++ norms_2 self).

(** What [ConvFlow.__init__] establishes for a kernel size of at least 1 and
    training keeps: besides
    [ConvFlow_inv], the sizes of [pre], [convs] and [proj]. *)
Definition ConvFlow_wf (self : ConvFlow) : Prop :=
  ConvFlow_inv self
  /\ conv_in_channels (cf_pre self) = cf_half_channels self
  /\ conv_in_channels (cf_proj self) = cf_filter_channels self
  /\ conv_out_channels (cf_pre self) = cf_filter_channels self
  /\ conv_out_channels (cf_proj self)
     = (cf_half_channels self * (cf_num_bins self * 3 - 1))%nat
  /\ DDSConv_wf (cf_convs self)
  /\ dds_channels (cf_convs self) = cf_filter_channels self
  /\ dds_kernel_size (cf_convs self) = cf_kernel_size self.

(** An optional mask of shape [(b, 1, t)], and an optional conditioning
    tensor of shape [(b, c, 1)] or [(b, c, t)]. *)
Definition mask_ok (b t : nat) (x_mask : option Tensor3) : Prop :=
  match x_mask with
  | Some m => shape3 b 1 t m
  | None => True
  end.

Definition cond_ok (b c t : nat) (g : option Tensor3) : Prop :=
  match g with
  | Some g => shape3 b c 1 g \/ shape3 b c t g
  | None => True
  end.

(** *** [class PositionalEncoding] *)

Record PositionalEncoding : Type := { pe_encoding : Tensor2 }.

(** [torch.arange(0, n).float()] and [torch.arange(0, n, step=2).float()]. *)
Definition arange (n : nat) : Tensor1 := map INR (seq 0 n).
Definition arange_step2 (n : nat) : Tensor1 :=
  map (fun i => INR (2 * i)) (seq 0 ((n + 1) / 2)).

(** [enc[:, start::2] = v] on a table of [d] columns, for a value of [k]
    columns: the columns [start], [start + 2], ... of [enc] are overwritten
    with the columns of [v]; [k] is the number of those columns, or 1,
    otherwise the assignment raises. *)
Definition assign_stride2 (start d k : nat) (v enc : Tensor2)
  : checked Tensor2 :=
  let cols := ((d - start + 1) / 2)%nat in
  if (k =? cols)%nat || (k =? 1)%nat then
    Done (map2 (fun vrow erow =>
                  imap (fun c e =>
                          if (start <=? c)%nat && Nat.even (c - start)
                          then nth (if (k =? 1)%nat then 0 else (c - start) / 2)%nat
                                   vrow 0
                          else e)
                       erow)
               v enc)
  else Raise "RuntimeError".

Definition PositionalEncoding_init (max_len d_model : nat)
  : checked PositionalEncoding :=
  let encoding := repeat (repeat 0 d_model) max_len in
  let pos := arange max_len in
  let _2i := arange_step2 d_model in
  let angle :=
    map (fun p => map (fun v => p / Rpower 10000 (v / INR d_model)) _2i) pos in
  match assign_stride2 0 d_model (length _2i) (map (map sin) angle) encoding with
  | Raise exc => Raise exc
  | Done encoding =>
      match assign_stride2 1 d_model (length _2i) (map (map cos) angle)
                           encoding with
      | Raise exc => Raise exc
      | Done encoding => Done {| pe_encoding := encoding |}
      end
  end.

(** [x] has shape [(batch_size, seq_len)]. *)
Definition PositionalEncoding_forward (self : PositionalEncoding)
    (x : Tensor2) : Tensor2 :=
  let seq_len := size1 x in
  firstn seq_len (pe_encoding self).

(** *** [class TextResidualBlock] *)

(** One block is [nn.Sequential(DDSConv(...), SiLU(), LayerNorm(...))]. *)
Record TextResidualBlock : Type := {
  trb_blocks : list (DDSConv * LayerNorm)
}.

(** [w_sep i] and [w_1x1 i] are the weights torch draws for the [DDSConv]
    of block [i]. *)
Definition TextResidualBlock_init (channels kernel_size dilation n : nat)
    (w_sep w_1x1 : nat -> nat -> Tensor3 * Tensor1) : TextResidualBlock :=
  {| trb_blocks :=
       map (fun i => (DDSConv_init channels kernel_size 3 0 (w_sep i) (w_1x1 i),
                      LayerNorm_init channels))
           (seq 0 n) |}.

Definition TextResidualBlock_layer (x : Tensor3) (layer : DDSConv * LayerNorm)
  : Tensor3 :=
  LayerNorm_forward (snd layer)
    (nn_SiLU (DDSConv_forward (fst layer) x None None)).

Definition TextResidualBlock_forward (self : TextResidualBlock) (x : Tensor3)
  : Tensor3 :=
  let inputs := x in
  let x := fold_left TextResidualBlock_layer (trb_blocks self) x in
  tadd x inputs.

(** *** [class LinearNorm] *)

(** [nn.Linear]: [weight] has shape [(out_features, in_features)]. *)
Record Linear : Type := {
  in_features : nat;
  out_features : nat;
  lin_weight : Tensor2;
  lin_bias : option Tensor1
}.

(** [y = x W^T + b] on the last axis. *)
Definition nn_Linear_forward (l : Linear) (x : Tensor3) : Tensor3 :=
  map (map (fun row =>
    map (fun o =>
           let dot := Rsum (map (fun i => nth i row 0 * get2 (lin_weight l) o i)
                                (seq 0 (in_features l))) in
           match lin_bias l with
           | Some b => dot + nth o b 0
           | None => dot
           end)
        (seq 0 (out_features l)))) x.

Record LinearNorm : Type := { ln_linear : Linear }.

(** [w] is the weight that [xavier_uniform_] draws; the bias, when there is
    one, is set to 0. *)
Definition LinearNorm_init (in_features out_features : nat) (bias : bool)
    (w : Tensor2) : LinearNorm :=
  {| ln_linear :=
       {| in_features := in_features;
          out_features := out_features;
          lin_weight := w;
          lin_bias := if bias then Some (repeat 0 out_features) else None |} |}.

Definition LinearNorm_forward (self : LinearNorm) (x : Tensor3) : Tensor3 :=
  let x := nn_Linear_forward (ln_linear self) x in
  x.

(** *** [class ConvNorm] *)

Record ConvNorm : Type := {
  cn_conv : Conv1d;
  cn_transpose : bool
}.

(** [w] and [b] are the weight that [xavier_uniform_] draws, with the gain
    of a [w_init_gain] that [calculate_gain] knows, and the bias torch
    draws; a convolution without bias has none to add. *)
Definition ConvNorm_init (in_channels out_channels kernel_size stride : nat)
    (padding : option nat) (dilation : nat) (bias : bool) (transpose : bool)
    (w : Tensor3) (b : Tensor1) : checked ConvNorm :=
  let build padding :=
    Done {| cn_conv := nn_Conv1d in_channels out_channels kernel_size stride
                                 padding dilation 1 w (if bias then b else []);
            cn_transpose := transpose |} in
  match padding with
  | None =>
      if (kernel_size mod 2 =? 1)%nat
      then build (dilation * (kernel_size - 1) / 2)%nat
      else Raise "AssertionError"
  | Some padding => build padding
  end.

Definition ConvNorm_forward (self : ConvNorm) (x : Tensor3) : Tensor3 :=
  let x := if cn_transpose self then transpose12 x else x in
  let x := Conv1d_forward (cn_conv self) x in
  let x := if cn_transpose self then transpose12 x else x in
  x.

(** *** [class ResBlock1] *)

(** The convolutions carry the weight that [weight_norm] computes from its
    two parameters before each call. *)
Record ResBlock1 : Type := {
  rb_convs1 : list Conv1d;
  rb_convs2 : list Conv1d
}.

Definition ResBlock1_init (channels kernel_size : nat)
    (dilation : nat * nat * nat) (w1 w2 : nat -> Tensor3 * Tensor1)
  : ResBlock1 :=
  let conv d w :=
    nn_Conv1d channels channels kernel_size 1 (get_padding kernel_size d) d 1
              (fst w) (snd w) in
  let '(d0, d1, d2) := dilation in
  {| rb_convs1 := [conv d0 (w1 0%nat); conv d1 (w1 1%nat); conv d2 (w1 2%nat)];
     rb_convs2 := [conv 1%nat (w2 0%nat); conv 1%nat (w2 1%nat);
                   conv 1%nat (w2 2%nat)] |}.

(** What [ResBlock1.__init__] establishes for dilations of at least 1:
    every convolution has [channels] input and output channels, stride 1
    and the padding of [get_padding]. *)
Definition ResBlock1_wf (channels kernel_size : nat) (self : ResBlock1)
  : Prop :=
  Forall (same_length_conv channels kernel_size) (rb_convs1 self)
  /\ Forall (same_length_conv channels kernel_size) (rb_convs2 self)
  /\ Forall (fun cv => conv_in_channels cv = channels
                       /\ conv_groups cv = 1%nat)
            (rb_convs1 self ++ rb_convs2 self).

(** The body of the loop of [ResBlock1.forward] for one pair [(c1, c2)]. *)
Definition ResBlock1_step (x_mask : option Tensor3) (x : Tensor3)
    (c : Conv1d * Conv1d) : Tensor3 :=
  let xt := F_leaky_relu x LRELU_SLOPE in
  let xt := masked xt x_mask in
  let xt := Conv1d_forward (fst c) xt in
  let xt := F_leaky_relu xt LRELU_SLOPE in
  let xt := masked xt x_mask in
  let xt := Conv1d_forward (snd c) xt in
  tadd xt x.

Definition ResBlock1_forward (self : ResBlock1) (x : Tensor3)
    (x_mask : option Tensor3) : Tensor3 :=
  let x := fold_left (ResBlock1_step x_mask)
                     (combine (rb_convs1 self) (rb_convs2 self)) x in
  masked x x_mask.

(** ** Concrete instances

    Instances of the three outside functions and a small [ConvFlow], on
    which the theorems below are applied to concrete tensors. *)

(** The tanh form of GELU, [F.gelu(y, approximate='tanh')]. *)
Definition gelu_tanh (v : R) : R :=
  0.5 * v * (1 + tanh (sqrt (2 / PI) * (v + 0.044715 * (v * v * v)))).

(** [nn.Dropout] after [model.eval()]: the identity. *)
Definition dropout_eval (p : R) (y : Tensor3) : Tensor3 := y.

(** The spline all of whose bins have slope 1: the identity, with
    log-derivative 0, in both modes. *)
Definition spline_identity (v : R) (widths heights derivatives : Tensor1)
    (inverse : bool) (tail_bound : R) : R * R := (v, 0).

(** [ConvFlow(2, 1, 1, 0, num_bins=1, tail_bound=5.0)] with weight 1 and bias
    0 drawn for [pre]. *)
Definition ConvFlow_small : ConvFlow :=
  ConvFlow_init 2 1 1 0 1 5 ([[[1]]], [0])
                (fun _ => ([], [])) (fun _ => ([], [])).

(** [DDSConv(2, 3, 2)] with all weights 1 and all biases 0. *)
Definition DDSConv_small : DDSConv :=
  DDSConv_init 2 3 2 0
               (fun _ => ([[[1; 1; 1]]; [[1; 1; 1]]], [0; 0]))
               (fun _ => ([[[1]; [1]]; [[1]; [1]]], [0; 0])).

(** [ResBlock1(1, 3, (1, 3, 5))] with all weights 1 and all biases 0. *)
Definition ResBlock1_small : ResBlock1 :=
  ResBlock1_init 1 3 (1, 3, 5)%nat
                 (fun _ => ([[[1; 1; 1]]], [0]))
                 (fun _ => ([[[1; 1; 1]]], [0])).

(** * Properties *)

#[local] Arguments bop3 : simpl never.
#[local] Arguments tmul : simpl never.
#[local] Arguments tadd : simpl never.
#[local] Arguments tsub : simpl never.
#[local] Arguments map3 : simpl never.
#[local] Arguments unsqueeze0 : simpl never.
#[local] Arguments torch_exp : simpl never.
#[local] Arguments torch_log : simpl never.
#[local] Arguments torch_neg : simpl never.
#[local] Arguments torch_clamp_min : simpl never.
#[local] Arguments torch_sum12 : simpl never.
#[local] Arguments torch_flip1 : simpl never.
#[local] Arguments torch_zeros : simpl never.
#[local] Arguments torch_cat1 : simpl never.
#[local] Arguments torch_split1 : simpl never.

(** ** Lists and broadcasting *)

Lemma map2_length {A B C} (f : A -> B -> C) xs ys :
  length (map2 f xs ys) = Nat.min (length xs) (length ys).
Proof.
  revert ys; induction xs as [|x xs IH]; intros [|y ys]; simpl; auto.
Qed.

Lemma map2_nth {A B C} (f : A -> B -> C) xs ys i dx dy d :
  (i < length xs)%nat -> (i < length ys)%nat ->
  nth i (map2 f xs ys) d = f (nth i xs dx) (nth i ys dy).
Proof.
  revert ys i; induction xs as [|x xs IH]; intros [|y ys] [|i]; simpl;
    intros; try lia; auto.
  apply IH; lia.
Qed.

Lemma map_nth_in {A B} (f : A -> B) l i da db :
  (i < length l)%nat -> nth i (map f l) db = f (nth i l da).
Proof.
  intros Hi. rewrite (nth_indep _ db (f da)) by (rewrite length_map; exact Hi).
  apply map_nth.
Qed.

(** Case analysis on which axes have size 1. *)
Ltac bcases :=
  unfold bdim, bidx, compat in *;
  repeat match goal with
         | H : context [(?n =? 1)%nat] |- _ => destruct (Nat.eqb_spec n 1)
         | |- context [(?n =? 1)%nat] => destruct (Nat.eqb_spec n 1)
         end;
  try lia.

Lemma bdim_same n : bdim n n = n.
Proof. bcases. Qed.

Lemma bdim_one_r n : bdim n 1 = n.
Proof. bcases. Qed.

Lemma bdim_one_l n : bdim 1 n = n.
Proof. reflexivity. Qed.

Lemma bidx_lt {n i} : (i < n)%nat -> bidx n i = i.
Proof. intros; bcases. Qed.

Lemma compat_refl n : compat n n.
Proof. left; reflexivity. Qed.

Lemma compat_one_r n : compat n 1.
Proof. right; right; reflexivity. Qed.

Lemma compat_one_l n : compat 1 n.
Proof. right; left; reflexivity. Qed.

Create HintDb shapes.
#[local] Hint Resolve compat_refl compat_one_r compat_one_l : shapes.

Lemma broadcast_length {A B C} (f : A -> B -> C) xs ys :
  compat (length xs) (length ys) ->
  length (broadcast f xs ys) = bdim (length xs) (length ys).
Proof.
  unfold compat, bdim, broadcast.
  destruct xs as [|x [|x' xs]]; destruct ys as [|y [|y' ys]]; simpl;
    intros H; try rewrite length_map; try rewrite map2_length; simpl; lia.
Qed.

Lemma broadcast_nth {A B C} (f : A -> B -> C) xs ys i dx dy d :
  compat (length xs) (length ys) ->
  (i < bdim (length xs) (length ys))%nat ->
  nth i (broadcast f xs ys) d =
  f (nth (bidx (length xs) i) xs dx) (nth (bidx (length ys) i) ys dy).
Proof.
  unfold compat, bdim, bidx, broadcast.
  destruct xs as [|x [|x' xs]]; destruct ys as [|y [|y' ys]];
    cbn [length Nat.eqb]; intros H Hi; try lia.
  - destruct i; [reflexivity | simpl in Hi; lia].
  - cbn [nth]. rewrite (map_nth_in (f x) _ i dy d) by exact Hi. reflexivity.
  - cbn [nth]. rewrite (map_nth_in (fun a => f a y) _ i dx d) by exact Hi.
    reflexivity.
  - apply map2_nth; simpl in *; lia.
Qed.

(** ** Shapes and entries *)

Lemma shape3_nth {b c t x i} :
  shape3 b c t x -> (i < b)%nat -> shape2 c t (nth i x []).
Proof.
  intros [Hl Hf] Hi. rewrite Forall_forall in Hf. apply Hf, nth_In. lia.
Qed.

Lemma shape2_nth {c t x i} :
  shape2 c t x -> (i < c)%nat -> shape1 t (nth i x []).
Proof.
  intros [Hl Hf] Hi. rewrite Forall_forall in Hf. apply Hf, nth_In. lia.
Qed.

Lemma shape2_intro c t (x : Tensor2) :
  length x = c ->
  (forall i, (i < c)%nat -> length (nth i x []) = t) ->
  shape2 c t x.
Proof.
  intros Hl H. split; [exact Hl|]. apply Forall_forall. intros r Hr.
  destruct (In_nth _ _ [] Hr) as (i & Hi & <-). apply H. lia.
Qed.

Lemma shape3_intro b c t (x : Tensor3) :
  length x = b ->
  (forall i, (i < b)%nat -> shape2 c t (nth i x [])) ->
  shape3 b c t x.
Proof.
  intros Hl H. split; [exact Hl|]. apply Forall_forall. intros r Hr.
  destruct (In_nth _ _ [] Hr) as (i & Hi & <-). apply H. lia.
Qed.

(** Two tensors of one shape with the same entries are equal. *)
Lemma shape3_ext b c t x y :
  shape3 b c t x -> shape3 b c t y ->
  (forall i j k, (i < b)%nat -> (j < c)%nat -> (k < t)%nat ->
                 get3 x i j k = get3 y i j k) ->
  x = y.
Proof.
  intros Hx Hy H.
  apply (nth_ext _ _ [] []); [destruct Hx, Hy; congruence|].
  intros i Hi. replace (length x) with b in Hi by (destruct Hx; auto).
  pose proof (shape3_nth Hx Hi) as Hxi. pose proof (shape3_nth Hy Hi) as Hyi.
  apply (nth_ext _ _ [] []); [destruct Hxi, Hyi; congruence|].
  intros j Hj. replace (length (nth i x [])) with c in Hj by (destruct Hxi; auto).
  pose proof (shape2_nth Hxi Hj) as Hxj. pose proof (shape2_nth Hyi Hj) as Hyj.
  unfold shape1 in *.
  apply (nth_ext _ _ 0 0); [congruence|].
  intros k Hk. rewrite Hxj in Hk. apply (H i j k); assumption.
Qed.

(** The shape and the entries of a broadcast operation. *)
Lemma bop3_shape f {b1 c1 t1 b2 c2 t2 x y} :
  shape3 b1 c1 t1 x -> shape3 b2 c2 t2 y ->
  compat b1 b2 -> compat c1 c2 -> compat t1 t2 ->
  shape3 (bdim b1 b2) (bdim c1 c2) (bdim t1 t2) (bop3 f x y).
Proof.
  intros Hx Hy Hb Hc Ht.
  assert (Lx : length x = b1) by (destruct Hx; auto).
  assert (Ly : length y = b2) by (destruct Hy; auto).
  unfold bop3. apply shape3_intro.
  { rewrite broadcast_length; rewrite Lx, Ly; auto. }
  intros i Hi.
  rewrite (broadcast_nth _ x y i [] [] []) by (rewrite Lx, Ly; auto).
  rewrite Lx, Ly.
  assert (Hxi : shape2 c1 t1 (nth (bidx b1 i) x [])).
  { apply (shape3_nth Hx). unfold bidx, bdim, compat in *.
    bcases. }
  assert (Hyi : shape2 c2 t2 (nth (bidx b2 i) y [])).
  { apply (shape3_nth Hy). unfold bidx, bdim, compat in *.
    bcases. }
  set (xi := nth (bidx b1 i) x []) in *. set (yi := nth (bidx b2 i) y []) in *.
  assert (Lxi : length xi = c1) by (destruct Hxi; auto).
  assert (Lyi : length yi = c2) by (destruct Hyi; auto).
  apply shape2_intro.
  { rewrite broadcast_length; rewrite Lxi, Lyi; auto. }
  intros j Hj.
  rewrite (broadcast_nth _ xi yi j [] [] []) by (rewrite Lxi, Lyi; auto).
  rewrite Lxi, Lyi.
  assert (Hxj : shape1 t1 (nth (bidx c1 j) xi [])).
  { apply (shape2_nth Hxi). unfold bidx, bdim, compat in *.
    bcases. }
  assert (Hyj : shape1 t2 (nth (bidx c2 j) yi [])).
  { apply (shape2_nth Hyi). unfold bidx, bdim, compat in *.
    bcases. }
  unfold shape1 in *.
  rewrite broadcast_length; rewrite Hxj, Hyj; auto.
Qed.

Lemma bop3_get f {b1 c1 t1 b2 c2 t2 x y} i j k :
  shape3 b1 c1 t1 x -> shape3 b2 c2 t2 y ->
  compat b1 b2 -> compat c1 c2 -> compat t1 t2 ->
  (i < bdim b1 b2)%nat -> (j < bdim c1 c2)%nat -> (k < bdim t1 t2)%nat ->
  get3 (bop3 f x y) i j k =
  f (get3 x (bidx b1 i) (bidx c1 j) (bidx t1 k))
    (get3 y (bidx b2 i) (bidx c2 j) (bidx t2 k)).
Proof.
  intros Hx Hy Hb Hc Ht Hi Hj Hk.
  assert (Lx : length x = b1) by (destruct Hx; auto).
  assert (Ly : length y = b2) by (destruct Hy; auto).
  unfold bop3, get3, get2.
  rewrite (broadcast_nth _ x y i [] [] []) by (rewrite Lx, Ly; auto).
  rewrite Lx, Ly.
  assert (Hxi : shape2 c1 t1 (nth (bidx b1 i) x []))
    by (apply (shape3_nth Hx); bcases).
  assert (Hyi : shape2 c2 t2 (nth (bidx b2 i) y []))
    by (apply (shape3_nth Hy); bcases).
  set (xi := nth (bidx b1 i) x []) in *. set (yi := nth (bidx b2 i) y []) in *.
  assert (Lxi : length xi = c1) by (destruct Hxi; auto).
  assert (Lyi : length yi = c2) by (destruct Hyi; auto).
  rewrite (broadcast_nth _ xi yi j [] [] []) by (rewrite Lxi, Lyi; auto).
  rewrite Lxi, Lyi.
  assert (Hxj : shape1 t1 (nth (bidx c1 j) xi []))
    by (apply (shape2_nth Hxi); bcases).
  assert (Hyj : shape1 t2 (nth (bidx c2 j) yi []))
    by (apply (shape2_nth Hyi); bcases).
  unfold shape1 in *.
  rewrite (broadcast_nth f _ _ k 0 0 0) by (rewrite Hxj, Hyj; auto).
  rewrite Hxj, Hyj. reflexivity.
Qed.

(** The product with a mask of shape [(b, 1, t)]. *)
Lemma tmul_mask_shape {b c t x m} :
  shape3 b c t x -> shape3 b 1 t m -> shape3 b c t (tmul x m).
Proof.
  intros Hx Hm.
  pose proof (bop3_shape Rmult Hx Hm (compat_refl b) (compat_one_r c)
                         (compat_refl t)) as H.
  rewrite !bdim_same, bdim_one_r in H. exact H.
Qed.

Lemma tmul_mask_get b c t x m i j k :
  shape3 b c t x -> shape3 b 1 t m ->
  (i < b)%nat -> (j < c)%nat -> (k < t)%nat ->
  get3 (tmul x m) i j k = get3 x i j k * get3 m i 0 k.
Proof.
  intros Hx Hm Hi Hj Hk. unfold tmul.
  rewrite (bop3_get Rmult i j k Hx Hm)
    by (auto with shapes; rewrite ?bdim_same, ?bdim_one_r; assumption).
  rewrite ?(bidx_lt Hi), ?(bidx_lt Hj), ?(bidx_lt Hk). reflexivity.
Qed.

Lemma map3_shape f {b c t x} : shape3 b c t x -> shape3 b c t (map3 f x).
Proof.
  intros [Hb Hx]. unfold map3. split; [rewrite length_map; exact Hb|].
  apply Forall_map. eapply Forall_impl; [|exact Hx].
  intros xb [Hc Hxb]. split; [rewrite length_map; exact Hc|].
  apply Forall_map. eapply Forall_impl; [|exact Hxb].
  intros r Hr. unfold shape1 in *. rewrite length_map. exact Hr.
Qed.

Lemma map3_get f b c t x i j k :
  shape3 b c t x -> (i < b)%nat -> (j < c)%nat -> (k < t)%nat ->
  get3 (map3 f x) i j k = f (get3 x i j k).
Proof.
  intros Hx Hi Hj Hk. unfold map3, get3, get2.
  pose proof (shape3_nth Hx Hi) as Hxi. pose proof (shape2_nth Hxi Hj) as Hxj.
  destruct Hx as [Lx _]. destruct Hxi as [Lxi _]. unfold shape1 in Hxj.
  rewrite (map_nth_in _ x i []) by lia.
  rewrite (map_nth_in _ _ j []) by lia.
  rewrite (map_nth_in _ _ k 0) by lia. reflexivity.
Qed.

Lemma repeat3_shape v b c t : shape3 b c t (repeat (repeat (repeat v t) c) b).
Proof.
  split; [apply repeat_length|]. apply Forall_forall. intros xb Hxb.
  apply repeat_spec in Hxb. subst xb. split; [apply repeat_length|].
  apply Forall_forall. intros r Hr. apply repeat_spec in Hr. subst r.
  apply repeat_length.
Qed.

Lemma repeat3_get v b c t i j k :
  (i < b)%nat -> (j < c)%nat -> (k < t)%nat ->
  get3 (repeat (repeat (repeat v t) c) b) i j k = v.
Proof.
  intros Hi Hj Hk. unfold get3, get2. rewrite !nth_repeat_lt by assumption.
  reflexivity.
Qed.

(** Sums by index. *)
Lemma sigma_S n f : sigma (S n) f = f 0%nat + sigma n (fun k => f (S k)).
Proof.
  unfold sigma. simpl. rewrite <- seq_shift, map_map. reflexivity.
Qed.

Lemma sigma_ext n f g :
  (forall k, (k < n)%nat -> f k = g k) -> sigma n f = sigma n g.
Proof.
  intros H. unfold sigma. f_equal. apply map_ext_in. intros k Hk.
  apply in_seq in Hk. apply H. lia.
Qed.

Lemma sigma_zero n : sigma n (fun _ => 0) = 0.
Proof.
  induction n as [|n IH]; [reflexivity|]. rewrite sigma_S, IH. lra.
Qed.

Lemma Rsum_sigma l : Rsum l = sigma (length l) (fun k => nth k l 0).
Proof.
  induction l as [|a l IH]; [reflexivity|].
  simpl length. rewrite sigma_S. simpl. rewrite IH. reflexivity.
Qed.

Lemma torch_sum12_length x : length (torch_sum12 x) = length x.
Proof. apply length_map. Qed.

Lemma torch_sum12_nth b c t x i :
  shape3 b c t x -> (i < b)%nat ->
  nth i (torch_sum12 x) 0 =
  sigma c (fun j => sigma t (fun k => get3 x i j k)).
Proof.
  intros Hx Hi. unfold torch_sum12.
  pose proof (shape3_nth Hx Hi) as Hxi. destruct Hx as [Lx _].
  rewrite (map_nth_in _ x i []) by lia.
  rewrite Rsum_sigma, length_map. destruct Hxi as [Lxi Hf]. rewrite Lxi.
  apply sigma_ext. intros j Hj.
  rewrite (map_nth_in _ _ j []) by lia.
  rewrite Rsum_sigma.
  assert (Hxj : shape1 t (nth j (nth i x []) []))
    by (apply (shape2_nth (conj Lxi Hf) Hj)).
  unfold shape1 in Hxj. rewrite Hxj. reflexivity.
Qed.

(** A per-channel parameter of shape [(1, c, 1)] on the left of a tensor. *)
Lemma bop3_param_l_shape f {b c t p x} :
  shape3 1 c 1 p -> shape3 b c t x -> shape3 b c t (bop3 f p x).
Proof.
  intros Hp Hx.
  pose proof (bop3_shape f Hp Hx (compat_one_l b) (compat_refl c)
                         (compat_one_l t)) as H.
  rewrite !bdim_one_l, bdim_same in H. exact H.
Qed.

Lemma bop3_param_l_get f b c t p x i j k :
  shape3 1 c 1 p -> shape3 b c t x ->
  (i < b)%nat -> (j < c)%nat -> (k < t)%nat ->
  get3 (bop3 f p x) i j k = f (get3 p 0 j 0) (get3 x i j k).
Proof.
  intros Hp Hx Hi Hj Hk.
  rewrite (bop3_get f i j k Hp Hx)
    by (auto with shapes; rewrite ?bdim_one_l, ?bdim_same; assumption).
  rewrite ?(bidx_lt Hi), ?(bidx_lt Hj), ?(bidx_lt Hk). reflexivity.
Qed.

(** The same parameter on the right. *)
Lemma bop3_param_r_shape f {b c t p x} :
  shape3 b c t x -> shape3 1 c 1 p -> shape3 b c t (bop3 f x p).
Proof.
  intros Hx Hp.
  pose proof (bop3_shape f Hx Hp (compat_one_r b) (compat_refl c)
                         (compat_one_r t)) as H.
  rewrite !bdim_one_r, bdim_same in H. exact H.
Qed.

Lemma bop3_param_r_get f b c t p x i j k :
  shape3 b c t x -> shape3 1 c 1 p ->
  (i < b)%nat -> (j < c)%nat -> (k < t)%nat ->
  get3 (bop3 f x p) i j k = f (get3 x i j k) (get3 p 0 j 0).
Proof.
  intros Hx Hp Hi Hj Hk.
  rewrite (bop3_get f i j k Hx Hp)
    by (auto with shapes; rewrite ?bdim_one_r, ?bdim_same; assumption).
  rewrite ?(bidx_lt Hi), ?(bidx_lt Hj), ?(bidx_lt Hk). reflexivity.
Qed.

(** A per-channel parameter against a mask: the result has the full shape. *)
Lemma bop3_param_mask_shape f {b c t p m} :
  shape3 1 c 1 p -> shape3 b 1 t m -> shape3 b c t (bop3 f p m).
Proof.
  intros Hp Hm.
  pose proof (bop3_shape f Hp Hm (compat_one_l b) (compat_one_r c)
                         (compat_one_l t)) as H.
  rewrite !bdim_one_l in H.
  replace (bdim c 1) with c in H by (symmetry; apply bdim_one_r). exact H.
Qed.

Lemma bop3_param_mask_get f b c t p m i j k :
  shape3 1 c 1 p -> shape3 b 1 t m ->
  (i < b)%nat -> (j < c)%nat -> (k < t)%nat ->
  get3 (bop3 f p m) i j k = f (get3 p 0 j 0) (get3 m i 0 k).
Proof.
  intros Hp Hm Hi Hj Hk.
  rewrite (bop3_get f i j k Hp Hm)
    by (auto with shapes; rewrite ?bdim_one_l, ?bdim_one_r; assumption).
  rewrite ?(bidx_lt Hi), ?(bidx_lt Hj), ?(bidx_lt Hk). reflexivity.
Qed.

Lemma unsqueeze0_shape {c t p} : shape2 c t p -> shape3 1 c t (unsqueeze0 p).
Proof. intros Hp. split; [reflexivity|]. constructor; auto. Qed.

(** ** [Flip] *)

(** C6: applying [Flip] twice, in any modes and whatever is passed for the
    mask, returns the input tensor itself, and the log-determinant of the
    forward mode is the vector of as many zeros as the input has batch
    entries. *)
Theorem Flip_twice_identity_logdet_zero (x : Tensor3)
    (args args' : list Tensor3) (reverse reverse' : bool) :
  tensor_of (Flip_forward (tensor_of (Flip_forward x args reverse))
                          args' reverse') = x
  /\ logdet_of (Flip_forward x args false) = Some (repeat 0 (length x)).
Proof.
  split.
  - assert (E : forall y a r, tensor_of (Flip_forward y a r) = torch_flip1 y)
      by (intros y a []; reflexivity).
    rewrite !E. unfold torch_flip1. rewrite map_map.
    rewrite <- (map_id x) at 2. apply map_ext. intros xb. apply rev_involutive.
  - simpl. unfold torch_zeros, torch_flip1. rewrite length_map. reflexivity.
Qed.

(** ** [DDSConv.__init__] *)

(** C7: the depthwise convolutions that [DDSConv.__init__] builds use, in
    layer order, the dilations [kernel_size ^ i] and the paddings
    [kernel_size ^ i * (kernel_size - 1) / 2] for [i] from 0 to
    [n_layers - 1]; for [kernel_size = 3] and [n_layers = 2] both schedules
    are [1, 3]. *)
Theorem DDSConv_init_dilation_padding (channels kernel_size n_layers : nat)
    (p_dropout : R) (w_sep w_1x1 : nat -> Tensor3 * Tensor1) :
  let self :=
    DDSConv_init channels kernel_size n_layers p_dropout w_sep w_1x1 in
  let self32 := DDSConv_init channels 3 2 p_dropout w_sep w_1x1 in
  map conv_dilation (convs_sep self)
    = map (fun i => kernel_size ^ i)%nat (seq 0 n_layers)
  /\ map conv_padding (convs_sep self)
    = map (fun i => kernel_size ^ i * (kernel_size - 1) / 2)%nat
          (seq 0 n_layers)
  /\ map conv_dilation (convs_sep self32) = [1; 3]%nat
  /\ map conv_padding (convs_sep self32) = [1; 3]%nat.
Proof.
  simpl. rewrite !map_map. simpl. unfold get_padding.
  repeat split; reflexivity.
Qed.

(** ** [Log] *)

Lemma Log_forward_get b c t x x_mask i j k :
  shape3 b c t x -> shape3 b 1 t x_mask ->
  (i < b)%nat -> (j < c)%nat -> (k < t)%nat ->
  get3 (tensor_of (Log_forward x x_mask false)) i j k
  = ln (Rmax (get3 x i j k) 1e-5) * get3 x_mask i 0 k.
Proof.
  intros Hx Hm Hi Hj Hk. simpl. unfold torch_log, torch_clamp_min.
  rewrite (@tmul_mask_get b c t) by (auto using map3_shape).
  rewrite (@map3_get _ b c t) by (auto using map3_shape).
  rewrite (@map3_get _ b c t) by assumption. reflexivity.
Qed.

Lemma Log_forward_shape b c t x x_mask :
  shape3 b c t x -> shape3 b 1 t x_mask ->
  shape3 b c t (tensor_of (Log_forward x x_mask false)).
Proof.
  intros Hx Hm. simpl. apply tmul_mask_shape; [|exact Hm].
  unfold torch_log, torch_clamp_min. auto using map3_shape.
Qed.

(** C5: in forward mode every entry of the output of [Log] is the logarithm
    of the input entry clamped from below at 1e-5, times the mask entry of
    its batch entry and time step; on an all-ones input under an all-ones
    mask the output is all zeros and the log-determinant is 0 for every
    batch entry. *)
Theorem Log_forward_clamp_ones (b c t : nat) (x x_mask : Tensor3) :
  shape3 b c t x -> shape3 b 1 t x_mask ->
  exists y logdet,
    Log_forward x x_mask false = Forward y logdet
    /\ (forall i j k, (i < b)%nat -> (j < c)%nat -> (k < t)%nat ->
          get3 y i j k = ln (Rmax (get3 x i j k) 1e-5) * get3 x_mask i 0 k)
    /\ (x = ones3 b c t -> x_mask = ones3 b 1 t ->
        y = zeros3 b c t /\ logdet = repeat 0 b).
Proof.
  intros Hx Hm.
  pose proof (@Log_forward_shape b c t x x_mask Hx Hm) as Hy.
  pose proof (fun i j k => @Log_forward_get b c t x x_mask i j k Hx Hm) as Hg.
  simpl in Hy, Hg. eexists; eexists. split; [reflexivity|].
  split; [exact Hg|]. intros Ex Em.
  set (y := tmul (torch_log (torch_clamp_min x 1e-5)) x_mask) in *.
  assert (Hz : forall i j k, (i < b)%nat -> (j < c)%nat -> (k < t)%nat ->
                             get3 y i j k = 0).
  { intros i j k Hi Hj Hk. rewrite Hg by assumption. subst x x_mask.
    unfold ones3. rewrite !repeat3_get by (assumption || lia).
    rewrite Rmax_left by lra. rewrite ln_1. lra. }
  split.
  - apply (@shape3_ext b c t); [exact Hy | apply repeat3_shape |].
    intros i j k Hi Hj Hk. unfold zeros3.
    rewrite repeat3_get by assumption. apply Hz; assumption.
  - apply (nth_ext _ _ 0 0).
    { rewrite torch_sum12_length, repeat_length. unfold torch_neg, map3.
      rewrite length_map. apply Hy. }
    intros i Hi. rewrite torch_sum12_length in Hi. unfold torch_neg, map3 in Hi.
    rewrite length_map in Hi. rewrite (proj1 Hy) in Hi.
    rewrite (@torch_sum12_nth b c t) by (try apply map3_shape; assumption).
    rewrite nth_repeat_lt by assumption.
    rewrite <- (sigma_zero c). apply sigma_ext. intros j Hj.
    rewrite <- (sigma_zero t). apply sigma_ext. intros k Hk.
    unfold torch_neg. rewrite (@map3_get _ b c t) by assumption.
    rewrite Hz by assumption. lra.
Qed.

(** ** [ElementwiseAffine] *)

Lemma ElementwiseAffine_init_inv channels :
  ElementwiseAffine_inv (ElementwiseAffine_init channels).
Proof.
  split; (split; [apply repeat_length|]); apply Forall_forall;
    intros r Hr; apply repeat_spec in Hr; subst r; reflexivity.
Qed.

Lemma is_mask_get {b t m i k} :
  is_mask m -> shape3 b 1 t m -> (i < b)%nat -> (k < t)%nat ->
  get3 m i 0 k = 0 \/ get3 m i 0 k = 1.
Proof.
  intros Hv Hm Hi Hk. unfold is_mask in Hv. rewrite Forall_forall in Hv.
  pose proof (shape3_nth Hm Hi) as Hmi.
  pose proof (shape2_nth Hmi Nat.lt_0_1) as Hm0.
  destruct Hm as [Lm _]. destruct Hmi as [Lmi _]. unfold shape1 in Hm0.
  assert (H1 : In (nth i m []) m) by (apply nth_In; lia).
  apply Hv in H1. rewrite Forall_forall in H1.
  assert (H2 : In (nth 0 (nth i m []) []) (nth i m [])) by (apply nth_In; lia).
  apply H1 in H2. rewrite Forall_forall in H2.
  apply H2. unfold get3, get2. apply nth_In. lia.
Qed.

Section Affine.

Variables (self : ElementwiseAffine) (b c t : nat) (x x_mask : Tensor3).
Hypothesis Hm : shape2 c 1 (ea_m self).
Hypothesis Hlogs : shape2 c 1 (ea_logs self).
Hypothesis Hx : shape3 b c t x.
Hypothesis Hmask : shape3 b 1 t x_mask.

Lemma ElementwiseAffine_forward_shape :
  shape3 b c t (tensor_of (ElementwiseAffine_forward self x x_mask false)).
Proof.
  simpl. apply tmul_mask_shape; [|exact Hmask].
  apply bop3_param_l_shape; [apply unsqueeze0_shape; exact Hm|].
  apply bop3_param_l_shape; [|exact Hx].
  apply map3_shape, unsqueeze0_shape; exact Hlogs.
Qed.

Lemma ElementwiseAffine_forward_get i j k :
  (i < b)%nat -> (j < c)%nat -> (k < t)%nat ->
  get3 (tensor_of (ElementwiseAffine_forward self x x_mask false)) i j k
  = (get2 (ea_m self) j 0 + exp (get2 (ea_logs self) j 0) * get3 x i j k)
    * get3 x_mask i 0 k.
Proof.
  intros Hi Hj Hk. simpl.
  pose proof (unsqueeze0_shape Hm) as Hm3.
  pose proof (unsqueeze0_shape Hlogs) as Hl3.
  pose proof (map3_shape exp Hl3) as He3.
  rewrite (@tmul_mask_get b c t); try assumption.
  2:{ apply bop3_param_l_shape; [exact Hm3|].
      apply bop3_param_l_shape; assumption. }
  unfold tadd. rewrite (@bop3_param_l_get _ b c t); try assumption.
  2:{ apply bop3_param_l_shape; assumption. }
  unfold tmul at 1. rewrite (@bop3_param_l_get _ b c t); try assumption.
  unfold torch_exp. rewrite (@map3_get _ 1 c 1) by (assumption || lia).
  reflexivity.
Qed.

Lemma ElementwiseAffine_reverse_shape :
  shape3 b c t (tensor_of (ElementwiseAffine_forward self x x_mask true)).
Proof.
  simpl. apply tmul_mask_shape; [|exact Hmask].
  apply bop3_param_r_shape.
  - apply bop3_param_r_shape; [exact Hx | apply unsqueeze0_shape; exact Hm].
  - apply map3_shape, map3_shape, unsqueeze0_shape; exact Hlogs.
Qed.

Lemma ElementwiseAffine_reverse_get i j k :
  (i < b)%nat -> (j < c)%nat -> (k < t)%nat ->
  get3 (tensor_of (ElementwiseAffine_forward self x x_mask true)) i j k
  = (get3 x i j k - get2 (ea_m self) j 0) * exp (- get2 (ea_logs self) j 0)
    * get3 x_mask i 0 k.
Proof.
  intros Hi Hj Hk. simpl.
  pose proof (unsqueeze0_shape Hm) as Hm3.
  pose proof (unsqueeze0_shape Hlogs) as Hl3.
  pose proof (map3_shape Ropp Hl3) as Hn3.
  pose proof (map3_shape exp Hn3) as He3.
  pose proof (bop3_param_r_shape Rminus Hx Hm3) as Hd.
  rewrite (@tmul_mask_get b c t); try assumption.
  2:{ apply bop3_param_r_shape; assumption. }
  unfold tmul at 1. rewrite (@bop3_param_r_get _ b c t); try assumption.
  unfold tsub. rewrite (@bop3_param_r_get _ b c t); try assumption.
  unfold torch_exp, torch_neg.
  rewrite (@map3_get _ 1 c 1) by (assumption || lia).
  rewrite (@map3_get _ 1 c 1) by (assumption || lia).
  reflexivity.
Qed.

End Affine.

Arguments ElementwiseAffine_forward_shape {self b c t x x_mask}.
Arguments ElementwiseAffine_forward_get {self b c t x x_mask}.
Arguments ElementwiseAffine_reverse_shape {self b c t x x_mask}.
Arguments ElementwiseAffine_reverse_get {self b c t x x_mask}.

(** C3: in forward mode the log-determinant of [ElementwiseAffine] has one
    entry per batch entry, entry [i] being the sum over channels [j] and time
    steps [k] of [logs[j] * mask[i][k]]; it is the same for any two inputs
    [x] and [x']. *)
Theorem ElementwiseAffine_logdet_sum_logs_mask (self : ElementwiseAffine)
    (b c t : nat) (x x' x_mask : Tensor3) :
  shape2 c 1 (ea_logs self) -> shape3 b 1 t x_mask ->
  exists logdet,
    logdet_of (ElementwiseAffine_forward self x x_mask false) = Some logdet
    /\ logdet_of (ElementwiseAffine_forward self x' x_mask false) = Some logdet
    /\ length logdet = b
    /\ forall i, (i < b)%nat ->
         nth i logdet 0 = spec_affine_logdet (ea_logs self) x_mask c t i.
Proof.
  intros Hlogs Hmask. eexists. split; [reflexivity|]. split; [reflexivity|].
  pose proof (unsqueeze0_shape Hlogs) as Hl3.
  pose proof (bop3_param_mask_shape Rmult Hl3 Hmask) as Hz.
  split.
  - rewrite torch_sum12_length. apply Hz.
  - intros i Hi. rewrite (@torch_sum12_nth b c t) by assumption.
    unfold spec_affine_logdet. apply sigma_ext. intros j Hj.
    apply sigma_ext. intros k Hk. unfold tmul.
    rewrite (@bop3_param_mask_get _ b c t) by assumption. reflexivity.
Qed.

(** C4, as the code has it: in reverse mode [ElementwiseAffine] subtracts
    [m] from the input, scales by [exp(-logs)] and multiplies by the mask,
    [x = (y - m) * exp(-logs) * mask] entry by entry; nothing is divided by
    the mask, and an entry whose mask is 0 is 0. *)
Theorem ElementwiseAffine_reverse_formula (self : ElementwiseAffine)
    (b c t : nat) (y x_mask : Tensor3) :
  shape2 c 1 (ea_m self) -> shape2 c 1 (ea_logs self) ->
  shape3 b c t y -> shape3 b 1 t x_mask ->
  exists x,
    ElementwiseAffine_forward self y x_mask true = Reverse x
    /\ shape3 b c t x
    /\ forall i j k, (i < b)%nat -> (j < c)%nat -> (k < t)%nat ->
         get3 x i j k
         = (get3 y i j k - get2 (ea_m self) j 0)
           * exp (- get2 (ea_logs self) j 0) * get3 x_mask i 0 k
         /\ (get3 x_mask i 0 k = 0 -> get3 x i j k = 0).
Proof.
  intros Hm Hlogs Hy Hmask. eexists. split; [reflexivity|].
  pose proof (ElementwiseAffine_reverse_shape Hm Hlogs Hy Hmask) as Hs.
  split; [exact Hs|].
  intros i j k Hi Hj Hk.
  pose proof (ElementwiseAffine_reverse_get Hm Hlogs Hy Hmask i j k Hi Hj Hk) as Hg.
  simpl in Hg. split; [exact Hg|].
  intros H0. rewrite Hg, H0. ring.
Qed.

(** ** [DSResBlock] *)

(** C9: whatever is passed for [x_mask], [DSResBlock.forward] returns what
    its [DDSConv] returns on [x] without a mask and without conditioning. *)
Theorem DSResBlock_forward_ignores_mask (self : DSResBlock) (x : Tensor3)
    (x_mask x_mask' : option Tensor3) :
  DSResBlock_forward self x x_mask
  = DDSConv_forward (dds_conv self) x None None
  /\ DSResBlock_forward self x x_mask = DSResBlock_forward self x x_mask'.
Proof. split; reflexivity. Qed.

(** ** [ConvFlow] *)

Lemma torch_split1_odd {x} n {b c t} :
  shape3 b c t x -> (0 < b)%nat -> Nat.Odd c -> torch_split1 x n n = None.
Proof.
  intros [Lx Hx] Hb [q Hq]. unfold torch_split1.
  destruct x as [|xb x]; [simpl in Lx; lia|].
  apply Forall_inv in Hx. destruct Hx as [Lxb _].
  cbn [forallb]. replace (length xb =? n + n)%nat with false; [reflexivity|].
  symmetry. apply Nat.eqb_neq. lia.
Qed.

(** C8: on an input with at least one batch entry whose number of channels
    is odd, [ConvFlow.forward] raises at its first statement, the split,
    whatever the parameters, the mask, the conditioning and the mode; it
    returns no tensor. *)
Theorem ConvFlow_forward_odd_channels_raises (self : ConvFlow)
    (b c t : nat) (x x_mask : Tensor3) (g : option Tensor3) (reverse : bool) :
  shape3 b c t x -> (0 < b)%nat -> Nat.Odd c ->
  torch_split1 x (cf_half_channels self) (cf_half_channels self) = None
  /\ (exists msg, ConvFlow_forward self x x_mask g reverse = RuntimeError msg)
  /\ (forall out, ConvFlow_forward self x x_mask g reverse <> Ok out).
Proof.
  intros Hx Hb Hc.
  pose proof (torch_split1_odd (cf_half_channels self) Hx Hb Hc) as E.
  unfold ConvFlow_forward. rewrite E.
  split; [reflexivity|]. split; [eexists; reflexivity | discriminate].
Qed.

(** *** Splitting, joining and maps with positions *)

Lemma imap_from_length {A B} (f : nat -> A -> B) l n :
  length (imap_from n f l) = length l.
Proof. revert n; induction l as [|a l IH]; intros n; simpl; auto. Qed.

Lemma imap_from_nth {A B} (f : nat -> A -> B) l n i da db :
  (i < length l)%nat ->
  nth i (imap_from n f l) db = f (n + i)%nat (nth i l da).
Proof.
  revert n i; induction l as [|a l IH]; intros n [|i] Hi; simpl in *; try lia.
  - rewrite Nat.add_0_r. reflexivity.
  - rewrite (IH (S n) i) by lia. f_equal. lia.
Qed.

Lemma imap_length {A B} (f : nat -> A -> B) l : length (imap f l) = length l.
Proof. apply imap_from_length. Qed.

Lemma imap_nth {A B} (f : nat -> A -> B) l i da db :
  (i < length l)%nat -> nth i (imap f l) db = f i (nth i l da).
Proof. intros Hi. unfold imap. rewrite (imap_from_nth f l 0 i da db Hi). reflexivity. Qed.

Lemma imap3_shape (F : nat -> nat -> nat -> R -> R) {b c t x} :
  shape3 b c t x ->
  shape3 b c t (imap (fun i => imap (fun j => imap (fun k v => F i j k v))) x).
Proof.
  intros Hx. apply shape3_intro; [rewrite imap_length; apply Hx|].
  intros i Hi. pose proof (shape3_nth Hx Hi) as Hxi.
  rewrite (imap_nth _ x i [] []) by (rewrite (proj1 Hx); exact Hi).
  apply shape2_intro; [rewrite imap_length; apply Hxi|].
  intros j Hj. pose proof (shape2_nth Hxi Hj) as Hxj.
  rewrite (imap_nth _ _ j [] []) by (rewrite (proj1 Hxi); exact Hj).
  rewrite imap_length. exact Hxj.
Qed.

Lemma imap3_get (F : nat -> nat -> nat -> R -> R) {b c t x} i j k :
  shape3 b c t x -> (i < b)%nat -> (j < c)%nat -> (k < t)%nat ->
  get3 (imap (fun i => imap (fun j => imap (fun k v => F i j k v))) x) i j k
  = F i j k (get3 x i j k).
Proof.
  intros Hx Hi Hj Hk. pose proof (shape3_nth Hx Hi) as Hxi.
  pose proof (shape2_nth Hxi Hj) as Hxj. unfold get3, get2.
  rewrite (imap_nth _ x i [] []) by (rewrite (proj1 Hx); exact Hi).
  rewrite (imap_nth _ _ j [] []) by (rewrite (proj1 Hxi); exact Hj).
  rewrite (imap_nth _ _ k 0 0) by (rewrite Hxj; exact Hk). reflexivity.
Qed.

Lemma torch_split1_even {x} n {b t} :
  shape3 b (n + n) t x ->
  torch_split1 x n n
  = Some (map (firstn n) x, map (fun xb => firstn n (skipn n xb)) x).
Proof.
  intros [_ Hx]. unfold torch_split1.
  replace (forallb _ x) with true; [reflexivity|].
  symmetry. apply forallb_forall. intros xb Hxb.
  rewrite Forall_forall in Hx. apply Nat.eqb_eq, (Hx xb Hxb).
Qed.

Lemma split_first_shape {x} n {b t} :
  shape3 b (n + n) t x -> shape3 b n t (map (firstn n) x).
Proof.
  intros Hx. apply shape3_intro; [rewrite length_map; apply Hx|].
  intros i Hi. pose proof (shape3_nth Hx Hi) as Hxi.
  rewrite (map_nth_in _ x i []) by (rewrite (proj1 Hx); exact Hi).
  apply shape2_intro.
  { rewrite length_firstn, (proj1 Hxi). lia. }
  intros j Hj. rewrite nth_firstn.
  apply Nat.ltb_lt in Hj as Hj'. rewrite Hj'.
  apply (shape2_nth Hxi). lia.
Qed.

Lemma split_first_get {x} n {b t} i j k :
  shape3 b (n + n) t x -> (i < b)%nat -> (j < n)%nat ->
  get3 (map (firstn n) x) i j k = get3 x i j k.
Proof.
  intros Hx Hi Hj. unfold get3, get2.
  rewrite (map_nth_in _ x i []) by (rewrite (proj1 Hx); exact Hi).
  rewrite nth_firstn. apply Nat.ltb_lt in Hj. rewrite Hj. reflexivity.
Qed.

Lemma split_second_shape {x} n {b t} :
  shape3 b (n + n) t x ->
  shape3 b n t (map (fun xb => firstn n (skipn n xb)) x).
Proof.
  intros Hx. apply shape3_intro; [rewrite length_map; apply Hx|].
  intros i Hi. pose proof (shape3_nth Hx Hi) as Hxi.
  rewrite (map_nth_in _ x i []) by (rewrite (proj1 Hx); exact Hi).
  apply shape2_intro.
  { rewrite length_firstn, length_skipn, (proj1 Hxi). lia. }
  intros j Hj. rewrite nth_firstn.
  apply Nat.ltb_lt in Hj as Hj'. rewrite Hj'. rewrite nth_skipn.
  apply (shape2_nth Hxi). lia.
Qed.

Lemma split_second_get {x} n {b t} i j k :
  shape3 b (n + n) t x -> (i < b)%nat -> (j < n)%nat ->
  get3 (map (fun xb => firstn n (skipn n xb)) x) i j k
  = get3 x i (n + j) k.
Proof.
  intros Hx Hi Hj. unfold get3, get2.
  rewrite (map_nth_in _ x i []) by (rewrite (proj1 Hx); exact Hi).
  rewrite nth_firstn. apply Nat.ltb_lt in Hj. rewrite Hj.
  rewrite nth_skipn. reflexivity.
Qed.

Lemma torch_cat1_shape {b c0 c1 t x0 x1} :
  shape3 b c0 t x0 -> shape3 b c1 t x1 ->
  shape3 b (c0 + c1) t (torch_cat1 x0 x1).
Proof.
  intros H0 H1. unfold torch_cat1. apply shape3_intro.
  { rewrite map2_length, (proj1 H0), (proj1 H1). lia. }
  intros i Hi. pose proof (shape3_nth H0 Hi) as H0i.
  pose proof (shape3_nth H1 Hi) as H1i.
  rewrite (map2_nth _ x0 x1 i [] [] [])
    by (rewrite ?(proj1 H0), ?(proj1 H1); exact Hi).
  split; [rewrite length_app, (proj1 H0i), (proj1 H1i); reflexivity|].
  apply Forall_app. split; [apply H0i | apply H1i].
Qed.

Lemma torch_cat1_get {b c0 c1 t x0 x1} i j k :
  shape3 b c0 t x0 -> shape3 b c1 t x1 -> (i < b)%nat ->
  get3 (torch_cat1 x0 x1) i j k
  = if (j <? c0)%nat then get3 x0 i j k else get3 x1 i (j - c0) k.
Proof.
  intros H0 H1 Hi. unfold torch_cat1, get3, get2.
  pose proof (shape3_nth H0 Hi) as H0i.
  rewrite (map2_nth _ x0 x1 i [] [] [])
    by (rewrite ?(proj1 H0), ?(proj1 H1); exact Hi).
  destruct (Nat.ltb_spec j c0) as [Hj|Hj].
  - rewrite app_nth1 by (rewrite (proj1 H0i); exact Hj). reflexivity.
  - rewrite app_nth2 by (rewrite (proj1 H0i); exact Hj).
    rewrite (proj1 H0i). reflexivity.
Qed.

Lemma transform_shape {b c t x} uw uh ud inverse tail_bound :
  shape3 b c t x ->
  shape3 b c t (fst (piecewise_rational_quadratic_transform
                       x uw uh ud inverse tail_bound))
  /\ shape3 b c t (snd (piecewise_rational_quadratic_transform
                          x uw uh ud inverse tail_bound)).
Proof.
  intros Hx. unfold piecewise_rational_quadratic_transform. cbn [fst snd].
  split.
  - apply (imap3_shape (fun i j k v =>
      fst (spline v (get4 uw i j k) (get4 uh i j k) (get4 ud i j k)
                  inverse tail_bound)) Hx).
  - apply (imap3_shape (fun i j k v =>
      snd (spline v (get4 uw i j k) (get4 uh i j k) (get4 ud i j k)
                  inverse tail_bound)) Hx).
Qed.

Lemma transform_get {b c t x} uw uh ud inverse tail_bound i j k :
  shape3 b c t x -> (i < b)%nat -> (j < c)%nat -> (k < t)%nat ->
  get3 (fst (piecewise_rational_quadratic_transform
               x uw uh ud inverse tail_bound)) i j k
  = fst (spline (get3 x i j k) (get4 uw i j k) (get4 uh i j k)
                (get4 ud i j k) inverse tail_bound).
Proof.
  intros Hx Hi Hj Hk. unfold piecewise_rational_quadratic_transform.
  cbn [fst snd].
  apply (imap3_get (fun i j k v =>
      fst (spline v (get4 uw i j k) (get4 uh i j k) (get4 ud i j k)
                  inverse tail_bound)) i j k Hx Hi Hj Hk).
Qed.

(** What [ConvFlow.forward] returns once the split has passed. *)
Lemma ConvFlow_forward_unfold self {x} x_mask g reverse {b t} :
  shape3 b (cf_half_channels self + cf_half_channels self) t x ->
  let n := cf_half_channels self in
  let x0 := map (firstn n) x in
  let x1 := map (fun xb => firstn n (skipn n xb)) x in
  let params := ConvFlow_spline_params self x0 x_mask g in
  let tr := piecewise_rational_quadratic_transform
              x1 (fst (fst params)) (snd (fst params)) (snd params)
              reverse (cf_tail_bound self) in
  let y := tmul (torch_cat1 x0 (fst tr)) x_mask in
  ConvFlow_forward self x x_mask g reverse
  = Ok (if reverse then Reverse y
        else Forward y (torch_sum12 (tmul (snd tr) x_mask))).
Proof.
  intros Hx n x0 x1 params tr y. unfold ConvFlow_forward.
  rewrite (torch_split1_even _ Hx). fold n x0 x1 params.
  subst y tr. destruct params as [[uw uh] ud]. cbn [fst snd].
  destruct (piecewise_rational_quadratic_transform x1 uw uh ud reverse
              (cf_tail_bound self)) as [y1 logabsdet].
  cbn [fst snd]. destruct reverse; reflexivity.
Qed.

(** The entries of the tensor that [ConvFlow.forward] returns: the first
    half of the channels is the input times the mask, the second half the
    spline of the input under the parameters predicted from the first half,
    times the mask. *)
Lemma ConvFlow_forward_entries self {x x_mask} g reverse {b t} :
  let n := cf_half_channels self in
  let params := ConvFlow_spline_params self (map (firstn n) x) x_mask g in
  shape3 b (n + n) t x -> shape3 b 1 t x_mask ->
  exists y logdet,
    ConvFlow_forward self x x_mask g reverse
    = Ok (if reverse then Reverse y else Forward y logdet)
    /\ shape3 b (n + n) t y
    /\ (forall i j k, (i < b)%nat -> (j < n)%nat -> (k < t)%nat ->
          get3 y i j k = get3 x i j k * get3 x_mask i 0 k)
    /\ (forall i j k, (i < b)%nat -> (j < n)%nat -> (k < t)%nat ->
          get3 y i (n + j) k
          = fst (spline (get3 x i (n + j) k)
                        (get4 (fst (fst params)) i j k)
                        (get4 (snd (fst params)) i j k)
                        (get4 (snd params) i j k)
                        reverse (cf_tail_bound self))
            * get3 x_mask i 0 k).
Proof.
  intros n params Hx Hm.
  pose proof (ConvFlow_forward_unfold self x_mask g reverse Hx) as E.
  cbv zeta in E. fold n in E. fold params in E.
  eexists; eexists. split; [exact E|].
  pose proof (split_first_shape n Hx) as H0.
  pose proof (split_second_shape n Hx) as H1.
  destruct (transform_shape (fst (fst params)) (snd (fst params)) (snd params)
              reverse (cf_tail_bound self) H1) as [Hy1 _].
  pose proof (torch_cat1_shape H0 Hy1) as Hc.
  split; [apply (tmul_mask_shape Hc Hm)|]. split.
  - intros i j k Hi Hj Hk.
    rewrite (@tmul_mask_get b (n + n) t) by (assumption || lia).
    rewrite (torch_cat1_get i j k H0 Hy1 Hi).
    apply Nat.ltb_lt in Hj as Hj'. rewrite Hj'.
    rewrite (split_first_get n i j k Hx Hi Hj). reflexivity.
  - intros i j k Hi Hj Hk.
    rewrite (@tmul_mask_get b (n + n) t) by (assumption || lia).
    rewrite (torch_cat1_get i (n + j) k H0 Hy1 Hi).
    replace (n + j <? n)%nat with false by (symmetry; apply Nat.ltb_ge; lia).
    replace (n + j - n)%nat with j by lia.
    rewrite (transform_get _ _ _ reverse _ i j k H1 Hi Hj Hk).
    rewrite (split_second_get n i j k Hx Hi Hj). reflexivity.
Qed.

Lemma tensor_of_if (reverse : bool) y logdet :
  tensor_of (if reverse then Reverse y else Forward y logdet) = y.
Proof. destruct reverse; reflexivity. Qed.

(** The first half of the channels as a tensor. *)
Lemma ConvFlow_forward_first_half self {x x_mask} g reverse {b t} :
  let n := cf_half_channels self in
  shape3 b (n + n) t x -> shape3 b 1 t x_mask ->
  exists out,
    ConvFlow_forward self x x_mask g reverse = Ok out
    /\ shape3 b (n + n) t (tensor_of out)
    /\ map (firstn n) (tensor_of out) = tmul (map (firstn n) x) x_mask
    /\ forall i j k, (i < b)%nat -> (j < n)%nat -> (k < t)%nat ->
         get3 (tensor_of out) i j k = get3 x i j k * get3 x_mask i 0 k.
Proof.
  intros n Hx Hm.
  destruct (ConvFlow_forward_entries self g reverse Hx Hm)
    as (y & logdet & E & Hs & Hg & _).
  fold n in Hs, Hg. eexists. split; [exact E|]. rewrite tensor_of_if.
  split; [exact Hs|]. split; [|exact Hg].
  apply (@shape3_ext b n t).
  - apply (split_first_shape n Hs).
  - apply (tmul_mask_shape (split_first_shape n Hx) Hm).
  - intros i j k Hi Hj Hk.
    rewrite (split_first_get n i j k Hs Hi Hj).
    rewrite (@tmul_mask_get b n t)
      by (assumption || apply (split_first_shape n Hx)).
    rewrite (split_first_get n i j k Hx Hi Hj). apply Hg; assumption.
Qed.

(** C2, as the code has it: in both modes the first half of the channels
    of the output of [ConvFlow] is the first half of the channels of the
    input multiplied by the mask: the input entry where the mask is 1 and 0
    where the mask is 0. *)
Theorem ConvFlow_x0_passes_through_masked (self : ConvFlow) (b t : nat)
    (x x_mask : Tensor3) (g : option Tensor3) (reverse : bool) :
  let n := cf_half_channels self in
  shape3 b (n + n) t x -> shape3 b 1 t x_mask ->
  exists out,
    ConvFlow_forward self x x_mask g reverse = Ok out
    /\ map (firstn n) (tensor_of out) = tmul (map (firstn n) x) x_mask
    /\ forall i j k, (i < b)%nat -> (j < n)%nat -> (k < t)%nat ->
         get3 (tensor_of out) i j k = get3 x i j k * get3 x_mask i 0 k
         /\ (get3 x_mask i 0 k = 1 -> get3 (tensor_of out) i j k = get3 x i j k)
         /\ (get3 x_mask i 0 k = 0 -> get3 (tensor_of out) i j k = 0).
Proof.
  intros n Hx Hm.
  destruct (ConvFlow_forward_first_half self g reverse Hx Hm)
    as (out & E & Hs & Hh & Hg).
  exists out. split; [exact E|]. split; [exact Hh|].
  intros i j k Hi Hj Hk. rewrite (Hg i j k Hi Hj Hk).
  split; [reflexivity|]. split; intros ->; ring.
Qed.

(** *** The projection with zero weight and zero bias *)

Lemma zeros3_entry a b c o ci j :
  nth j (nth ci (nth o (zeros3 a b c) []) []) 0 = 0.
Proof.
  unfold zeros3.
  assert (E0 : forall n, nth n (@nil R) 0 = 0) by (intros []; reflexivity).
  assert (E1 : forall n, nth n (@nil (list R)) [] = []) by (intros []; reflexivity).
  destruct (Nat.lt_ge_cases o a) as [Ho|Ho].
  - rewrite (nth_repeat_lt (repeat (repeat 0 c) b) [] Ho).
    destruct (Nat.lt_ge_cases ci b) as [Hc|Hc].
    + rewrite (nth_repeat_lt (repeat 0 c) [] Hc). apply nth_repeat.
    + rewrite (nth_overflow (repeat (repeat 0 c) b) [])
        by (rewrite repeat_length; exact Hc).
      apply E0.
  - rewrite (nth_overflow (repeat (repeat (repeat 0 c) b) a) [])
      by (rewrite repeat_length; exact Ho).
    rewrite E1. apply E0.
Qed.

Lemma Rsum_map_zero {A} (f : A -> R) l :
  (forall a, In a l -> f a = 0) -> Rsum (map f l) = 0.
Proof.
  induction l as [|a l IH]; intros H; simpl; [reflexivity|].
  rewrite (H a) by (left; reflexivity).
  rewrite IH by (intros a' Ha'; apply H; right; exact Ha'). lra.
Qed.

Lemma Conv1d_forward_zero cv a b c n x :
  conv_weight cv = zeros3 a b c -> conv_bias cv = torch_zeros n ->
  all3 (fun v => v = 0) (Conv1d_forward cv x).
Proof.
  intros Hw Hb. unfold all3, Conv1d_forward.
  apply Forall_map, Forall_forall. intros xb _.
  apply Forall_map, Forall_forall. intros o _.
  apply Forall_map, Forall_forall. intros k _.
  rewrite Hb, Hw. unfold torch_zeros. rewrite nth_repeat.
  rewrite Rsum_map_zero; [lra|]. intros ci _.
  apply Rsum_map_zero. intros j _. rewrite zeros3_entry. ring.
Qed.

Lemma map2_Forall_l {A B C} (f : A -> B -> C) (P : A -> Prop) (Q : C -> Prop)
    xs ys :
  (forall x y, P x -> Q (f x y)) -> Forall P xs -> Forall Q (map2 f xs ys).
Proof.
  intros H Hxs. revert ys. induction Hxs as [|x xs Hx _ IH]; intros [|y ys];
    simpl; constructor; auto.
Qed.

Lemma broadcast_Forall_l {A B C} (f : A -> B -> C) (P : A -> Prop)
    (Q : C -> Prop) xs ys :
  (forall x y, P x -> Q (f x y)) -> Forall P xs ->
  Forall Q (broadcast f xs ys).
Proof.
  intros H Hxs. unfold broadcast.
  destruct xs as [|x [|x' xs]].
  - destruct ys as [|y [|y' ys]]; constructor.
  - apply Forall_inv in Hxs. apply Forall_map, Forall_forall. auto.
  - destruct ys as [|y [|y' ys]].
    + constructor.
    + apply Forall_map. eapply Forall_impl; [|exact Hxs]. auto.
    + apply map2_Forall_l with (P := P); assumption.
Qed.

Lemma tmul_zero_l x m : all3 (fun v => v = 0) x -> all3 (fun v => v = 0) (tmul x m).
Proof.
  unfold all3, tmul, bop3.
  apply broadcast_Forall_l. intros xb mb.
  apply broadcast_Forall_l. intros r mr.
  apply broadcast_Forall_l. intros v w ->. ring.
Qed.

Lemma In_firstn {A} (a : A) n l : In a (firstn n l) -> In a l.
Proof.
  intros H. rewrite <- (firstn_skipn n l). apply in_or_app. left. exact H.
Qed.

Lemma In_skipn {A} (a : A) n l : In a (skipn n l) -> In a l.
Proof.
  intros H. rewrite <- (firstn_skipn n l). apply in_or_app. right. exact H.
Qed.

Lemma Forall_firstn_skipn {A} (P : A -> Prop) n k l :
  Forall P l -> Forall P (firstn n (skipn k l)).
Proof.
  intros H. rewrite Forall_forall in *. intros a Ha.
  apply H. apply (In_skipn a k l), (In_firstn a n _), Ha.
Qed.

Lemma reshape_zero h c :
  all3 (fun v => v = 0) h -> all4 (fun v => v = 0) (reshape_b_c_m1_t h c).
Proof.
  intros H. unfold all4, all3, reshape_b_c_m1_t in *.
  apply Forall_map. eapply Forall_impl; [|exact H]. intros hb Hhb.
  apply Forall_map, Forall_forall. intros i _.
  apply Forall_firstn_skipn, Hhb.
Qed.

Lemma transpose_zero m :
  Forall (Forall (fun v => v = 0)) m ->
  Forall (Forall (fun v => v = 0)) (transpose m).
Proof.
  intros H. unfold transpose.
  apply Forall_map, Forall_forall. intros k _.
  apply Forall_map. eapply Forall_impl; [|exact H]. intros row Hrow.
  destruct (Nat.lt_ge_cases k (length row)) as [Hk|Hk].
  - rewrite Forall_forall in Hrow. apply Hrow, nth_In, Hk.
  - apply nth_overflow, Hk.
Qed.

Lemma permute_zero h :
  all4 (fun v => v = 0) h -> all4 (fun v => v = 0) (permute_0132 h).
Proof.
  intros H. unfold all4, all3, permute_0132 in *.
  apply Forall_map. eapply Forall_impl; [|exact H]. intros hb Hhb.
  apply Forall_map. eapply Forall_impl; [|exact Hhb]. intros m.
  apply transpose_zero.
Qed.

Lemma slice_last_zero f lo hi h :
  f 0 = 0 ->
  all4 (fun v => v = 0) h -> all4 (fun v => v = 0) (slice_last f lo hi h).
Proof.
  intros Hf H. unfold all4, all3, slice_last in *.
  apply Forall_map. eapply Forall_impl; [|exact H]. intros hb Hhb.
  apply Forall_map. eapply Forall_impl; [|exact Hhb]. intros m Hm.
  apply Forall_map. eapply Forall_impl; [|exact Hm]. intros v Hv.
  apply Forall_map.
  assert (Hs : Forall (fun a => a = 0)
                 (skipn lo match hi with Some n => firstn n v | None => v end)).
  { rewrite Forall_forall in *. intros a Ha. apply Hv.
    apply In_skipn in Ha. destruct hi; [apply In_firstn in Ha|]; exact Ha. }
  eapply Forall_impl; [|exact Hs]. intros a ->. exact Hf.
Qed.

(** ** Reverse mode after forward mode *)

Lemma tmul_mask_idem {b c t x m} :
  shape3 b c t x -> shape3 b 1 t m -> is_mask m ->
  tmul (tmul x m) m = tmul x m.
Proof.
  intros Hx Hm Hv. pose proof (tmul_mask_shape Hx Hm) as Hxm.
  apply (@shape3_ext b c t); [apply (tmul_mask_shape Hxm Hm) | exact Hxm |].
  intros i j k Hi Hj Hk.
  rewrite (@tmul_mask_get b c t) by assumption.
  rewrite (@tmul_mask_get b c t) by assumption.
  destruct (is_mask_get Hv Hm Hi Hk) as [-> | ->]; ring.
Qed.

Lemma Log_reverse_shape {b c t y x_mask} :
  shape3 b c t y -> shape3 b 1 t x_mask ->
  shape3 b c t (tensor_of (Log_forward y x_mask true)).
Proof.
  intros Hy Hm. simpl. apply tmul_mask_shape; [|exact Hm].
  apply map3_shape, Hy.
Qed.

Lemma Log_reverse_get {b c t y x_mask} i j k :
  shape3 b c t y -> shape3 b 1 t x_mask ->
  (i < b)%nat -> (j < c)%nat -> (k < t)%nat ->
  get3 (tensor_of (Log_forward y x_mask true)) i j k
  = exp (get3 y i j k) * get3 x_mask i 0 k.
Proof.
  intros Hy Hm Hi Hj Hk. simpl.
  rewrite (@tmul_mask_get b c t) by (assumption || apply map3_shape, Hy).
  unfold torch_exp. rewrite (@map3_get _ b c t) by assumption. reflexivity.
Qed.

Lemma Log_roundtrip {b c t x x_mask} :
  shape3 b c t x -> shape3 b 1 t x_mask -> is_mask x_mask ->
  (forall i j k, (i < b)%nat -> (j < c)%nat -> (k < t)%nat ->
                 get3 x_mask i 0 k = 1 -> 1e-5 <= get3 x i j k) ->
  tensor_of (Log_forward (tensor_of (Log_forward x x_mask false)) x_mask true)
  = tmul x x_mask.
Proof.
  intros Hx Hm Hv Hpos.
  pose proof (@Log_forward_shape b c t x x_mask Hx Hm) as Hy.
  apply (@shape3_ext b c t);
    [apply (Log_reverse_shape Hy Hm) | apply (tmul_mask_shape Hx Hm) |].
  intros i j k Hi Hj Hk.
  rewrite (Log_reverse_get i j k Hy Hm Hi Hj Hk).
  rewrite (@Log_forward_get b c t) by assumption.
  rewrite (@tmul_mask_get b c t) by assumption.
  destruct (is_mask_get Hv Hm Hi Hk) as [E | E]; rewrite E.
  - ring.
  - specialize (Hpos i j k Hi Hj Hk E).
    rewrite Rmax_left by exact Hpos.
    rewrite !Rmult_1_r. apply exp_ln. lra.
Qed.

Lemma ElementwiseAffine_roundtrip {self b c t x x_mask} :
  shape2 c 1 (ea_m self) -> shape2 c 1 (ea_logs self) ->
  shape3 b c t x -> shape3 b 1 t x_mask -> is_mask x_mask ->
  tensor_of (ElementwiseAffine_forward self
               (tensor_of (ElementwiseAffine_forward self x x_mask false))
               x_mask true)
  = tmul x x_mask.
Proof.
  intros Hm Hlogs Hx Hmask Hv.
  pose proof (ElementwiseAffine_forward_shape Hm Hlogs Hx Hmask) as Hy.
  apply (@shape3_ext b c t);
    [apply (ElementwiseAffine_reverse_shape Hm Hlogs Hy Hmask)
    | apply (tmul_mask_shape Hx Hmask) |].
  intros i j k Hi Hj Hk.
  rewrite (ElementwiseAffine_reverse_get Hm Hlogs Hy Hmask i j k Hi Hj Hk).
  rewrite (ElementwiseAffine_forward_get Hm Hlogs Hx Hmask i j k Hi Hj Hk).
  rewrite (@tmul_mask_get b c t) by assumption.
  destruct (is_mask_get Hv Hmask Hi Hk) as [E | E]; rewrite E; [ring|].
  rewrite exp_Ropp.
  pose proof (exp_pos (get2 (ea_logs self) j 0)) as Hp.
  field. lra.
Qed.

(** *** Pointwise convolutions and the mask *)

Lemma ConvFlow_init_inv in_channels filter_channels kernel_size n_layers
    num_bins tail_bound w_pre w_sep w_1x1 :
  ConvFlow_inv (ConvFlow_init in_channels filter_channels kernel_size n_layers
                              num_bins tail_bound w_pre w_sep w_1x1).
Proof. repeat split. Qed.

Lemma pointwise_out_length {cv} l : pointwise cv -> conv_out_length cv l = l.
Proof.
  intros (Hk & Hs & Hp & Hd). unfold conv_out_length.
  rewrite Hk, Hs, Hp, Hd. cbn [Nat.sub Nat.mul Nat.add].
  rewrite Nat.add_0_r.
  destruct l as [|l]; [reflexivity|].
  replace (S l <? 1)%nat with false by (symmetry; apply Nat.ltb_ge; lia).
  rewrite Nat.div_1_r. lia.
Qed.

Lemma shape2_size1 {c t xb} : shape2 c t xb -> (0 < c)%nat -> size1 xb = t.
Proof.
  intros [Lx Hx] Hc. unfold size1. destruct xb as [|r xb]; [simpl in Lx; lia|].
  apply Forall_inv in Hx. exact Hx.
Qed.

Lemma get3_channel_overflow {b c t x} i j k :
  shape3 b c t x -> (i < b)%nat -> (c <= j)%nat -> get3 x i j k = 0.
Proof.
  intros Hx Hi Hj. pose proof (shape3_nth Hx Hi) as [Lxi _].
  unfold get3, get2. rewrite (nth_overflow (nth i x [])) by lia.
  destruct k; reflexivity.
Qed.

Lemma conv_pointwise_shape {cv b c t x} :
  pointwise cv -> (0 < c)%nat -> shape3 b c t x ->
  shape3 b (conv_out_channels cv) t (Conv1d_forward cv x).
Proof.
  intros Hcv Hc Hx. unfold Conv1d_forward.
  apply shape3_intro; [rewrite length_map; apply Hx|].
  intros i Hi. pose proof (shape3_nth Hx Hi) as Hxi.
  rewrite (map_nth_in _ x i []) by (rewrite (proj1 Hx); exact Hi).
  apply shape2_intro; [rewrite length_map, length_seq; reflexivity|].
  intros o Ho.
  rewrite (map_nth_in _ _ o 0%nat) by (rewrite length_seq; exact Ho).
  rewrite length_map, length_seq.
  rewrite (pointwise_out_length _ Hcv). apply (shape2_size1 Hxi Hc).
Qed.

Lemma conv_pointwise_get {cv b c t x} i o k :
  pointwise cv -> (0 < c)%nat -> shape3 b c t x ->
  (i < b)%nat -> (o < conv_out_channels cv)%nat -> (k < t)%nat ->
  get3 (Conv1d_forward cv x) i o k
  = pointwise_entry cv o (fun ch => get3 x i ch k).
Proof.
  intros Hcv Hc Hx Hi Ho Hk. pose proof (shape3_nth Hx Hi) as Hxi.
  unfold Conv1d_forward, get3 at 1, get2 at 1.
  rewrite (map_nth_in _ x i []) by (rewrite (proj1 Hx); exact Hi).
  rewrite (map_nth_in _ _ o 0%nat) by (rewrite length_seq; exact Ho).
  rewrite (pointwise_out_length _ Hcv), (shape2_size1 Hxi Hc).
  rewrite (map_nth_in _ _ k 0%nat) by (rewrite length_seq; exact Hk).
  rewrite !seq_nth by assumption. cbn [Nat.add].
  destruct Hcv as (Ek & Es & Ep & Ed). rewrite Ek, Es, Ep, Ed.
  unfold pointwise_entry. f_equal. f_equal.
  apply map_ext. intros ci. f_equal.
  apply map_ext_in. intros j Hj. apply in_seq in Hj.
  assert (j = 0%nat) by lia. subst j. f_equal.
  unfold pad, get3, get2. cbn [repeat app].
  rewrite app_nil_r. f_equal. lia.
Qed.

Lemma pointwise_entry_ext cv o col col' :
  (forall ch, col ch = col' ch) ->
  pointwise_entry cv o col = pointwise_entry cv o col'.
Proof.
  intros H. unfold pointwise_entry. f_equal. f_equal.
  apply map_ext. intros ci. f_equal. apply map_ext. intros j.
  rewrite H. reflexivity.
Qed.

Lemma agree_valid_conv {cv b c t m x x'} :
  pointwise cv -> (0 < c)%nat -> agree_valid b c t m x x' ->
  agree_valid b (conv_out_channels cv) t m
              (Conv1d_forward cv x) (Conv1d_forward cv x').
Proof.
  intros Hcv Hc (Hx & Hx' & Ha).
  split; [apply (conv_pointwise_shape Hcv Hc Hx)|].
  split; [apply (conv_pointwise_shape Hcv Hc Hx')|].
  intros i o k Hi Ho Hk Hm.
  rewrite (conv_pointwise_get i o k Hcv Hc Hx Hi Ho Hk).
  rewrite (conv_pointwise_get i o k Hcv Hc Hx' Hi Ho Hk).
  apply pointwise_entry_ext. intros ch.
  destruct (Nat.lt_ge_cases ch c) as [Hch|Hch].
  - apply Ha; assumption.
  - rewrite (get3_channel_overflow i ch k Hx Hi Hch).
    rewrite (get3_channel_overflow i ch k Hx' Hi Hch). reflexivity.
Qed.

Lemma agree_valid_tmul {b c t m x x'} :
  shape3 b 1 t m -> is_mask m -> agree_valid b c t m x x' ->
  tmul x m = tmul x' m.
Proof.
  intros Hm Hv (Hx & Hx' & Ha).
  apply (@shape3_ext b c t);
    [apply (tmul_mask_shape Hx Hm) | apply (tmul_mask_shape Hx' Hm) |].
  intros i j k Hi Hj Hk.
  rewrite (@tmul_mask_get b c t) by assumption.
  rewrite (@tmul_mask_get b c t) by assumption.
  destruct (is_mask_get Hv Hm Hi Hk) as [E | E].
  - rewrite E. ring.
  - rewrite (Ha i j k Hi Hj Hk E). reflexivity.
Qed.

Lemma agree_valid_masked {b c t m x} :
  shape3 b c t x -> shape3 b 1 t m -> agree_valid b c t m (tmul x m) x.
Proof.
  intros Hx Hm. split; [apply (tmul_mask_shape Hx Hm)|]. split; [exact Hx|].
  intros i j k Hi Hj Hk E.
  rewrite (@tmul_mask_get b c t) by assumption. rewrite E. ring.
Qed.

Lemma agree_valid_zero_channels {b t m x x'} :
  agree_valid b 0 t m x x' -> x = x'.
Proof.
  intros (Hx & Hx' & _). apply (@shape3_ext b 0 t); try assumption.
  intros i j k _ Hj. lia.
Qed.

(** *** The spline parameters do not see the padded steps of [x0] *)

Lemma size1_shape3 {b c t x x'} :
  shape3 b c t x -> shape3 b c t x' -> size1 x = size1 x'.
Proof.
  intros [Lx Hx] [Lx' Hx']. unfold size1.
  destruct x as [|xb x]; destruct x' as [|xb' x']; simpl in *; try lia.
  apply Forall_inv in Hx, Hx'. destruct Hx as [-> _], Hx' as [-> _].
  reflexivity.
Qed.

Lemma ConvFlow_spline_params_masked {self b n t x0 m} :
  ConvFlow_inv self -> (0 < n)%nat ->
  shape3 b n t x0 -> shape3 b 1 t m -> is_mask m ->
  ConvFlow_spline_params self (tmul x0 m) m None
  = ConvFlow_spline_params self x0 m None.
Proof.
  intros [Hpre Hproj] Hn Hx0 Hm Hv.
  pose proof (agree_valid_conv Hpre Hn (agree_valid_masked Hx0 Hm)) as Ha.
  set (a' := Conv1d_forward (cf_pre self) (tmul x0 m)) in *.
  set (a := Conv1d_forward (cf_pre self) x0) in *.
  assert (Eh : tmul (Conv1d_forward (cf_proj self)
                       (DDSConv_forward (cf_convs self) a' (Some m) None)) m
               = tmul (Conv1d_forward (cf_proj self)
                         (DDSConv_forward (cf_convs self) a (Some m) None)) m).
  { unfold DDSConv_forward.
    destruct (dds_n_layers (cf_convs self)) as [|nl].
    - cbn [seq fold_left].
      destruct (conv_out_channels (cf_pre self)) as [|fc] eqn:Efc.
      + rewrite (agree_valid_zero_channels Ha). reflexivity.
      + apply (agree_valid_tmul Hm Hv
                 (agree_valid_conv Hproj (Nat.lt_0_succ fc) Ha)).
    - cbn [seq fold_left].
      replace (DDSConv_layer (cf_convs self) (Some m) a' 0)
        with (DDSConv_layer (cf_convs self) (Some m) a 0); [reflexivity|].
      unfold DDSConv_layer. cbn [masked].
      rewrite (agree_valid_tmul Hm Hv Ha). reflexivity. }
  unfold ConvFlow_spline_params. cbv zeta. fold a a'.
  rewrite Eh, (size1_shape3 (tmul_mask_shape Hx0 Hm) Hx0). reflexivity.
Qed.

Section Roundtrip.

(** The contract of the spline kernel: under the same parameters the
    inverse mode undoes the forward mode. *)
Hypothesis spline_inverse :
  forall v uw uh ud tail_bound,
    fst (spline (fst (spline v uw uh ud false tail_bound))
                uw uh ud true tail_bound) = v.

Lemma ConvFlow_roundtrip {self b t x x_mask} :
  let n := cf_half_channels self in
  ConvFlow_inv self ->
  shape3 b (n + n) t x -> shape3 b 1 t x_mask -> is_mask x_mask ->
  exists y logdet,
    ConvFlow_forward self x x_mask None false = Ok (Forward y logdet)
    /\ ConvFlow_forward self y x_mask None true = Ok (Reverse (tmul x x_mask)).
Proof.
  intros n Hinv Hx Hm Hv.
  destruct (ConvFlow_forward_entries self None false Hx Hm)
    as (y & logdet & E1 & Hy & Hy0 & Hy1).
  fold n in Hy, Hy0, Hy1.
  destruct (ConvFlow_forward_entries self None true Hy Hm)
    as (z & _ & E2 & Hz & Hz0 & Hz1).
  fold n in Hz, Hz0, Hz1.
  exists y, logdet. split; [exact E1|]. rewrite E2. do 2 f_equal.
  assert (Ey0 : map (firstn n) y = tmul (map (firstn n) x) x_mask).
  { apply (@shape3_ext b n t).
    - apply (split_first_shape n Hy).
    - apply (tmul_mask_shape (split_first_shape n Hx) Hm).
    - intros i j k Hi Hj Hk.
      rewrite (split_first_get n i j k Hy Hi Hj).
      rewrite (@tmul_mask_get b n t)
        by (assumption || apply (split_first_shape n Hx)).
      rewrite (split_first_get n i j k Hx Hi Hj). apply Hy0; assumption. }
  apply (@shape3_ext b (n + n) t); [exact Hz | apply (tmul_mask_shape Hx Hm) |].
  intros i j k Hi Hj Hk.
  rewrite (@tmul_mask_get b (n + n) t) by assumption.
  destruct (Nat.lt_ge_cases j n) as [Hjn|Hjn].
  - rewrite (Hz0 i j k Hi Hjn Hk), (Hy0 i j k Hi Hjn Hk).
    destruct (is_mask_get Hv Hm Hi Hk) as [-> | ->]; ring.
  - replace j with (n + (j - n))%nat by lia.
    assert (Hj' : (j - n < n)%nat) by lia.
    rewrite (Hz1 i (j - n)%nat k Hi Hj' Hk), (Hy1 i (j - n)%nat k Hi Hj' Hk).
    destruct (is_mask_get Hv Hm Hi Hk) as [E | E]; rewrite E; [ring|].
    rewrite !Rmult_1_r. rewrite Ey0.
    rewrite (ConvFlow_spline_params_masked Hinv (Nat.le_lt_trans _ _ _ (Nat.le_0_l _) Hj')
               (split_first_shape n Hx) Hm Hv).
    apply spline_inverse.
Qed.

(** C1, as the code has it: for each of [Log], [ElementwiseAffine], [Flip]
    and [ConvFlow], every input of shape [(b, c, t)] and every mask of zeros
    and ones of shape [(b, 1, t)], the reverse mode applied to the output of
    the forward mode returns, in exact arithmetic, the input times the mask
    ([Flip]: the input itself): the input entry wherever the mask is 1, and
    0 wherever it is 0.  For [Log] the input is at least 1e-5 wherever the
    mask is 1; for [ConvFlow] the inverse mode of the spline kernel undoes
    its forward mode and no conditioning is passed. *)
Theorem Flow_reverse_of_forward (flow : Flow) (b c t : nat)
    (x x_mask : Tensor3) :
  shape3 b c t x -> shape3 b 1 t x_mask -> is_mask x_mask ->
  Flow_ready flow c ->
  (flow = FlowLog ->
   forall i j k, (i < b)%nat -> (j < c)%nat -> (k < t)%nat ->
                 get3 x_mask i 0 k = 1 -> 1e-5 <= get3 x i j k) ->
  exists y logdet x',
    Flow_forward flow x x_mask false = Ok (Forward y logdet)
    /\ Flow_forward flow y x_mask true = Ok (Reverse x')
    /\ x' = match flow with
            | FlowFlip => x
            | _ => tmul x x_mask
            end
    /\ forall i j k, (i < b)%nat -> (j < c)%nat -> (k < t)%nat ->
         get3 x_mask i 0 k = 1 ->
         get3 x' i j k = get3 x i j k /\ close (get3 x' i j k) (get3 x i j k).
Proof.
  intros Hx Hm Hv Hready Hlog.
  assert (Hclose : forall u v, u = v -> u = v /\ close u v).
  { intros u v ->. split; [reflexivity|]. unfold close.
    replace (v - v) with 0 by ring. rewrite Rabs_R0. lra. }
  assert (Hvalid : forall i j k, (i < b)%nat -> (j < c)%nat -> (k < t)%nat ->
            get3 x_mask i 0 k = 1 ->
            get3 (tmul x x_mask) i j k = get3 x i j k).
  { intros i j k Hi Hj Hk E.
    rewrite (@tmul_mask_get b c t) by assumption. rewrite E. ring. }
  destruct flow as [|self| |self]; cbn [Flow_forward Flow_ready] in *.
  - (* Log *)
    eexists; eexists; eexists. split; [reflexivity|].
    split; [reflexivity|]. split.
    + apply (Log_roundtrip Hx Hm Hv (Hlog eq_refl)).
    + intros i j k Hi Hj Hk E. apply Hclose.
      change (get3 (tensor_of (Log_forward (tensor_of (Log_forward x x_mask false))
                                           x_mask true)) i j k = get3 x i j k).
      rewrite (Log_roundtrip Hx Hm Hv (Hlog eq_refl)). apply Hvalid; assumption.
  - (* ElementwiseAffine *)
    destruct Hready as [<- [Hpm Hpl]].
    eexists; eexists; eexists. split; [reflexivity|].
    split; [reflexivity|]. split.
    + apply (ElementwiseAffine_roundtrip Hpm Hpl Hx Hm Hv).
    + intros i j k Hi Hj Hk E. apply Hclose.
      change (get3 (tensor_of (ElementwiseAffine_forward self
                (tensor_of (ElementwiseAffine_forward self x x_mask false))
                x_mask true)) i j k = get3 x i j k).
      rewrite (ElementwiseAffine_roundtrip Hpm Hpl Hx Hm Hv).
      apply Hvalid; assumption.
  - (* Flip *)
    assert (E : torch_flip1 (torch_flip1 x) = x).
    { unfold torch_flip1. rewrite map_map. rewrite <- (map_id x) at 2.
      apply map_ext. intros xb. apply rev_involutive. }
    exists (torch_flip1 x), (torch_zeros (length (torch_flip1 x))), x.
    split; [reflexivity|]. split.
    + unfold Flip_forward. cbn [negb]. rewrite E. reflexivity.
    + split; [reflexivity|]. intros. apply Hclose. reflexivity.
  - (* ConvFlow *)
    destruct Hready as [-> Hinv].
    destruct (ConvFlow_roundtrip Hinv Hx Hm Hv) as (y & logdet & E1 & E2).
    exists y, logdet, (tmul x x_mask). split; [exact E1|]. split; [exact E2|].
    split; [reflexivity|]. intros i j k Hi Hj Hk E. apply Hclose.
    apply Hvalid; assumption.
Qed.

End Roundtrip.

(** * More of [modules.py] *)

(** ** [Log], both ways round *)

Lemma ln_le_mono u v : 0 < u -> u <= v -> ln u <= ln v.
Proof.
  intros Hu [Hlt | ->]; [|lra]. left. apply ln_increasing; assumption.
Qed.

Lemma exp_le_mono u v : u <= v -> exp u <= exp v.
Proof.
  intros [Hlt | ->]; [|lra]. left. apply exp_increasing; assumption.
Qed.

Lemma ln_eps_neg : ln 1e-5 < 0.
Proof. rewrite <- ln_1. apply ln_increasing; lra. Qed.

(** X1: for every input, also one with entries below the clamp, the
    reverse mode of [Log] applied to the output of its forward mode returns
    the input clamped from below at 1e-5, times the mask. *)
Theorem Log_reverse_of_forward_clamps (b c t : nat) (x x_mask : Tensor3) :
  shape3 b c t x -> shape3 b 1 t x_mask -> is_mask x_mask ->
  tensor_of (Log_forward (tensor_of (Log_forward x x_mask false)) x_mask true)
  = tmul (torch_clamp_min x 1e-5) x_mask.
Proof.
  intros Hx Hm Hv.
  pose proof (@Log_forward_shape b c t x x_mask Hx Hm) as Hy.
  assert (Hc : shape3 b c t (torch_clamp_min x 1e-5))
    by (apply map3_shape, Hx).
  apply (@shape3_ext b c t);
    [apply (Log_reverse_shape Hy Hm) | apply (tmul_mask_shape Hc Hm) |].
  intros i j k Hi Hj Hk.
  rewrite (Log_reverse_get i j k Hy Hm Hi Hj Hk).
  rewrite (@Log_forward_get b c t) by assumption.
  rewrite (@tmul_mask_get b c t) by assumption.
  unfold torch_clamp_min. rewrite (@map3_get _ b c t) by assumption.
  destruct (is_mask_get Hv Hm Hi Hk) as [E | E]; rewrite E; [ring|].
  rewrite !Rmult_1_r. apply exp_ln.
  pose proof (Rmax_r (get3 x i j k) 1e-5). lra.
Qed.

(** X2: the forward mode of [Log] applied to the output of its reverse
    mode returns the input times the mask, when the input is at least
    [ln 1e-5] wherever the mask is 1. *)
Theorem Log_forward_of_reverse (b c t : nat) (y x_mask : Tensor3) :
  shape3 b c t y -> shape3 b 1 t x_mask -> is_mask x_mask ->
  (forall i j k, (i < b)%nat -> (j < c)%nat -> (k < t)%nat ->
                 get3 x_mask i 0 k = 1 -> ln 1e-5 <= get3 y i j k) ->
  tensor_of (Log_forward (tensor_of (Log_forward y x_mask true)) x_mask false)
  = tmul y x_mask.
Proof.
  intros Hy Hm Hv Hlo.
  pose proof (Log_reverse_shape Hy Hm) as Hx.
  apply (@shape3_ext b c t);
    [apply (@Log_forward_shape b c t _ _ Hx Hm)
    | apply (tmul_mask_shape Hy Hm) |].
  intros i j k Hi Hj Hk.
  rewrite (@Log_forward_get b c t) by assumption.
  rewrite (Log_reverse_get i j k Hy Hm Hi Hj Hk).
  rewrite (@tmul_mask_get b c t) by assumption.
  destruct (is_mask_get Hv Hm Hi Hk) as [E | E]; rewrite E; [ring|].
  rewrite !Rmult_1_r.
  specialize (Hlo i j k Hi Hj Hk E).
  rewrite Rmax_left; [apply ln_exp|].
  rewrite <- (exp_ln 1e-5) by lra. apply exp_le_mono, Hlo.
Qed.

Lemma sigma_le n f M :
  (forall k, (k < n)%nat -> f k <= M) -> sigma n f <= INR n * M.
Proof.
  revert f. induction n as [|n IH]; intros f H.
  - unfold sigma. simpl. lra.
  - rewrite sigma_S, S_INR.
    pose proof (H 0%nat (Nat.lt_0_succ n)) as H0.
    pose proof (IH (fun k => f (S k)) (fun k Hk => H (S k) (proj1 (Nat.succ_lt_mono k n) Hk))).
    lra.
Qed.

Lemma sigma_opp n f : sigma n (fun k => - f k) = - sigma n f.
Proof.
  revert f. induction n as [|n IH]; intros f.
  - unfold sigma. simpl. lra.
  - rewrite !sigma_S, (IH (fun k => f (S k))). lra.
Qed.

(** X3: in forward mode the log-determinant of [Log] is, for each batch
    entry, minus the sum of the entries of the output, and under a mask of
    zeros and ones the clamp bounds it from above by [c * t * (- ln 1e-5)]. *)
Theorem Log_forward_logdet_bound (b c t : nat) (x x_mask : Tensor3) :
  shape3 b c t x -> shape3 b 1 t x_mask -> is_mask x_mask ->
  exists y logdet,
    Log_forward x x_mask false = Forward y logdet
    /\ length logdet = b
    /\ forall i, (i < b)%nat ->
         nth i logdet 0
         = - sigma c (fun j => sigma t (fun k => get3 y i j k))
         /\ nth i logdet 0 <= INR c * (INR t * - ln 1e-5).
Proof.
  intros Hx Hm Hv.
  pose proof (@Log_forward_shape b c t x x_mask Hx Hm) as Hy.
  pose proof (fun i j k => @Log_forward_get b c t x x_mask i j k Hx Hm) as Hg.
  simpl in Hy, Hg. eexists; eexists. split; [reflexivity|].
  set (y := tmul (torch_log (torch_clamp_min x 1e-5)) x_mask) in *.
  assert (Hn : shape3 b c t (torch_neg y)) by (apply map3_shape, Hy).
  split; [rewrite torch_sum12_length; apply Hn|].
  intros i Hi. rewrite (@torch_sum12_nth b c t) by assumption.
  assert (E : sigma c (fun j => sigma t (fun k => get3 (torch_neg y) i j k))
              = sigma c (fun j => sigma t (fun k => - get3 y i j k))).
  { apply sigma_ext. intros j Hj. apply sigma_ext. intros k Hk.
    unfold torch_neg. apply (@map3_get _ b c t); assumption. }
  rewrite E. split.
  - rewrite <- sigma_opp. apply sigma_ext. intros j Hj. apply sigma_opp.
  - apply sigma_le. intros j Hj. apply sigma_le. intros k Hk.
    rewrite Hg by assumption. pose proof ln_eps_neg as Hneg.
    destruct (is_mask_get Hv Hm Hi Hk) as [E0 | E1].
    + rewrite E0. lra.
    + rewrite E1, Rmult_1_r.
      pose proof (ln_le_mono 1e-5 (Rmax (get3 x i j k) 1e-5)
                    ltac:(lra) (Rmax_r _ _)).
      lra.
Qed.

(** ** [ElementwiseAffine], both ways round and as constructed *)

(** X4: the forward mode of [ElementwiseAffine] applied to the output of
    its reverse mode returns the input times the mask. *)
Theorem ElementwiseAffine_forward_of_reverse (self : ElementwiseAffine)
    (b c t : nat) (y x_mask : Tensor3) :
  shape2 c 1 (ea_m self) -> shape2 c 1 (ea_logs self) ->
  shape3 b c t y -> shape3 b 1 t x_mask -> is_mask x_mask ->
  tensor_of (ElementwiseAffine_forward self
               (tensor_of (ElementwiseAffine_forward self y x_mask true))
               x_mask false)
  = tmul y x_mask.
Proof.
  intros Hm Hlogs Hy Hmask Hv.
  pose proof (ElementwiseAffine_reverse_shape Hm Hlogs Hy Hmask) as Hx.
  apply (@shape3_ext b c t);
    [apply (ElementwiseAffine_forward_shape Hm Hlogs Hx Hmask)
    | apply (tmul_mask_shape Hy Hmask) |].
  intros i j k Hi Hj Hk.
  rewrite (ElementwiseAffine_forward_get Hm Hlogs Hx Hmask i j k Hi Hj Hk).
  rewrite (ElementwiseAffine_reverse_get Hm Hlogs Hy Hmask i j k Hi Hj Hk).
  rewrite (@tmul_mask_get b c t) by assumption.
  destruct (is_mask_get Hv Hmask Hi Hk) as [E | E]; rewrite E; [ring|].
  rewrite exp_Ropp.
  pose proof (exp_pos (get2 (ea_logs self) j 0)) as Hp.
  field. lra.
Qed.

Lemma repeat_zero_get2 c j : get2 (repeat [0] c) j 0 = 0.
Proof.
  unfold get2. destruct (Nat.lt_ge_cases j c) as [Hj|Hj].
  - rewrite (nth_repeat_lt [0] [] Hj). reflexivity.
  - rewrite (nth_overflow (repeat [0] c) []) by (rewrite repeat_length; exact Hj).
    reflexivity.
Qed.

(** X5: [ElementwiseAffine(c)] as constructed multiplies by the mask and
    nothing else: in forward mode the output is [x * mask] and every entry
    of the log-determinant is 0, in reverse mode the output is
    [x * mask]. *)
Theorem ElementwiseAffine_init_masks (b c t : nat) (x x_mask : Tensor3) :
  shape3 b c t x -> shape3 b 1 t x_mask ->
  ElementwiseAffine_forward (ElementwiseAffine_init c) x x_mask false
  = Forward (tmul x x_mask) (repeat 0 b)
  /\ ElementwiseAffine_forward (ElementwiseAffine_init c) x x_mask true
     = Reverse (tmul x x_mask).
Proof.
  intros Hx Hmask.
  destruct (ElementwiseAffine_init_inv c) as [Hm Hlogs].
  cbn [ea_channels ElementwiseAffine_init] in Hm, Hlogs.
  set (self := ElementwiseAffine_init c) in *.
  assert (E0 : tensor_of (ElementwiseAffine_forward self x x_mask false)
               = tmul x x_mask).
  { apply (@shape3_ext b c t);
      [apply (ElementwiseAffine_forward_shape Hm Hlogs Hx Hmask)
      | apply (tmul_mask_shape Hx Hmask) |].
    intros i j k Hi Hj Hk.
    rewrite (ElementwiseAffine_forward_get Hm Hlogs Hx Hmask i j k Hi Hj Hk).
    rewrite (@tmul_mask_get b c t) by assumption.
    subst self. cbn [ea_m ea_logs ElementwiseAffine_init].
    rewrite !repeat_zero_get2, exp_0. ring. }
  assert (E1 : tensor_of (ElementwiseAffine_forward self x x_mask true)
               = tmul x x_mask).
  { apply (@shape3_ext b c t);
      [apply (ElementwiseAffine_reverse_shape Hm Hlogs Hx Hmask)
      | apply (tmul_mask_shape Hx Hmask) |].
    intros i j k Hi Hj Hk.
    rewrite (ElementwiseAffine_reverse_get Hm Hlogs Hx Hmask i j k Hi Hj Hk).
    rewrite (@tmul_mask_get b c t) by assumption.
    subst self. cbn [ea_m ea_logs ElementwiseAffine_init].
    rewrite !repeat_zero_get2, Ropp_0, exp_0. ring. }
  split.
  - change (Forward
              (tensor_of (ElementwiseAffine_forward self x x_mask false))
              (torch_sum12 (tmul (unsqueeze0 (ea_logs self)) x_mask))
            = Forward (tmul x x_mask) (repeat 0 b)).
    rewrite E0. f_equal.
    pose proof (unsqueeze0_shape Hlogs) as Hl3.
    assert (Hz : shape3 b c t (tmul (unsqueeze0 (ea_logs self)) x_mask))
      by apply (bop3_param_mask_shape Rmult Hl3 Hmask).
    apply (nth_ext _ _ 0 0).
    { rewrite torch_sum12_length, repeat_length. apply Hz. }
    intros i Hi. rewrite torch_sum12_length, (proj1 Hz) in Hi.
    rewrite (@torch_sum12_nth b c t) by assumption.
    rewrite nth_repeat_lt by assumption.
    rewrite <- (sigma_zero c). apply sigma_ext. intros j Hj.
    rewrite <- (sigma_zero t). apply sigma_ext. intros k Hk.
    unfold tmul. rewrite (@bop3_param_mask_get _ b c t) by assumption.
    change (get3 (unsqueeze0 (ea_logs self)) 0 j 0)
      with (get2 (repeat [0] c) j 0).
    rewrite repeat_zero_get2. ring.
  - change (Reverse
              (tensor_of (ElementwiseAffine_forward self x x_mask true))
            = Reverse (tmul x x_mask)).
    rewrite E1. reflexivity.
Qed.

(** ** [Flip], entry by entry *)

(** X6: [Flip] keeps the shape of its input, and channel [j] of its output
    is channel [c - 1 - j] of its input, in both modes. *)
Theorem Flip_forward_entries (b c t : nat) (x : Tensor3)
    (args : list Tensor3) (reverse : bool) :
  shape3 b c t x ->
  shape3 b c t (tensor_of (Flip_forward x args reverse))
  /\ forall i j k, (i < b)%nat -> (j < c)%nat ->
       get3 (tensor_of (Flip_forward x args reverse)) i j k
       = get3 x i (c - 1 - j) k.
Proof.
  intros Hx.
  assert (E : tensor_of (Flip_forward x args reverse) = torch_flip1 x)
    by (destruct reverse; reflexivity).
  rewrite E. unfold torch_flip1. split.
  - apply shape3_intro; [rewrite length_map; apply Hx|].
    intros i Hi. pose proof (shape3_nth Hx Hi) as [Lxi Hxi].
    rewrite (map_nth_in _ x i []) by (rewrite (proj1 Hx); exact Hi).
    split; [rewrite length_rev; exact Lxi | apply Forall_rev, Hxi].
  - intros i j k Hi Hj. pose proof (shape3_nth Hx Hi) as [Lxi _].
    unfold get3, get2.
    rewrite (map_nth_in _ x i []) by (rewrite (proj1 Hx); exact Hi).
    rewrite rev_nth by (rewrite Lxi; exact Hj).
    rewrite Lxi. do 2 f_equal. lia.
Qed.

(** ** [ConvFlow]: what it returns and when it raises *)

(** X7: on an input with at least one batch entry whose number of channels
    is not twice [half_channels], [ConvFlow.forward] raises at the split,
    in both modes. *)
Theorem ConvFlow_forward_channel_mismatch_raises (self : ConvFlow)
    (b c t : nat) (x x_mask : Tensor3) (g : option Tensor3) (reverse : bool) :
  shape3 b c t x -> (0 < b)%nat ->
  c <> (cf_half_channels self + cf_half_channels self)%nat ->
  exists msg, ConvFlow_forward self x x_mask g reverse = RuntimeError msg.
Proof.
  intros [Lx Hx] Hb Hc. unfold ConvFlow_forward, torch_split1.
  destruct x as [|xb x]; [simpl in Lx; lia|].
  apply Forall_inv in Hx. destruct Hx as [Lxb _].
  cbn [forallb].
  replace (length xb =? cf_half_channels self + cf_half_channels self)%nat
    with false by (symmetry; apply Nat.eqb_neq; lia).
  eexists. reflexivity.
Qed.

(** X8: a [ConvFlow] of odd kernel size and at least one bin, on an input
    of twice [half_channels] channels and at least one time step, returns a
    tensor of the shape of its input whose entries are 0 wherever the mask
    is 0, in every channel; in forward mode it returns with it a
    log-determinant of one entry per batch entry, in reverse mode none. *)
Theorem ConvFlow_forward_shape_padding (self : ConvFlow) (b t : nat)
    (x x_mask : Tensor3) (g : option Tensor3) (reverse : bool) :
  let n := cf_half_channels self in
  ConvFlow_wf self -> Nat.Odd (cf_kernel_size self) ->
  (0 < n)%nat -> (0 < cf_filter_channels self)%nat ->
  (0 < cf_num_bins self)%nat -> (0 < t)%nat ->
  cond_ok b (cf_filter_channels self) t g ->
  shape3 b (n + n) t x -> shape3 b 1 t x_mask ->
  exists out,
    ConvFlow_forward self x x_mask g reverse = Ok out
    /\ shape3 b (n + n) t (tensor_of out)
    /\ (forall i j k, (i < b)%nat -> (j < n + n)%nat -> (k < t)%nat ->
          get3 x_mask i 0 k = 0 -> get3 (tensor_of out) i j k = 0)
    /\ (if reverse then logdet_of out = None
        else exists logdet, logdet_of out = Some logdet /\ length logdet = b).
Proof.
  intros n _ _ _ _ _ _ _ Hx Hm.
  pose proof (ConvFlow_forward_unfold self x_mask g reverse Hx) as E.
  cbv zeta in E. fold n in E.
  set (params := ConvFlow_spline_params self (map (firstn n) x) x_mask g) in *.
  set (tr := piecewise_rational_quadratic_transform
               (map (fun xb => firstn n (skipn n xb)) x)
               (fst (fst params)) (snd (fst params)) (snd params)
               reverse (cf_tail_bound self)) in *.
  pose proof (split_first_shape n Hx) as H0.
  pose proof (split_second_shape n Hx) as H1.
  destruct (transform_shape (fst (fst params)) (snd (fst params)) (snd params)
              reverse (cf_tail_bound self) H1) as [Hy1 Hl1].
  fold tr in Hy1, Hl1.
  pose proof (torch_cat1_shape H0 Hy1) as Hc.
  eexists. split; [exact E|]. rewrite tensor_of_if.
  split; [apply (tmul_mask_shape Hc Hm)|]. split.
  - intros i j k Hi Hj Hk E0.
    rewrite (@tmul_mask_get b (n + n) t) by assumption.
    rewrite E0. ring.
  - destruct reverse; [reflexivity|].
    eexists. split; [reflexivity|].
    rewrite torch_sum12_length. apply (tmul_mask_shape Hl1 Hm).
Qed.

(** ** Convolutions that keep the length *)

Lemma Conv1d_forward_shape {cv b c t x} :
  (0 < c)%nat -> shape3 b c t x ->
  shape3 b (conv_out_channels cv) (conv_out_length cv t) (Conv1d_forward cv x).
Proof.
  intros Hc Hx. unfold Conv1d_forward.
  apply shape3_intro; [rewrite length_map; apply Hx|].
  intros i Hi. pose proof (shape3_nth Hx Hi) as Hxi.
  rewrite (map_nth_in _ x i []) by (rewrite (proj1 Hx); exact Hi).
  apply shape2_intro; [rewrite length_map, length_seq; reflexivity|].
  intros o Ho.
  rewrite (map_nth_in _ _ o 0%nat) by (rewrite length_seq; exact Ho).
  rewrite length_map, length_seq, (shape2_size1 Hxi Hc). reflexivity.
Qed.

Lemma get_padding_odd q d : get_padding (2 * q + 1) d = (d * q)%nat.
Proof.
  unfold get_padding. replace (2 * q + 1 - 1)%nat with (q * 2)%nat by lia.
  rewrite Nat.mul_assoc. apply Nat.div_mul. discriminate.
Qed.

Lemma same_length_out {cv c k} l :
  Nat.Odd k -> same_length_conv c k cv -> conv_out_length cv l = l.
Proof.
  intros [q ->] (_ & Ek & Es & Ep & _). unfold conv_out_length.
  rewrite Ek, Es, Ep, get_padding_odd.
  set (d := conv_dilation cv).
  replace (d * (2 * q + 1 - 1) + 1)%nat with (2 * (d * q) + 1)%nat by lia.
  destruct l as [|l].
  - replace (0 + 2 * (d * q) <? 2 * (d * q) + 1)%nat with true
      by (symmetry; apply Nat.ltb_lt; lia).
    reflexivity.
  - replace (S l + 2 * (d * q) <? 2 * (d * q) + 1)%nat with false
      by (symmetry; apply Nat.ltb_ge; lia).
    rewrite Nat.div_1_r. lia.
Qed.

Lemma same_length_conv_shape {cv b c c' k t x} :
  Nat.Odd k -> same_length_conv c' k cv -> (0 < c)%nat -> shape3 b c t x ->
  shape3 b c' t (Conv1d_forward cv x).
Proof.
  intros Hk Hcv Hc Hx. pose proof (@Conv1d_forward_shape cv b c t x Hc Hx) as H.
  rewrite (same_length_out t Hk Hcv) in H.
  destruct Hcv as (<- & _). exact H.
Qed.

Lemma odd_1 : Nat.Odd 1.
Proof. exists 0%nat. reflexivity. Qed.

Lemma odd_pos {k} : Nat.Odd k -> (0 < k)%nat.
Proof. intros [q ->]. lia. Qed.

(** ** [LayerNorm]: along the channel axis *)

Lemma transpose_shape {c t m} :
  shape2 c t m -> (0 < c)%nat -> shape2 t c (transpose m).
Proof.
  intros Hm Hc. unfold transpose. rewrite (shape2_size1 Hm Hc).
  apply shape2_intro; [rewrite length_map, length_seq; reflexivity|].
  intros k Hk.
  rewrite (map_nth_in _ _ k 0%nat) by (rewrite length_seq; exact Hk).
  rewrite length_map. apply Hm.
Qed.

Lemma transpose_row {c t m} k :
  shape2 c t m -> (0 < c)%nat -> (k < t)%nat ->
  nth k (transpose m) [] = map (fun row => nth k row 0) m.
Proof.
  intros Hm Hc Hk. unfold transpose. rewrite (shape2_size1 Hm Hc).
  rewrite (map_nth_in _ _ k 0%nat) by (rewrite length_seq; exact Hk).
  rewrite seq_nth by exact Hk. reflexivity.
Qed.

Lemma layer_norm_row_length ln v : length (layer_norm_row ln v) = length v.
Proof. unfold layer_norm_row. rewrite length_map, length_seq. reflexivity. Qed.

Lemma nn_LayerNorm_forward_shape {ln b t c x} :
  shape3 b t c x -> shape3 b t c (nn_LayerNorm_forward ln x).
Proof.
  intros Hx. unfold nn_LayerNorm_forward.
  apply shape3_intro; [rewrite length_map; apply Hx|].
  intros i Hi. pose proof (shape3_nth Hx Hi) as Hxi.
  rewrite (map_nth_in _ x i []) by (rewrite (proj1 Hx); exact Hi).
  apply shape2_intro; [rewrite length_map; apply Hxi|].
  intros k Hk.
  rewrite (map_nth_in _ _ k []) by (rewrite (proj1 Hxi); exact Hk).
  rewrite layer_norm_row_length. apply (shape2_nth Hxi Hk).
Qed.

Lemma transpose12_shape {b c t x} :
  shape3 b c t x -> (0 < c)%nat -> shape3 b t c (transpose12 x).
Proof.
  intros Hx Hc. unfold transpose12.
  apply shape3_intro; [rewrite length_map; apply Hx|].
  intros i Hi. pose proof (shape3_nth Hx Hi) as Hxi.
  rewrite (map_nth_in _ x i []) by (rewrite (proj1 Hx); exact Hi).
  apply (transpose_shape Hxi Hc).
Qed.

Lemma LayerNorm_forward_shape {ln b c t x} :
  (0 < c)%nat -> (0 < t)%nat -> shape3 b c t x ->
  shape3 b c t (LayerNorm_forward ln x).
Proof.
  intros Hc Ht Hx. unfold LayerNorm_forward.
  apply (transpose12_shape (nn_LayerNorm_forward_shape (transpose12_shape Hx Hc)) Ht).
Qed.

(** The channels of batch entry [i] at time step [k]. *)
Lemma LayerNorm_forward_get {ln b c t x} i j k :
  (0 < c)%nat -> (0 < t)%nat -> shape3 b c t x ->
  (i < b)%nat -> (j < c)%nat -> (k < t)%nat ->
  get3 (LayerNorm_forward ln x) i j k
  = nth j (layer_norm_row ln (map (fun row => nth k row 0) (nth i x []))) 0.
Proof.
  intros Hc Ht Hx Hi Hj Hk.
  pose proof (shape3_nth Hx Hi) as Hxi.
  pose proof (transpose_shape Hxi Hc) as Hti.
  unfold LayerNorm_forward, get3, get2, transpose12 at 1, nn_LayerNorm_forward,
    transpose12.
  rewrite (map_nth_in _ _ i []) by (rewrite !length_map, (proj1 Hx); exact Hi).
  rewrite (map_nth_in _ _ i []) by (rewrite length_map, (proj1 Hx); exact Hi).
  rewrite (map_nth_in _ x i []) by (rewrite (proj1 Hx); exact Hi).
  assert (Hn : shape2 t c (map (layer_norm_row ln) (transpose (nth i x [])))).
  { apply shape2_intro; [rewrite length_map; apply Hti|].
    intros k' Hk'.
    rewrite (map_nth_in _ _ k' []) by (rewrite (proj1 Hti); exact Hk').
    rewrite layer_norm_row_length. apply (shape2_nth Hti Hk'). }
  rewrite (transpose_row j Hn Ht Hj).
  rewrite (map_nth_in _ _ k []) by (rewrite length_map, (proj1 Hti); exact Hk).
  rewrite (map_nth_in _ _ k []) by (rewrite (proj1 Hti); exact Hk).
  rewrite (transpose_row k Hxi Hc Hk). reflexivity.
Qed.

Lemma Rsum_map_sigma {A} (g : A -> R) (l : list A) (d : A) :
  Rsum (map g l) = sigma (length l) (fun k => g (nth k l d)).
Proof.
  rewrite Rsum_sigma, length_map. apply sigma_ext. intros k Hk.
  apply (map_nth_in g l k d 0 Hk).
Qed.

(** X9: [LayerNorm(c).forward] keeps the shape [(b, c, t)] of its input and
    normalises along the channel axis: the entry of channel [j] at time
    step [k] is the input entry minus the mean over the channels at that
    time step, divided by the square root of the variance over the channels
    plus [eps], times [weight[j]] plus [bias[j]]. *)
Theorem LayerNorm_forward_channel_axis (self : LayerNorm) (b c t : nat)
    (x : Tensor3) :
  normalized_shape self = c ->
  length (ln_weight self) = c -> length (ln_bias self) = c ->
  0 < ln_eps self ->
  (0 < c)%nat -> (0 < t)%nat -> shape3 b c t x ->
  shape3 b c t (LayerNorm_forward self x)
  /\ forall i j k, (i < b)%nat -> (j < c)%nat -> (k < t)%nat ->
       let mean := sigma c (fun j' => get3 x i j' k) / INR c in
       let var :=
         sigma c (fun j' => (get3 x i j' k - mean) * (get3 x i j' k - mean))
         / INR c in
       get3 (LayerNorm_forward self x) i j k
       = (get3 x i j k - mean) / sqrt (var + ln_eps self)
         * nth j (ln_weight self) 0 + nth j (ln_bias self) 0.
Proof.
  intros _ _ _ _ Hc Ht Hx. split; [apply (LayerNorm_forward_shape Hc Ht Hx)|].
  intros i j k Hi Hj Hk mean var.
  rewrite (LayerNorm_forward_get i j k Hc Ht Hx Hi Hj Hk).
  pose proof (shape3_nth Hx Hi) as Hxi.
  set (col := map (fun row => nth k row 0) (nth i x [])).
  assert (Lcol : length col = c) by (unfold col; rewrite length_map; apply Hxi).
  assert (Ecol : forall j', (j' < c)%nat -> nth j' col 0 = get3 x i j' k).
  { intros j' Hj'. unfold col, get3, get2.
    rewrite (map_nth_in _ _ j' [] 0) by (rewrite (proj1 Hxi); exact Hj').
    reflexivity. }
  assert (Emean : Rsum col / INR (length col) = mean).
  { unfold mean. rewrite Lcol, Rsum_sigma, Lcol. f_equal.
    apply sigma_ext. exact Ecol. }
  unfold layer_norm_row.
  rewrite (map_nth_in _ _ j 0%nat) by (rewrite length_seq, Lcol; exact Hj).
  rewrite seq_nth by (rewrite Lcol; exact Hj). cbn [Nat.add].
  rewrite Emean, (Ecol j Hj).
  replace (Rsum (map (fun a => (a - mean) * (a - mean)) col) / INR (length col))
    with var; [reflexivity|].
  unfold var. rewrite Lcol, (Rsum_map_sigma _ col 0), Lcol. f_equal.
  apply sigma_ext. intros j' Hj'. rewrite (Ecol j' Hj'). reflexivity.
Qed.

Lemma sigma_centred n f a s :
  sigma n (fun j => (f j - a) / s * 1 + 0) = (sigma n f - INR n * a) / s.
Proof.
  revert f. induction n as [|n IH]; intros f.
  - unfold sigma, Rdiv. simpl. ring.
  - rewrite !sigma_S, S_INR, (IH (fun j => f (S j))). unfold Rdiv. ring.
Qed.

(** X10: with the weight 1 and the bias 0 that [LayerNorm(c)] is
    constructed with, the outputs of [LayerNorm.forward] over the channels
    sum to 0 at every batch entry and time step. *)
Theorem LayerNorm_init_zero_mean (b c t : nat) (x : Tensor3) :
  (0 < c)%nat -> (0 < t)%nat -> shape3 b c t x ->
  forall i k, (i < b)%nat -> (k < t)%nat ->
    sigma c (fun j => get3 (LayerNorm_forward (LayerNorm_init c) x) i j k) = 0.
Proof.
  intros Hc Ht Hx i k Hi Hk.
  set (mean := sigma c (fun j' => get3 x i j' k) / INR c).
  set (s := sqrt (sigma c (fun j' => (get3 x i j' k - mean)
                                      * (get3 x i j' k - mean)) / INR c
                  + ln_eps (LayerNorm_init c))).
  rewrite (sigma_ext c _ (fun j => (get3 x i j k - mean) / s * 1 + 0)).
  - rewrite sigma_centred. unfold mean.
    assert (INR c <> 0) by (apply not_0_INR; lia).
    replace (sigma c (fun j => get3 x i j k)
             - INR c * (sigma c (fun j' => get3 x i j' k) / INR c))
      with 0 by (field; assumption).
    unfold Rdiv. ring.
  - intros j Hj.
    rewrite (LayerNorm_forward_get i j k Hc Ht Hx Hi Hj Hk).
    pose proof (shape3_nth Hx Hi) as Hxi.
    set (col := map (fun row => nth k row 0) (nth i x [])).
    assert (Lcol : length col = c) by (unfold col; rewrite length_map; apply Hxi).
    assert (Ecol : forall j', (j' < c)%nat -> nth j' col 0 = get3 x i j' k).
    { intros j' Hj'. unfold col, get3, get2.
      rewrite (map_nth_in _ _ j' [] 0) by (rewrite (proj1 Hxi); exact Hj').
    reflexivity. }
    unfold layer_norm_row.
    rewrite (map_nth_in _ _ j 0%nat) by (rewrite length_seq, Lcol; exact Hj).
    rewrite seq_nth by (rewrite Lcol; exact Hj). cbn [Nat.add].
    cbn [ln_weight ln_bias LayerNorm_init].
    rewrite !nth_repeat_lt by exact Hj.
    assert (Emean : Rsum col / INR (length col) = mean).
    { unfold mean. rewrite Lcol, Rsum_sigma, Lcol. f_equal.
      apply sigma_ext. exact Ecol. }
    rewrite Emean, (Ecol j Hj).
    replace (sqrt (Rsum (map (fun a => (a - mean) * (a - mean)) col)
                   / INR (length col) + ln_eps (LayerNorm_init c)))
      with s; [reflexivity|].
    unfold s. do 2 f_equal.
    rewrite Lcol, (Rsum_map_sigma _ col 0), Lcol. f_equal.
    apply sigma_ext. intros j' Hj'. rewrite (Ecol j' Hj'). reflexivity.
Qed.

(** ** [DDSConv.forward] *)

Lemma masked_shape {b c t x x_mask} :
  mask_ok b t x_mask -> shape3 b c t x -> shape3 b c t (masked x x_mask).
Proof.
  intros Hm Hx. destruct x_mask as [m|]; [|exact Hx].
  apply (tmul_mask_shape Hx Hm).
Qed.

Lemma tadd_shape {b c t x y} :
  shape3 b c t x -> shape3 b c t y -> shape3 b c t (tadd x y).
Proof.
  intros Hx Hy.
  pose proof (bop3_shape Rplus Hx Hy (compat_refl b) (compat_refl c)
                         (compat_refl t)) as H.
  rewrite !bdim_same in H. exact H.
Qed.

Lemma tadd_cond_shape {b c t x g} :
  cond_ok b c t g -> shape3 b c t x ->
  shape3 b c t match g with Some g => tadd x g | None => x end.
Proof.
  intros Hg Hx. destruct g as [g|]; [|exact Hx].
  destruct Hg as [Hg | Hg]; [|apply (tadd_shape Hx Hg)].
  pose proof (bop3_shape Rplus Hx Hg (compat_refl b) (compat_refl c)
                         (compat_one_r t)) as H.
  rewrite !bdim_same, bdim_one_r in H. exact H.
Qed.

Lemma fold_left_invariant {A B} (P : A -> Prop) (f : A -> B -> A) l a :
  (forall a i, In i l -> P a -> P (f a i)) -> P a -> P (fold_left f l a).
Proof.
  revert a. induction l as [|i l IH]; intros a H Ha; [exact Ha|].
  simpl. apply IH.
  - intros a' i' Hi'. apply H. right. exact Hi'.
  - apply H; [left; reflexivity | exact Ha].
Qed.

Lemma DDSConv_init_wf channels kernel_size n_layers p_dropout w_sep w_1x1 :
  (0 < kernel_size)%nat ->
  DDSConv_wf (DDSConv_init channels kernel_size n_layers p_dropout w_sep w_1x1).
Proof.
  intros Hk. unfold DDSConv_wf. simpl. rewrite !length_map, !length_seq.
  repeat split;
    try (apply Forall_map, Forall_forall; intros i _; repeat split;
         cbn [conv_dilation]; try lia;
         apply Nat.neq_0_lt_0, Nat.pow_nonzero; lia).
  apply Forall_app. split; apply Forall_map, Forall_forall; intros i _;
    reflexivity.
Qed.

Section Layers.

(** Dropout keeps the shape of its input. *)
Hypothesis dropout_shape :
  forall p y b c t, shape3 b c t y -> shape3 b c t (nn_Dropout p y).

Variables (self : DDSConv) (b t : nat) (x_mask : option Tensor3).
Hypothesis Hwf : DDSConv_wf self.
Hypothesis Hodd : Nat.Odd (dds_kernel_size self).
Hypothesis Hc : (0 < dds_channels self)%nat.
Hypothesis Ht : (0 < t)%nat.
Hypothesis Hmask : mask_ok b t x_mask.

(** The sum of a layer before its last masking. *)
Lemma DDSConv_layer_sum_shape x i :
  (i < dds_n_layers self)%nat -> shape3 b (dds_channels self) t x ->
  exists w, DDSConv_layer self x_mask x i = masked w x_mask
            /\ shape3 b (dds_channels self) t w.
Proof.
  intros Hi Hx. destruct Hwf as (L1 & L2 & F1 & F2 & _).
  rewrite Forall_forall in F1, F2.
  assert (C1 : same_length_conv (dds_channels self) (dds_kernel_size self)
                                (nth i (convs_sep self) no_conv))
    by (apply F1, nth_In; lia).
  assert (C2 : same_length_conv (dds_channels self) 1
                                (nth i (convs_1x1 self) no_conv))
    by (apply F2, nth_In; lia).
  eexists. split; [reflexivity|].
  pose proof (masked_shape Hmask Hx) as H0.
  apply (tadd_shape H0). apply dropout_shape.
  apply map3_shape, (LayerNorm_forward_shape Hc Ht).
  apply (same_length_conv_shape odd_1 C2 Hc).
  apply map3_shape, (LayerNorm_forward_shape Hc Ht).
  apply (same_length_conv_shape Hodd C1 Hc H0).
Qed.

Lemma DDSConv_layer_shape x i :
  (i < dds_n_layers self)%nat -> shape3 b (dds_channels self) t x ->
  shape3 b (dds_channels self) t (DDSConv_layer self x_mask x i).
Proof.
  intros Hi Hx. destruct (DDSConv_layer_sum_shape x i Hi Hx) as (w & -> & Hw).
  apply (masked_shape Hmask Hw).
Qed.

Lemma DDSConv_forward_shape x g :
  cond_ok b (dds_channels self) t g -> shape3 b (dds_channels self) t x ->
  shape3 b (dds_channels self) t (DDSConv_forward self x x_mask g).
Proof.
  intros Hg Hx. unfold DDSConv_forward.
  apply (fold_left_invariant (shape3 b (dds_channels self) t)).
  - intros a i Hi Ha. apply in_seq in Hi. apply DDSConv_layer_shape; [lia|exact Ha].
  - apply (tadd_cond_shape Hg Hx).
Qed.

End Layers.

Arguments DDSConv_forward_shape dropout_shape {self b t x_mask}.
Arguments DDSConv_layer_sum_shape dropout_shape {self b t x_mask}.

(** X11: a [DDSConv] of odd kernel size returns a tensor of the shape
    [(b, channels, t)] of its input, with or without a mask of shape
    [(b, 1, t)] and with or without a conditioning tensor of shape
    [(b, channels, 1)] or [(b, channels, t)]. *)
Theorem DDSConv_forward_preserves_shape (self : DDSConv) (b t : nat)
    (x : Tensor3) (x_mask g : option Tensor3) :
  (forall p y b c t, shape3 b c t y -> shape3 b c t (nn_Dropout p y)) ->
  DDSConv_wf self -> Nat.Odd (dds_kernel_size self) ->
  (0 < dds_channels self)%nat -> (0 < t)%nat ->
  mask_ok b t x_mask -> cond_ok b (dds_channels self) t g ->
  shape3 b (dds_channels self) t x ->
  shape3 b (dds_channels self) t (DDSConv_forward self x x_mask g).
Proof.
  intros Hd Hwf Hodd Hc Ht Hm Hg Hx.
  apply (DDSConv_forward_shape Hd Hwf Hodd Hc Ht Hm x g Hg Hx).
Qed.

(** X12: under a mask, a [DDSConv] with at least one layer returns 0 at
    every time step where the mask is 0; a [DDSConv] with no layer returns
    its input as it is, the mask unused. *)
Theorem DDSConv_forward_padding (self : DDSConv) (b t : nat)
    (x m : Tensor3) (g : option Tensor3) :
  (forall p y b c t, shape3 b c t y -> shape3 b c t (nn_Dropout p y)) ->
  DDSConv_wf self -> Nat.Odd (dds_kernel_size self) ->
  (0 < dds_channels self)%nat -> (0 < t)%nat ->
  shape3 b 1 t m -> cond_ok b (dds_channels self) t g ->
  shape3 b (dds_channels self) t x ->
  ((0 < dds_n_layers self)%nat ->
   forall i j k, (i < b)%nat -> (j < dds_channels self)%nat -> (k < t)%nat ->
     get3 m i 0 k = 0 -> get3 (DDSConv_forward self x (Some m) g) i j k = 0)
  /\ (dds_n_layers self = 0%nat ->
      DDSConv_forward self x (Some m) None = x).
Proof.
  intros Hd Hwf Hodd Hc Ht Hm Hg Hx. split.
  - intros Hn i j k Hi Hj Hk E0. unfold DDSConv_forward.
    destruct (dds_n_layers self) as [|n] eqn:En; [lia|].
    rewrite seq_S, fold_left_app. cbn [fold_left Nat.add].
    set (z := fold_left (DDSConv_layer self (Some m)) (seq 0 n) _).
    assert (Hz : shape3 b (dds_channels self) t z).
    { apply (fold_left_invariant (shape3 b (dds_channels self) t)).
      - intros a i' Hi' Ha. apply in_seq in Hi'.
        destruct (DDSConv_layer_sum_shape Hd (x_mask := Some m) Hwf Hodd Hc Ht
                    Hm a i' ltac:(lia) Ha) as (w & -> & Hw).
        apply (tmul_mask_shape Hw Hm).
      - apply (tadd_cond_shape Hg Hx). }
    destruct (DDSConv_layer_sum_shape Hd (x_mask := Some m) Hwf Hodd Hc Ht
                Hm z n ltac:(lia) Hz) as (w & -> & Hw).
    cbn [masked]. rewrite (@tmul_mask_get b (dds_channels self) t) by assumption.
    rewrite E0. ring.
  - intros En. unfold DDSConv_forward. rewrite En. reflexivity.
Qed.

(** X13: [DSResBlock(channels, kernel_size)] with an odd kernel size
    returns a tensor of the shape [(b, channels, t)] of its input, whatever
    is passed for the mask. *)
Theorem DSResBlock_forward_preserves_shape (channels kernel_size : nat)
    (w_sep w_1x1 : nat -> Tensor3 * Tensor1) (b t : nat) (x : Tensor3)
    (x_mask : option Tensor3) :
  (forall p y b c t, shape3 b c t y -> shape3 b c t (nn_Dropout p y)) ->
  Nat.Odd kernel_size -> (0 < channels)%nat -> (0 < t)%nat ->
  shape3 b channels t x ->
  shape3 b channels t
    (DSResBlock_forward (DSResBlock_init channels kernel_size w_sep w_1x1)
                        x x_mask).
Proof.
  intros Hd Hodd Hc Ht Hx. unfold DSResBlock_forward, DSResBlock_init.
  cbn [dds_conv].
  apply (DDSConv_forward_shape Hd
           (self := DDSConv_init channels kernel_size 3 0 w_sep w_1x1)
           (x_mask := None) (DDSConv_init_wf _ _ _ _ _ _ (odd_pos Hodd)) Hodd Hc
           Ht I x None
           I Hx).
Qed.

(** X14: [TextResidualBlock(channels, kernel_size, dilation, n)] with an
    odd kernel size returns a tensor of the shape [(b, channels, t)] of its
    input, for every number [n] of blocks. *)
Theorem TextResidualBlock_forward_preserves_shape
    (channels kernel_size dilation n : nat)
    (w_sep w_1x1 : nat -> nat -> Tensor3 * Tensor1) (b t : nat) (x : Tensor3) :
  (forall p y b c t, shape3 b c t y -> shape3 b c t (nn_Dropout p y)) ->
  Nat.Odd kernel_size -> (0 < channels)%nat -> (0 < t)%nat ->
  shape3 b channels t x ->
  shape3 b channels t
    (TextResidualBlock_forward
       (TextResidualBlock_init channels kernel_size dilation n w_sep w_1x1) x).
Proof.
  intros Hd Hodd Hc Ht Hx. unfold TextResidualBlock_forward.
  apply tadd_shape; [|exact Hx].
  apply (fold_left_invariant (shape3 b channels t)); [|exact Hx].
  intros a blk Hblk Ha. cbn [trb_blocks TextResidualBlock_init] in Hblk.
  apply in_map_iff in Hblk. destruct Hblk as (i & <- & _).
  unfold TextResidualBlock_layer. cbn [fst snd].
  apply (LayerNorm_forward_shape Hc Ht). apply map3_shape.
  apply (DDSConv_forward_shape Hd
           (self := DDSConv_init channels kernel_size 3 0 (w_sep i) (w_1x1 i))
           (x_mask := None) (DDSConv_init_wf _ _ _ _ _ _ (odd_pos Hodd)) Hodd Hc
           Ht I a None
           I Ha).
Qed.

(** ** [ResBlock1.forward] *)

Lemma ResBlock1_init_wf channels kernel_size d0 d1 d2 w1 w2 :
  (0 < d0)%nat -> (0 < d1)%nat -> (0 < d2)%nat ->
  ResBlock1_wf channels kernel_size
               (ResBlock1_init channels kernel_size (d0, d1, d2) w1 w2).
Proof.
  intros H0 H1 H2.
  repeat split; cbn; repeat constructor; cbn [conv_dilation]; lia.
Qed.

(** X15: a [ResBlock1] of odd kernel size, on an input of at least one
    time step, returns a tensor of the shape [(b, channels, t)] of its
    input, with or without a mask; under a mask its output is 0 at every
    time step where the mask is 0. *)
Theorem ResBlock1_forward_shape_padding (self : ResBlock1)
    (channels kernel_size b t : nat) (x : Tensor3) (x_mask : option Tensor3) :
  ResBlock1_wf channels kernel_size self -> Nat.Odd kernel_size ->
  (0 < channels)%nat -> (0 < t)%nat ->
  mask_ok b t x_mask -> shape3 b channels t x ->
  shape3 b channels t (ResBlock1_forward self x x_mask)
  /\ forall m i j k, x_mask = Some m ->
       (i < b)%nat -> (j < channels)%nat -> (k < t)%nat ->
       get3 m i 0 k = 0 -> get3 (ResBlock1_forward self x x_mask) i j k = 0.
Proof.
  intros (F1 & F2 & _) Hodd Hc _ Hm Hx. rewrite Forall_forall in F1, F2.
  unfold ResBlock1_forward.
  set (z := fold_left (ResBlock1_step x_mask)
                      (combine (rb_convs1 self) (rb_convs2 self)) x).
  assert (Hz : shape3 b channels t z).
  { apply (fold_left_invariant (shape3 b channels t)); [|exact Hx].
    intros a [c1 c2] Hin Ha.
    pose proof (F1 c1 (in_combine_l _ _ _ _ Hin)) as C1.
    pose proof (F2 c2 (in_combine_r _ _ _ _ Hin)) as C2.
    unfold ResBlock1_step. cbn [fst snd].
    apply tadd_shape; [|exact Ha].
    apply (same_length_conv_shape Hodd C2 Hc).
    apply (masked_shape Hm). apply map3_shape.
    apply (same_length_conv_shape Hodd C1 Hc).
    apply (masked_shape Hm). apply map3_shape. exact Ha. }
  split; [apply (masked_shape Hm Hz)|].
  intros m i j k -> Hi Hj Hk E0. cbn [masked mask_ok] in *.
  rewrite (@tmul_mask_get b channels t) by assumption.
  rewrite E0. ring.
Qed.

(** ** The parameters of the spline in [ConvFlow.forward] *)

Lemma ConvFlow_init_wf in_channels filter_channels kernel_size n_layers
    num_bins tail_bound w_pre w_sep w_1x1 :
  (0 < kernel_size)%nat ->
  ConvFlow_wf (ConvFlow_init in_channels filter_channels kernel_size n_layers
                             num_bins tail_bound w_pre w_sep w_1x1).
Proof.
  intros Hk. unfold ConvFlow_wf.
  split; [apply ConvFlow_init_inv|].
  do 4 (split; [reflexivity|]).
  split; [apply DDSConv_init_wf; exact Hk|]. split; reflexivity.
Qed.

Lemma shape3_size1 {b c t x} : shape3 b c t x -> (0 < b)%nat -> size1 x = c.
Proof.
  intros [Lx Hx] Hb. unfold size1. destruct x as [|xb x]; [simpl in Lx; lia|].
  apply Forall_inv in Hx. apply Hx.
Qed.

(** One run of [n] channels of a batch entry of [c * n] channels. *)
Lemma chunk_shape {c n t hb} j :
  shape2 (c * n) t hb -> (j < c)%nat ->
  shape2 n t (firstn n (skipn (j * n) hb)).
Proof.
  intros [Lh Hh] Hj.
  assert (Hle : (j * n + n <= c * n)%nat).
  { replace (j * n + n)%nat with (S j * n)%nat by lia.
    apply Nat.mul_le_mono_r. lia. }
  split.
  - rewrite length_firstn, length_skipn, Lh. lia.
  - apply Forall_firstn_skipn, Hh.
Qed.

Lemma ConvFlow_spline_params_lengths (self : ConvFlow) (b t : nat)
    (x0 x_mask : Tensor3) (g : option Tensor3) :
  (forall p y b c t, shape3 b c t y -> shape3 b c t (nn_Dropout p y)) ->
  ConvFlow_wf self -> Nat.Odd (cf_kernel_size self) ->
  (0 < cf_half_channels self)%nat -> (0 < cf_filter_channels self)%nat ->
  (0 < cf_num_bins self)%nat -> (0 < t)%nat ->
  shape3 b (cf_half_channels self) t x0 -> shape3 b 1 t x_mask ->
  cond_ok b (cf_filter_channels self) t g ->
  let params := ConvFlow_spline_params self x0 x_mask g in
  forall i j k, (i < b)%nat -> (j < cf_half_channels self)%nat -> (k < t)%nat ->
    length (get4 (fst (fst params)) i j k) = cf_num_bins self
    /\ length (get4 (snd (fst params)) i j k) = cf_num_bins self
    /\ length (get4 (snd params) i j k) = (cf_num_bins self - 1)%nat.
Proof.
  intros Hd ([Hpre Hproj] & _ & _ & Epre & Eproj & Hwf & Ech & Ek) Hodd Hh Hfc
         HK Ht
         Hx0 Hm Hg params i j k Hi Hj Hk.
  set (half := cf_half_channels self) in *.
  set (K := cf_num_bins self) in *.
  set (n := (K * 3 - 1)%nat) in *.
  pose proof (conv_pointwise_shape Hpre Hh Hx0) as H1. rewrite Epre in H1.
  rewrite <- Ech in H1, Hg, Hfc. rewrite <- Ek in Hodd.
  pose proof (DDSConv_forward_shape Hd (x_mask := Some x_mask) Hwf Hodd Hfc Ht
                Hm _ g Hg H1) as H2.
  pose proof (conv_pointwise_shape Hproj Hfc H2) as H3. rewrite Eproj in H3.
  pose proof (tmul_mask_shape H3 Hm) as H4.
  set (h := tmul (Conv1d_forward (cf_proj self)
                    (DDSConv_forward (cf_convs self)
                       (Conv1d_forward (cf_pre self) x0) (Some x_mask) g))
                 x_mask) in *.
  assert (Hb : (0 < b)%nat) by lia.
  pose proof (shape3_nth H4 Hi) as Hhb.
  set (P := permute_0132 (reshape_b_c_m1_t h (size1 x0))).
  assert (Erow : exists row, get4 P i j k = row /\ length row = n
                 /\ forall f lo hi, get4 (slice_last f lo hi P) i j k
                    = map f (skipn lo match hi with
                                      | Some a => firstn a row
                                      | None => row
                                      end)).
  { exists (get4 P i j k).
    assert (LP : length P = b)
      by (unfold P, permute_0132, reshape_b_c_m1_t; rewrite !length_map; apply H4).
    assert (EPi : nth i P []
                  = map transpose
                      (map (fun j' => firstn n (skipn (j' * n) (nth i h [])))
                           (seq 0 half))).
    { unfold P, permute_0132, reshape_b_c_m1_t.
      rewrite (map_nth_in _ _ i []) by (rewrite length_map, (proj1 H4); exact Hi).
      rewrite (map_nth_in _ _ i []) by (rewrite (proj1 H4); exact Hi).
      rewrite (shape3_size1 Hx0 Hb), (proj1 Hhb).
      replace (half * n / half)%nat with n
        by (symmetry; rewrite Nat.mul_comm; apply Nat.div_mul; lia).
      reflexivity. }
    assert (LPi : length (nth i P []) = half)
      by (rewrite EPi, !length_map, length_seq; reflexivity).
    assert (EPij : nth j (nth i P []) []
                   = transpose (firstn n (skipn (j * n) (nth i h [])))).
    { rewrite EPi.
      rewrite (map_nth_in _ _ j []) by (rewrite length_map, length_seq; exact Hj).
      rewrite (map_nth_in _ _ j 0%nat) by (rewrite length_seq; exact Hj).
      rewrite seq_nth by exact Hj. reflexivity. }
    assert (Hn : (0 < n)%nat) by (unfold n; lia).
    pose proof (transpose_shape (chunk_shape j Hhb Hj) Hn) as Htr.
    rewrite <- EPij in Htr.
    split; [reflexivity|]. split.
    - unfold get4. apply (shape2_nth Htr Hk).
    - intros f lo hi. unfold get4, slice_last.
      rewrite (map_nth_in _ _ i []) by (rewrite LP; exact Hi).
      rewrite (map_nth_in _ _ j []) by (rewrite LPi; exact Hj).
      rewrite (map_nth_in _ _ k []) by (rewrite (proj1 Htr); exact Hk).
      reflexivity. }
  destruct Erow as (row & _ & Lrow & Eslice).
  subst params. unfold ConvFlow_spline_params. cbn [fst snd]. fold h P.
  rewrite !Eslice, !length_map, !length_skipn, !length_firstn, Lrow.
  fold K. unfold n. repeat split; lia.
Qed.

(** ** [PositionalEncoding] *)

Lemma repeat2_shape v r c : shape2 r c (repeat (repeat v c) r).
Proof.
  split; [apply repeat_length|]. apply Forall_forall. intros row Hrow.
  apply repeat_spec in Hrow. subst row. apply repeat_length.
Qed.

(** The table after [enc[:, start::2] = v]. *)
Lemma assign_stride2_done start d k v enc :
  (k = (d - start + 1) / 2 \/ k = 1)%nat ->
  exists enc',
    assign_stride2 start d k v enc = Done enc'
    /\ forall r, shape2 r k v -> shape2 r d enc ->
         shape2 r d enc'
         /\ forall p c, (p < r)%nat -> (c < d)%nat ->
              get2 enc' p c
              = if (start <=? c)%nat && Nat.even (c - start)
                then nth (if (k =? 1)%nat then 0 else (c - start) / 2)%nat
                         (nth p v []) 0
                else get2 enc p c.
Proof.
  intros Hk. unfold assign_stride2.
  replace ((k =? (d - start + 1) / 2)%nat || (k =? 1)%nat) with true.
  2:{ symmetry. apply orb_true_iff.
      destruct Hk as [Hk | Hk]; [left | right]; apply Nat.eqb_eq; exact Hk. }
  eexists. split; [reflexivity|].
  intros r Hv He. split.
  - apply shape2_intro.
    { rewrite map2_length, (proj1 Hv), (proj1 He). lia. }
    intros p Hp.
    rewrite (map2_nth _ v enc p [] [] [])
      by (rewrite ?(proj1 Hv), ?(proj1 He); exact Hp).
    rewrite imap_length. apply (shape2_nth He Hp).
  - intros p c Hp Hc. unfold get2.
    rewrite (map2_nth _ v enc p [] [] [])
      by (rewrite ?(proj1 Hv), ?(proj1 He); exact Hp).
    pose proof (shape2_nth He Hp) as Lrow. unfold shape1 in Lrow.
    rewrite (imap_nth _ _ c 0 0) by (rewrite Lrow; exact Hc). reflexivity.
Qed.

Lemma arange_step2_length_even q : length (arange_step2 (2 * q)) = q.
Proof.
  unfold arange_step2. rewrite length_map, length_seq.
  symmetry. apply (Nat.div_unique _ 2 q 1); lia.
Qed.

Lemma arange_step2_length_odd q : length (arange_step2 (2 * q + 1)) = S q.
Proof.
  unfold arange_step2. rewrite length_map, length_seq.
  symmetry. apply (Nat.div_unique _ 2 (S q) 0); lia.
Qed.

Lemma even_double i : Nat.even (2 * i) = true.
Proof. rewrite Nat.even_mul. reflexivity. Qed.

Lemma even_double_pred i : (0 < i)%nat -> Nat.even (2 * i - 1) = false.
Proof.
  intros Hi. replace (2 * i - 1)%nat with (S (2 * (i - 1))) by lia.
  rewrite Nat.even_succ, Nat.odd_mul. reflexivity.
Qed.

(** X17: for an even [d_model] the constructor of [PositionalEncoding]
    returns a table of shape [(max_len, d_model)] whose row [pos] holds
    [sin(pos / 10000^(2i/d_model))] in column [2i] and the cosine of the
    same angle in column [2i + 1]; every entry lies between -1 and 1. *)
Theorem PositionalEncoding_init_even (max_len d_model : nat) :
  Nat.Even d_model ->
  exists self,
    PositionalEncoding_init max_len d_model = Done self
    /\ shape2 max_len d_model (pe_encoding self)
    /\ (forall pos i, (pos < max_len)%nat -> (2 * i + 1 < d_model)%nat ->
          let angle :=
            INR pos / Rpower 10000 (INR (2 * i) / INR d_model) in
          get2 (pe_encoding self) pos (2 * i) = sin angle
          /\ get2 (pe_encoding self) pos (2 * i + 1) = cos angle)
    /\ (forall pos c, (pos < max_len)%nat -> (c < d_model)%nat ->
          -1 <= get2 (pe_encoding self) pos c <= 1).
Proof.
  intros [q ->]. unfold PositionalEncoding_init.
  rewrite arange_step2_length_even.
  set (ang := map (fun p => map (fun v => p / Rpower 10000 (v / INR (2 * q)))
                               (arange_step2 (2 * q))) (arange max_len)).
  assert (Hang : forall f, shape2 max_len q (map (map f) ang)).
  { intros f. apply shape2_intro.
    { unfold ang, arange. rewrite !length_map, length_seq. reflexivity. }
    intros p Hp. unfold ang, arange.
    rewrite (map_nth_in _ _ p []) by (rewrite !length_map, length_seq; exact Hp).
    rewrite (map_nth_in _ _ p 0) by (rewrite length_map, length_seq; exact Hp).
    rewrite !length_map. apply arange_step2_length_even. }
  assert (Eang : forall f p i, (p < max_len)%nat -> (i < q)%nat ->
            nth i (nth p (map (map f) ang) []) 0
            = f (INR p / Rpower 10000 (INR (2 * i) / INR (2 * q)))).
  { intros f p i Hp Hi. unfold ang, arange.
    rewrite (map_nth_in _ _ p []) by (rewrite !length_map, length_seq; exact Hp).
    rewrite (map_nth_in _ _ p 0) by (rewrite length_map, length_seq; exact Hp).
    rewrite (map_nth_in _ _ p 0%nat) by (rewrite length_seq; exact Hp).
    rewrite seq_nth by exact Hp. cbn [Nat.add].
    rewrite (map_nth_in f _ i 0)
      by (rewrite length_map, arange_step2_length_even; exact Hi).
    rewrite (map_nth_in _ _ i 0) by (rewrite arange_step2_length_even; exact Hi).
    unfold arange_step2.
    assert (Hq : ((2 * q + 1) / 2 = q)%nat)
      by (symmetry; apply (Nat.div_unique _ 2 q 1); lia).
    rewrite (map_nth_in _ _ i 0%nat) by (rewrite length_seq, Hq; exact Hi).
    rewrite seq_nth by (rewrite Hq; exact Hi). reflexivity. }
  assert (Eidx : forall i, (i < q)%nat -> (if (q =? 1)%nat then 0 else i)%nat = i).
  { intros i Hi. destruct (Nat.eqb_spec q 1); lia. }
  destruct (assign_stride2_done 0 (2 * q) q (map (map sin) ang)
              (repeat (repeat 0 (2 * q)) max_len)) as (e1 & -> & H1).
  { left. rewrite Nat.sub_0_r. apply (Nat.div_unique _ 2 q 1); lia. }
  destruct (H1 max_len (Hang sin) (repeat2_shape 0 max_len (2 * q)))
    as [S1 G1].
  destruct (assign_stride2_done 1 (2 * q) q (map (map cos) ang) e1)
    as (e2 & -> & H2).
  { left. destruct q as [|q']; [reflexivity|].
    apply (Nat.div_unique _ 2 (S q') 0); lia. }
  destruct (H2 max_len (Hang cos) S1) as [S2 G2].
  eexists. split; [reflexivity|]. cbn [pe_encoding].
  split; [exact S2|].
  assert (Hpair : forall pos i, (pos < max_len)%nat -> (2 * i + 1 < 2 * q)%nat ->
            get2 e2 pos (2 * i)
            = sin (INR pos / Rpower 10000 (INR (2 * i) / INR (2 * q)))
            /\ get2 e2 pos (2 * i + 1)
               = cos (INR pos / Rpower 10000 (INR (2 * i) / INR (2 * q)))).
  { intros pos i Hp Hi. assert (Hiq : (i < q)%nat) by lia. split.
    - rewrite (G2 pos (2 * i)%nat Hp ltac:(lia)).
      assert (E : ((1 <=? 2 * i)%nat && Nat.even (2 * i - 1)) = false).
      { destruct i as [|i']; [reflexivity|].
        rewrite even_double_pred by lia. apply andb_false_r. }
      rewrite E, (G1 pos (2 * i)%nat Hp ltac:(lia)).
      rewrite Nat.sub_0_r, even_double. cbn [Nat.leb andb].
      replace (2 * i / 2)%nat with i
        by (apply (Nat.div_unique _ 2 i 0); lia).
      rewrite (Eidx i Hiq). apply (Eang sin pos i Hp Hiq).
    - rewrite (G2 pos (2 * i + 1)%nat Hp Hi).
      replace (2 * i + 1 - 1)%nat with (2 * i)%nat by lia.
      rewrite even_double.
      replace (1 <=? 2 * i + 1)%nat with true
        by (symmetry; apply Nat.leb_le; lia).
      cbn [andb].
      replace (2 * i / 2)%nat with i
        by (apply (Nat.div_unique _ 2 i 0); lia).
      rewrite (Eidx i Hiq). apply (Eang cos pos i Hp Hiq). }
  split; [exact Hpair|].
  intros pos c Hp Hc.
  destruct (Nat.Even_or_Odd c) as [[i ->] | [i ->]].
  - destruct (Hpair pos i Hp ltac:(lia)) as [-> _]. apply SIN_bound.
  - destruct (Hpair pos i Hp Hc) as [_ ->]. apply COS_bound.
Qed.

(** X18: for an odd [d_model] of at least 3 the constructor of
    [PositionalEncoding] raises: the cosine columns of the table are one
    fewer than the cosines computed for them. *)
Theorem PositionalEncoding_init_odd_raises (max_len d_model : nat) :
  Nat.Odd d_model -> (3 <= d_model)%nat ->
  PositionalEncoding_init max_len d_model = Raise "RuntimeError".
Proof.
  intros [q ->] Hd. unfold PositionalEncoding_init.
  rewrite arange_step2_length_odd.
  set (ang := map _ (arange max_len)).
  destruct (assign_stride2_done 0 (2 * q + 1) (S q) (map (map sin) ang)
              (repeat (repeat 0 (2 * q + 1)) max_len)) as (e1 & -> & _).
  { left. rewrite Nat.sub_0_r. apply (Nat.div_unique _ 2 (S q) 0); lia. }
  unfold assign_stride2.
  replace ((2 * q + 1 - 1 + 1) / 2)%nat with q
    by (apply (Nat.div_unique _ 2 q 1); lia).
  replace (S q =? q)%nat with false by (symmetry; apply Nat.eqb_neq; lia).
  replace (S q =? 1)%nat with false by (symmetry; apply Nat.eqb_neq; lia).
  reflexivity.
Qed.

(** X19: [PositionalEncoding.forward] reads only the length [seq_len] of
    the rows of its input: it returns the first [seq_len] rows of the table,
    all of the table when [seq_len] is at least the number of its rows, and
    the same rows for every input of that shape. *)
Theorem PositionalEncoding_forward_rows (self : PositionalEncoding)
    (b seq_len : nat) (x x' : Tensor2) :
  shape2 b seq_len x -> shape2 b seq_len x' -> (0 < b)%nat ->
  PositionalEncoding_forward self x = firstn seq_len (pe_encoding self)
  /\ length (PositionalEncoding_forward self x)
     = Nat.min seq_len (length (pe_encoding self))
  /\ ((length (pe_encoding self) <= seq_len)%nat ->
      PositionalEncoding_forward self x = pe_encoding self)
  /\ PositionalEncoding_forward self x' = PositionalEncoding_forward self x.
Proof.
  intros Hx Hx' Hb. unfold PositionalEncoding_forward.
  rewrite (shape2_size1 Hx Hb), (shape2_size1 Hx' Hb).
  split; [reflexivity|]. split; [apply length_firstn|].
  split; [apply firstn_all2 | reflexivity].
Qed.

(** ** [ConvNorm] *)

(** X20: without a padding, [ConvNorm.__init__] raises [AssertionError]
    for every kernel size that is not odd, whatever the other arguments:
    the assertion comes before the convolution is built. *)
Theorem ConvNorm_init_even_kernel_raises (in_channels out_channels kernel_size
    stride dilation : nat) (bias transpose : bool) (w : Tensor3)
    (b0 : Tensor1) :
  kernel_size mod 2 <> 1%nat ->
  ConvNorm_init in_channels out_channels kernel_size stride None dilation
                bias transpose w b0 = Raise "AssertionError".
Proof.
  intros H. unfold ConvNorm_init. apply Nat.eqb_neq in H. rewrite H.
  reflexivity.
Qed.

(** X25: for channel counts, a stride and a dilation of at least 1,
    [ConvNorm.__init__] without a padding and with an odd kernel size
    builds its convolution with the padding
    [dilation * (kernel_size - 1) / 2]; with a padding given it keeps that
    padding and asserts nothing, also for a kernel size that is not odd. *)
Theorem ConvNorm_init_padding (in_channels out_channels kernel_size stride
    dilation : nat) (bias transpose : bool) (w : Tensor3) (b0 : Tensor1) :
  (0 < in_channels)%nat -> (0 < out_channels)%nat ->
  (0 < stride)%nat -> (0 < dilation)%nat ->
  (kernel_size mod 2 = 1%nat ->
   exists self,
     ConvNorm_init in_channels out_channels kernel_size stride None
                   dilation bias transpose w b0 = Done self
     /\ conv_padding (cn_conv self)
        = (dilation * (kernel_size - 1) / 2)%nat)
  /\ (forall padding,
      exists self,
        ConvNorm_init in_channels out_channels kernel_size stride
                      (Some padding) dilation bias transpose w b0 = Done self
        /\ conv_padding (cn_conv self) = padding).
Proof.
  intros _ _ _ _. unfold ConvNorm_init. split.
  - intros H. apply Nat.eqb_eq in H. rewrite H.
    eexists. split; reflexivity.
  - intros padding. eexists. split; reflexivity.
Qed.

Lemma odd_mod2 {k} : (k mod 2 = 1)%nat -> Nat.Odd k.
Proof.
  intros H. exists (k / 2)%nat.
  rewrite (Nat.div_mod_eq k 2) at 1. rewrite H. reflexivity.
Qed.

(** X21: a [ConvNorm] built without a padding, with stride 1 and a
    dilation of at least 1, keeps the length of the time axis: without [transpose] an input of shape
    [(b, in_channels, t)] gives an output of shape [(b, out_channels, t)],
    and with [transpose] an input of shape [(b, t, in_channels)] gives an
    output of shape [(b, t, out_channels)]. *)
Theorem ConvNorm_forward_keeps_length (in_channels out_channels kernel_size
    dilation : nat) (bias transpose : bool) (w : Tensor3) (b0 : Tensor1)
    (b t : nat) (x : Tensor3) :
  (kernel_size mod 2 = 1)%nat -> (0 < dilation)%nat ->
  (0 < in_channels)%nat -> (0 < t)%nat -> (0 < out_channels)%nat ->
  shape3 b (if transpose then t else in_channels)
         (if transpose then in_channels else t) x ->
  exists self,
    ConvNorm_init in_channels out_channels kernel_size 1 None dilation
                  bias transpose w b0 = Done self
    /\ shape3 b (if transpose then t else out_channels)
              (if transpose then out_channels else t)
              (ConvNorm_forward self x).
Proof.
  intros Hk Hdil Hc Ht Ho Hx. unfold ConvNorm_init.
  apply Nat.eqb_eq in Hk as Hk'. rewrite Hk'.
  eexists. split; [reflexivity|].
  unfold ConvNorm_forward. cbn [cn_conv cn_transpose].
  set (cv := nn_Conv1d in_channels out_channels kernel_size 1
                       (dilation * (kernel_size - 1) / 2) dilation 1 w
                       (if bias then b0 else [])).
  assert (Hcv : same_length_conv out_channels kernel_size cv)
    by (repeat split; exact Hdil).
  destruct transpose.
  - apply (fun H => transpose12_shape H Ho).
    apply (same_length_conv_shape (odd_mod2 Hk) Hcv Hc).
    apply (transpose12_shape Hx Ht).
  - apply (same_length_conv_shape (odd_mod2 Hk) Hcv Hc Hx).
Qed.

(** ** [LinearNorm] *)

Lemma nn_Linear_forward_shape {l b t n x} :
  shape3 b t n x -> shape3 b t (out_features l) (nn_Linear_forward l x).
Proof.
  intros Hx. unfold nn_Linear_forward.
  apply shape3_intro; [rewrite length_map; apply Hx|].
  intros i Hi. pose proof (shape3_nth Hx Hi) as Hxi.
  rewrite (map_nth_in _ x i []) by (rewrite (proj1 Hx); exact Hi).
  apply shape2_intro; [rewrite length_map; apply Hxi|].
  intros j Hj.
  rewrite (map_nth_in _ _ j []) by (rewrite (proj1 Hxi); exact Hj).
  rewrite length_map, length_seq. reflexivity.
Qed.

Lemma nn_Linear_forward_get {l b t n x} i j o :
  shape3 b t n x -> (i < b)%nat -> (j < t)%nat -> (o < out_features l)%nat ->
  get3 (nn_Linear_forward l x) i j o
  = let dot := sigma (in_features l)
                     (fun q => get3 x i j q * get2 (lin_weight l) o q) in
    match lin_bias l with
    | Some bias => dot + nth o bias 0
    | None => dot
    end.
Proof.
  intros Hx Hi Hj Ho. pose proof (shape3_nth Hx Hi) as Hxi.
  unfold nn_Linear_forward, get3 at 1, get2 at 1.
  rewrite (map_nth_in _ x i []) by (rewrite (proj1 Hx); exact Hi).
  rewrite (map_nth_in _ _ j []) by (rewrite (proj1 Hxi); exact Hj).
  rewrite (map_nth_in _ _ o 0%nat) by (rewrite length_seq; exact Ho).
  rewrite seq_nth by exact Ho. reflexivity.
Qed.

Lemma sigma_linear n a f g w :
  sigma n (fun q => (a * f q + g q) * w q)
  = a * sigma n (fun q => f q * w q) + sigma n (fun q => g q * w q).
Proof.
  revert f g w. induction n as [|n IH]; intros f g w.
  - unfold sigma. simpl. ring.
  - rewrite !sigma_S, (IH (fun q => f (S q)) (fun q => g (S q))
                          (fun q => w (S q))). ring.
Qed.

(** X22: [LinearNorm] as constructed, for sizes of at least 1 and with or
    without bias, is a linear map on the last axis: it sends an input of shape [(b, t, in_features)]
    to an output of shape [(b, t, out_features)], and the output for
    [a * x + y] is [a] times the output for [x] plus the output for [y]. *)
Theorem LinearNorm_forward_linear (n_in n_out : nat)
    (bias : bool) (w : Tensor2) (b t : nat) (a : R) (x y : Tensor3) :
  (0 < n_in)%nat -> (0 < n_out)%nat ->
  shape3 b t n_in x -> shape3 b t n_in y ->
  let self := LinearNorm_init n_in n_out bias w in
  shape3 b t n_out (LinearNorm_forward self x)
  /\ forall i j o, (i < b)%nat -> (j < t)%nat -> (o < n_out)%nat ->
       get3 (LinearNorm_forward self (tadd (map3 (Rmult a) x) y)) i j o
       = a * get3 (LinearNorm_forward self x) i j o
         + get3 (LinearNorm_forward self y) i j o.
Proof.
  intros _ _ Hx Hy self. unfold LinearNorm_forward.
  set (l := ln_linear self).
  split; [apply (@nn_Linear_forward_shape l b t n_in x Hx)|].
  intros i j o Hi Hj Ho.
  pose proof (tadd_shape (map3_shape (Rmult a) Hx) Hy) as Hz.
  rewrite !(@nn_Linear_forward_get l b t n_in) by assumption.
  assert (Ez : sigma (in_features l)
                 (fun q => get3 (tadd (map3 (Rmult a) x) y) i j q
                           * get2 (lin_weight l) o q)
               = a * sigma (in_features l)
                       (fun q => get3 x i j q * get2 (lin_weight l) o q)
                 + sigma (in_features l)
                     (fun q => get3 y i j q * get2 (lin_weight l) o q)).
  { rewrite <- sigma_linear. apply sigma_ext. intros q Hq. f_equal.
    destruct (Nat.lt_ge_cases q n_in) as [Hqn | Hqn].
    - unfold tadd.
      rewrite (bop3_get Rplus i j q (map3_shape (Rmult a) Hx) Hy)
        by (auto with shapes; rewrite ?bdim_same; assumption).
      rewrite !(bidx_lt Hi), !(bidx_lt Hj), !(bidx_lt Hqn).
      rewrite (@map3_get _ b t n_in) by assumption. reflexivity.
    - assert (Z : forall z, shape3 b t n_in z -> get3 z i j q = 0).
      { intros z Hzs. pose proof (shape2_nth (shape3_nth Hzs Hi) Hj) as L.
        unfold shape1 in L. unfold get3, get2.
        apply nth_overflow. rewrite L. exact Hqn. }
      rewrite (Z _ Hz), (Z _ Hx), (Z _ Hy). ring. }
  cbv zeta. rewrite Ez.
  subst l self. cbn [ln_linear LinearNorm_init lin_bias].
  destruct bias; [|reflexivity].
  rewrite nth_repeat_lt by exact Ho. ring.
Qed.

(** X16: for a [ConvFlow] of odd kernel size and at least one bin, on a
    first half [x0] of shape [(b, half_channels, t)], every position of
    [x0] gets [num_bins] unnormalized widths, [num_bins] unnormalized
    heights and [num_bins - 1] unnormalized derivatives. *)
Theorem ConvFlow_spline_params_bins (self : ConvFlow) (b t : nat)
    (x0 x_mask : Tensor3) (g : option Tensor3) :
  (forall p y b c t, shape3 b c t y -> shape3 b c t (nn_Dropout p y)) ->
  ConvFlow_wf self -> Nat.Odd (cf_kernel_size self) ->
  (0 < cf_half_channels self)%nat -> (0 < cf_filter_channels self)%nat ->
  (0 < cf_num_bins self)%nat -> (0 < t)%nat ->
  shape3 b (cf_half_channels self) t x0 -> shape3 b 1 t x_mask ->
  cond_ok b (cf_filter_channels self) t g ->
  let params := ConvFlow_spline_params self x0 x_mask g in
  forall i j k, (i < b)%nat -> (j < cf_half_channels self)%nat -> (k < t)%nat ->
    length (get4 (fst (fst params)) i j k) = cf_num_bins self
    /\ length (get4 (snd (fst params)) i j k) = cf_num_bins self
    /\ length (get4 (snd params) i j k) = (cf_num_bins self - 1)%nat.
Proof.
  intros Hd Hwf Hodd Hh Hfc HK Ht Hx0 Hm Hg.
  apply (ConvFlow_spline_params_lengths self b t x0 x_mask g Hd Hwf Hodd Hh
           Hfc HK Ht Hx0 Hm Hg).
Qed.

(** ** [ConvFlow] as constructed *)

Lemma ConvFlow_spline_params_zero self x0 x_mask g :
  conv_weight (cf_proj self)
  = zeros3 (conv_out_channels (cf_proj self))
           (cf_filter_channels self) 1 ->
  conv_bias (cf_proj self) = torch_zeros (conv_out_channels (cf_proj self)) ->
  let params := ConvFlow_spline_params self x0 x_mask g in
  all4 (fun v => v = 0) (fst (fst params))
  /\ all4 (fun v => v = 0) (snd (fst params))
  /\ all4 (fun v => v = 0) (snd params).
Proof.
  intros Hw Hb params. subst params. unfold ConvFlow_spline_params.
  cbn [fst snd].
  set (h := DDSConv_forward (cf_convs self)
              (Conv1d_forward (cf_pre self) x0) (Some x_mask) g).
  assert (Hz : all4 (fun v => v = 0)
                 (permute_0132
                    (reshape_b_c_m1_t
                       (tmul (Conv1d_forward (cf_proj self) h) x_mask)
                       (size1 x0)))).
  { apply permute_zero, reshape_zero, tmul_zero_l.
    eapply Conv1d_forward_zero; eassumption. }
  repeat split; apply slice_last_zero; try exact Hz; try reflexivity;
    unfold Rdiv; ring.
Qed.

Lemma Forall_nth_default {A} (P : A -> Prop) l i d :
  P d -> Forall P l -> P (nth i l d).
Proof.
  intros Hd Hl. destruct (Nat.lt_ge_cases i (length l)) as [Hi | Hi].
  - rewrite Forall_forall in Hl. apply Hl, nth_In, Hi.
  - rewrite nth_overflow by exact Hi. exact Hd.
Qed.

Lemma all4_get4 {P x} i j k : all4 P x -> Forall P (get4 x i j k).
Proof.
  intros H. unfold get4, all4, all3 in *.
  apply Forall_nth_default; [constructor|].
  apply Forall_nth_default; [constructor|].
  apply Forall_nth_default; [constructor|]. exact H.
Qed.

Lemma Forall_zero_repeat {l} :
  Forall (fun v => v = 0) l -> l = repeat 0 (length l).
Proof.
  induction 1 as [|v l -> _ IH]; [reflexivity|]. simpl. f_equal. exact IH.
Qed.

(** C10: the projection that [ConvFlow.__init__] builds has an all-zero
    weight and an all-zero bias, and for a [ConvFlow] as constructed every
    entry of the unnormalized widths, heights and derivatives is 0, whatever
    [x0], the mask and the conditioning are.  For an odd kernel size and at
    least one bin, on an [x0] of shape [(b, half_channels, t)], the
    parameters are there at every position of [x0]: [num_bins] widths,
    [num_bins] heights and [num_bins - 1] derivatives, all 0. *)
Theorem ConvFlow_init_zero_spline_params
    (in_channels filter_channels kernel_size n_layers num_bins : nat)
    (tail_bound : R) (w_pre : Tensor3 * Tensor1)
    (w_sep w_1x1 : nat -> Tensor3 * Tensor1)
    (b t : nat) (x0 x_mask : Tensor3) (g : option Tensor3) :
  let self := ConvFlow_init in_channels filter_channels kernel_size n_layers
                            num_bins tail_bound w_pre w_sep w_1x1 in
  let params := ConvFlow_spline_params self x0 x_mask g in
  all3 (fun v => v = 0) (conv_weight (cf_proj self))
  /\ Forall (fun v => v = 0) (conv_bias (cf_proj self))
  /\ all4 (fun v => v = 0) (fst (fst params))
  /\ all4 (fun v => v = 0) (snd (fst params))
  /\ all4 (fun v => v = 0) (snd params)
  /\ ((forall p y b c t, shape3 b c t y -> shape3 b c t (nn_Dropout p y)) ->
      Nat.Odd kernel_size -> (0 < in_channels / 2)%nat ->
      (0 < filter_channels)%nat -> (0 < num_bins)%nat -> (0 < t)%nat ->
      shape3 b (in_channels / 2) t x0 -> shape3 b 1 t x_mask ->
      cond_ok b filter_channels t g ->
      forall i j k,
        (i < b)%nat -> (j < in_channels / 2)%nat -> (k < t)%nat ->
        get4 (fst (fst params)) i j k = repeat 0 num_bins
        /\ get4 (snd (fst params)) i j k = repeat 0 num_bins
        /\ get4 (snd params) i j k = repeat 0 (num_bins - 1)).
Proof.
  intros self params.
  split.
  { simpl. unfold zeros3, all3. repeat (apply Forall_forall; intros ? Hin;
      apply repeat_spec in Hin; subst). reflexivity. }
  split.
  { simpl. unfold torch_zeros. apply Forall_forall. intros v Hv.
    apply repeat_spec in Hv. exact Hv. }
  destruct (ConvFlow_spline_params_zero self x0 x_mask g eq_refl eq_refl)
    as (Zw & Zh & Zd).
  fold params in Zw, Zh, Zd.
  do 3 (split; [assumption|]).
  intros Hd Hodd Hn Hfc HK Ht Hx0 Hm Hg i j k Hi Hj Hk.
  destruct (ConvFlow_spline_params_lengths self b t x0 x_mask g Hd
              (ConvFlow_init_wf _ _ _ _ _ _ _ _ _ (odd_pos Hodd))
              Hodd Hn Hfc HK Ht Hx0 Hm Hg i j k Hi Hj Hk)
    as (Lw & Lh & Ld).
  fold params in Lw, Lh, Ld.
  rewrite (Forall_zero_repeat (all4_get4 i j k Zw)), Lw.
  rewrite (Forall_zero_repeat (all4_get4 i j k Zh)), Lh.
  rewrite (Forall_zero_repeat (all4_get4 i j k Zd)), Ld.
  repeat split.
Qed.

(** X23: a [ConvFlow] as constructed, of odd kernel size and at least one
    bin, applies one and the same spline at every position, that of
    all-zero parameters ([num_bins] widths, [num_bins] heights and
    [num_bins - 1] derivatives), whatever [x0] and the conditioning are:
    the second half of the channels of its output is that spline of the
    second half of the input, times the mask. *)
Theorem ConvFlow_init_fixed_spline
    (in_channels filter_channels kernel_size n_layers num_bins : nat)
    (tail_bound : R) (w_pre : Tensor3 * Tensor1)
    (w_sep w_1x1 : nat -> Tensor3 * Tensor1)
    (b t : nat) (x x_mask : Tensor3) (g : option Tensor3) (reverse : bool) :
  (forall p y b c t, shape3 b c t y -> shape3 b c t (nn_Dropout p y)) ->
  let self := ConvFlow_init in_channels filter_channels kernel_size n_layers
                            num_bins tail_bound w_pre w_sep w_1x1 in
  let n := (in_channels / 2)%nat in
  Nat.Odd kernel_size -> (0 < n)%nat -> (0 < filter_channels)%nat ->
  (0 < num_bins)%nat -> (0 < t)%nat ->
  shape3 b (n + n) t x -> shape3 b 1 t x_mask ->
  cond_ok b filter_channels t g ->
  exists out,
    ConvFlow_forward self x x_mask g reverse = Ok out
    /\ forall i j k, (i < b)%nat -> (j < n)%nat -> (k < t)%nat ->
         get3 (tensor_of out) i (n + j) k
         = fst (spline (get3 x i (n + j) k)
                       (repeat 0 num_bins) (repeat 0 num_bins)
                       (repeat 0 (num_bins - 1)) reverse tail_bound)
           * get3 x_mask i 0 k.
Proof.
  intros Hd self n Hodd Hn Hfc HK Ht Hx Hm Hg.
  destruct (ConvFlow_forward_entries self g reverse (x := x) Hx Hm)
    as (y & logdet & E & _ & _ & Hy1).
  change (cf_half_channels self) with n in Hy1.
  change (cf_tail_bound self) with tail_bound in Hy1.
  eexists. split; [exact E|]. rewrite tensor_of_if.
  intros i j k Hi Hj Hk.
  rewrite (Hy1 i j k Hi Hj Hk).
  set (params := ConvFlow_spline_params self (map (firstn n) x) x_mask g).
  assert (Hhalf : (0 < cf_half_channels self)%nat)
    by (change (cf_half_channels self) with n; lia).
  destruct (ConvFlow_spline_params_lengths self b t (map (firstn n) x)
              x_mask g Hd (ConvFlow_init_wf _ _ _ _ _ _ _ _ _ (odd_pos Hodd))
              Hodd Hhalf Hfc
              HK Ht (split_first_shape n Hx) Hm Hg i j k Hi Hj Hk)
    as (Lw & Lh & Ld).
  destruct (ConvFlow_spline_params_zero self (map (firstn n) x) x_mask g
              eq_refl eq_refl) as (Zw & Zh & Zd).
  fold params in Lw, Lh, Ld, Zw, Zh, Zd.
  rewrite (Forall_zero_repeat (all4_get4 i j k Zw)), Lw.
  rewrite (Forall_zero_repeat (all4_get4 i j k Zh)), Lh.
  rewrite (Forall_zero_repeat (all4_get4 i j k Zd)), Ld.
  reflexivity.
Qed.

(** X24: when the forward mode of the spline kernel undoes its inverse
    mode, the forward mode of a [ConvFlow] of odd kernel size and at least
    one bin, without conditioning, applied to the output of its reverse mode
    returns the input times the mask. *)
Theorem ConvFlow_forward_of_reverse (self : ConvFlow) (b t : nat)
    (y x_mask : Tensor3) :
  (forall v uw uh ud tail_bound,
     fst (spline (fst (spline v uw uh ud true tail_bound))
                 uw uh ud false tail_bound) = v) ->
  let n := cf_half_channels self in
  ConvFlow_wf self -> Nat.Odd (cf_kernel_size self) ->
  (0 < n)%nat -> (0 < cf_filter_channels self)%nat ->
  (0 < cf_num_bins self)%nat -> (0 < t)%nat ->
  shape3 b (n + n) t y -> shape3 b 1 t x_mask -> is_mask x_mask ->
  exists x logdet,
    ConvFlow_forward self y x_mask None true = Ok (Reverse x)
    /\ ConvFlow_forward self x x_mask None false
       = Ok (Forward (tmul y x_mask) logdet).
Proof.
  intros Hspline n [Hinv _] _ _ _ _ _ Hy Hm Hv.
  destruct (ConvFlow_forward_entries self None true Hy Hm)
    as (x & _ & E1 & Hx & Hx0 & Hx1).
  fold n in Hx, Hx0, Hx1.
  destruct (ConvFlow_forward_entries self None false Hx Hm)
    as (z & logdet & E2 & Hz & Hz0 & Hz1).
  fold n in Hz, Hz0, Hz1.
  exists x, logdet. split; [exact E1|]. rewrite E2. do 2 f_equal.
  assert (Ex0 : map (firstn n) x = tmul (map (firstn n) y) x_mask).
  { apply (@shape3_ext b n t).
    - apply (split_first_shape n Hx).
    - apply (tmul_mask_shape (split_first_shape n Hy) Hm).
    - intros i j k Hi Hj Hk.
      rewrite (split_first_get n i j k Hx Hi Hj).
      rewrite (@tmul_mask_get b n t)
        by (assumption || apply (split_first_shape n Hy)).
      rewrite (split_first_get n i j k Hy Hi Hj). apply Hx0; assumption. }
  apply (@shape3_ext b (n + n) t); [exact Hz | apply (tmul_mask_shape Hy Hm) |].
  intros i j k Hi Hj Hk.
  rewrite (@tmul_mask_get b (n + n) t) by assumption.
  destruct (Nat.lt_ge_cases j n) as [Hjn|Hjn].
  - rewrite (Hz0 i j k Hi Hjn Hk), (Hx0 i j k Hi Hjn Hk).
    destruct (is_mask_get Hv Hm Hi Hk) as [-> | ->]; ring.
  - replace j with (n + (j - n))%nat by lia.
    assert (Hj' : (j - n < n)%nat) by lia.
    rewrite (Hz1 i (j - n)%nat k Hi Hj' Hk), (Hx1 i (j - n)%nat k Hi Hj' Hk).
    destruct (is_mask_get Hv Hm Hi Hk) as [E | E]; rewrite E; [ring|].
    rewrite !Rmult_1_r. rewrite Ex0.
    rewrite (ConvFlow_spline_params_masked Hinv
               (Nat.le_lt_trans _ _ _ (Nat.le_0_l _) Hj')
               (split_first_shape n Hy) Hm Hv).
    apply Hspline.
Qed.

End Modules.

Arguments Done {A} a.
Arguments Raise {A} exc.

(** * The primitives on concrete tensors *)

Ltac conv_eval :=
  cbv [Conv1d_forward conv_in_channels conv_out_channels conv_kernel_size
       conv_stride conv_padding conv_dilation conv_groups conv_weight
       conv_bias map seq nth Nat.div Nat.divmod fst snd Nat.mul Nat.add
       Nat.sub conv_out_length size1 hd length Nat.ltb Nat.leb pad repeat app
       Rsum fold_right].

Example transpose_2_3 :
  transpose [[1; 2; 3]; [4; 5; 6]] = [[1; 4]; [2; 5]; [3; 6]].
Proof. reflexivity. Qed.

Example reshape_4_channels :
  reshape_b_c_m1_t [[[1]; [2]; [3]; [4]]] 2 = [[[[1]; [2]]; [[3]; [4]]]].
Proof. reflexivity. Qed.

Example tmul_by_mask :
  tmul [[[1; 2]; [3; 4]]] [[[0; 1]]] = [[[1 * 0; 2 * 1]; [3 * 0; 4 * 1]]].
Proof. reflexivity. Qed.

Example Flip_forward_3_channels :
  Flip_forward [[[1]; [2]; [3]]] [] false = Forward [[[3]; [2]; [1]]] [0].
Proof. reflexivity. Qed.

(** [nn.Conv1d(2, 1, 1)] with weight [[[2], [3]]] and bias [1]. *)
Example Conv1d_pointwise_2_to_1 :
  Conv1d_forward (nn_Conv1d 2 1 1 1 0 1 1 [[[2]; [3]]] [1])
                 [[[10; 20]; [100; 200]]]
  = [[[321; 641]]].
Proof. conv_eval. repeat f_equal; lra. Qed.

(** [nn.Conv1d(1, 1, 3, dilation=3, padding=3)] with weight [1, 10, 100]. *)
Example Conv1d_dilated :
  Conv1d_forward (nn_Conv1d 1 1 3 1 3 3 1 [[[1; 10; 100]]] [0])
                 [[[1; 2; 3; 4]]]
  = [[[410; 20; 30; 41]]].
Proof. conv_eval. repeat f_equal; lra. Qed.

Example LayerNorm_forward_keeps_shape :
  map (map (@length R))
      (LayerNorm_forward (LayerNorm_init 2) [[[1; 2; 3]; [3; 4; 5]]])
  = [[3; 3]]%nat.
Proof. reflexivity. Qed.

(** [DDSConv(2, 3, 2)] keeps the shape [(1, 2, 4)] of its input. *)
Example DDSConv_forward_keeps_shape :
  let dds :=
    DDSConv_init 2 3 2 0
                 (fun _ => ([[[1; 1; 1]]; [[1; 1; 1]]], [0; 0]))
                 (fun _ => ([[[1]; [1]]; [[1]; [1]]], [0; 0])) in
  map (map (@length R))
      (DDSConv_forward gelu_tanh dropout_eval dds
         [[[1; 2; 3; 4]; [5; 6; 7; 8]]] (Some [[[1; 1; 1; 0]]]) None)
  = [[4; 4]]%nat.
Proof. reflexivity. Qed.

(** The parameter tensors of [ConvFlow_small] on one channel and one time
    step: one width, one height and no inner derivative per entry. *)
Example ConvFlow_small_params_shape :
  let params :=
    ConvFlow_spline_params gelu_tanh dropout_eval ConvFlow_small
                           [[[1]]] [[[1]]] None in
  map (map (map (@length R))) (fst (fst params)) = [[[1%nat]]]
  /\ map (map (map (@length R))) (snd (fst params)) = [[[1%nat]]]
  /\ map (map (map (@length R))) (snd params) = [[[0%nat]]].
Proof. repeat split; reflexivity. Qed.

(** * The theorems on concrete tensors *)

Ltac shape_tac := repeat first [reflexivity | split | constructor].

(** Evaluation of the tensor operations down to the arithmetic on entries. *)
Ltac tensor_eval :=
  cbv [ElementwiseAffine_forward Log_forward tensor_of negb
       tmul tadd tsub bop3 broadcast map2 map map3 unsqueeze0
       torch_exp torch_log torch_neg torch_clamp_min
       ea_m ea_logs ElementwiseAffine_init repeat nth get3 get2].

Lemma is_mask_one : is_mask [[[1]]].
Proof.
  unfold is_mask. do 3 (constructor; [|constructor]). right. reflexivity.
Defined.

Lemma spline_identity_inverse v uw uh ud tail_bound :
  fst (spline_identity (fst (spline_identity v uw uh ud false tail_bound))
                       uw uh ud true tail_bound) = v.
Proof. reflexivity. Defined.

Lemma is_mask_one_zero : is_mask [[[1; 0]]].
Proof.
  unfold is_mask. do 2 (constructor; [|constructor]).
  constructor; [right; reflexivity|].
  constructor; [left; reflexivity|]. constructor.
Defined.

(** C1 at [Log] on the input [[[[1]]]] and at [ConvFlow_small] on the input
    [[[[1], [2]]]], both under the mask [[[[1]]]], and at
    [ElementwiseAffine(1)] as constructed on the input [[[[3, 4]]]] under
    the mask [[[[1, 0]]]]. *)
Lemma Flow_reverse_of_forward_witness :
  (exists y logdet x',
     Flow_forward gelu_tanh dropout_eval spline_identity
                  (FlowElementwiseAffine (ElementwiseAffine_init 1))
                  [[[3; 4]]] [[[1; 0]]] false = Ok (Forward y logdet)
     /\ Flow_forward gelu_tanh dropout_eval spline_identity
                     (FlowElementwiseAffine (ElementwiseAffine_init 1))
                     y [[[1; 0]]] true = Ok (Reverse x')
     /\ x' = tmul [[[3; 4]]] [[[1; 0]]]
     /\ forall i j k, (i < 1)%nat -> (j < 1)%nat -> (k < 2)%nat ->
          get3 [[[1; 0]]] i 0 k = 1 ->
          get3 x' i j k = get3 [[[3; 4]]] i j k
          /\ close (get3 x' i j k) (get3 [[[3; 4]]] i j k))
  /\ (exists y logdet x',
     Flow_forward gelu_tanh dropout_eval spline_identity
                  FlowLog [[[1]]] [[[1]]] false = Ok (Forward y logdet)
     /\ Flow_forward gelu_tanh dropout_eval spline_identity
                     FlowLog y [[[1]]] true = Ok (Reverse x')
     /\ x' = tmul [[[1]]] [[[1]]]
     /\ forall i j k, (i < 1)%nat -> (j < 1)%nat -> (k < 1)%nat ->
          get3 [[[1]]] i 0 k = 1 ->
          get3 x' i j k = get3 [[[1]]] i j k
          /\ close (get3 x' i j k) (get3 [[[1]]] i j k))
  /\ (exists y logdet x',
     Flow_forward gelu_tanh dropout_eval spline_identity
                  (FlowConvFlow ConvFlow_small) [[[1]; [2]]] [[[1]]] false
     = Ok (Forward y logdet)
     /\ Flow_forward gelu_tanh dropout_eval spline_identity
                     (FlowConvFlow ConvFlow_small) y [[[1]]] true
        = Ok (Reverse x')
     /\ x' = tmul [[[1]; [2]]] [[[1]]]
     /\ forall i j k, (i < 1)%nat -> (j < 2)%nat -> (k < 1)%nat ->
          get3 [[[1]]] i 0 k = 1 ->
          get3 x' i j k = get3 [[[1]; [2]]] i j k
          /\ close (get3 x' i j k) (get3 [[[1]; [2]]] i j k)).
Proof.
  split; [|split].
  - apply (Flow_reverse_of_forward gelu_tanh dropout_eval spline_identity
             spline_identity_inverse
             (FlowElementwiseAffine (ElementwiseAffine_init 1)) 1 1 2
             [[[3; 4]]] [[[1; 0]]]).
    + shape_tac.
    + shape_tac.
    + exact is_mask_one_zero.
    + unfold Flow_ready. split; [reflexivity|].
      apply ElementwiseAffine_init_inv.
    + intros E. discriminate E.
  - apply (Flow_reverse_of_forward gelu_tanh dropout_eval spline_identity
             spline_identity_inverse FlowLog 1 1 1 [[[1]]] [[[1]]]).
    + shape_tac.
    + shape_tac.
    + exact is_mask_one.
    + exact I.
    + intros _ i j k Hi Hj Hk _.
      destruct i as [|i]; [|lia]. destruct j as [|j]; [|lia].
      destruct k as [|k]; [|lia]. unfold get3, get2. simpl. lra.
  - apply (Flow_reverse_of_forward gelu_tanh dropout_eval spline_identity
             spline_identity_inverse (FlowConvFlow ConvFlow_small) 1 2 1
             [[[1]; [2]]] [[[1]]]).
    + shape_tac.
    + shape_tac.
    + exact is_mask_one.
    + unfold Flow_ready. split; [reflexivity|]. apply ConvFlow_init_inv.
    + intros E. discriminate E.
Defined.

(** C1, as the claim has it, fails.  [ElementwiseAffine] as constructed, on
    the input 1 under the mask 0, returns 0 after forward and reverse mode;
    [Log], on the input -1 under the mask 1, returns 1e-5.  Neither is
    within 1e-4 of the input. *)
Lemma Flow_reverse_of_forward_not_everywhere :
  (exists y logdet x',
     ElementwiseAffine_forward (ElementwiseAffine_init 1) [[[1]]] [[[0]]] false
     = Forward y logdet
     /\ ElementwiseAffine_forward (ElementwiseAffine_init 1) y [[[0]]] true
        = Reverse x'
     /\ get3 x' 0 0 0 = 0
     /\ ~ close (get3 x' 0 0 0) (get3 [[[1]]] 0 0 0))
  /\ (exists y logdet x',
     Log_forward [[[-1]]] [[[1]]] false = Forward y logdet
     /\ Log_forward y [[[1]]] true = Reverse x'
     /\ get3 x' 0 0 0 = 1e-5
     /\ ~ close (get3 x' 0 0 0) (get3 [[[-1]]] 0 0 0)).
Proof.
  split.
  - eexists; eexists; eexists. split; [reflexivity|]. split; [reflexivity|].
    unfold close. tensor_eval.
    match goal with
    | |- ?v = 0 /\ _ => assert (E : v = 0) by ring; rewrite E
    end.
    split; [reflexivity|].
    intros H. rewrite Rabs_left in H by lra. lra.
  - eexists; eexists; eexists. split; [reflexivity|]. split; [reflexivity|].
    unfold close. tensor_eval.
    match goal with
    | |- ?v = 1e-5 /\ _ => assert (E : v = 1e-5); [|rewrite E]
    end.
    { rewrite Rmax_right by lra. rewrite !Rmult_1_r. apply exp_ln. lra. }
    split; [reflexivity|].
    intros H. rewrite Rabs_right in H by lra. lra.
Qed.

(** C2 at [ConvFlow_small], on the input [[[[1], [2]]]] under the mask
    [[[[1]]]], in forward mode. *)
Lemma ConvFlow_x0_passes_through_masked_witness :
  shape3 1 2 1 [[[1]; [2]]] /\ shape3 1 1 1 [[[1]]]
  /\ exists out,
       ConvFlow_forward gelu_tanh dropout_eval spline_identity ConvFlow_small
                        [[[1]; [2]]] [[[1]]] None false = Ok out
       /\ map (firstn 1) (tensor_of out)
          = tmul (map (firstn 1) [[[1]; [2]]]) [[[1]]]
       /\ forall i j k, (i < 1)%nat -> (j < 1)%nat -> (k < 1)%nat ->
            get3 (tensor_of out) i j k
            = get3 [[[1]; [2]]] i j k * get3 [[[1]]] i 0 k
            /\ (get3 [[[1]]] i 0 k = 1 ->
                get3 (tensor_of out) i j k = get3 [[[1]; [2]]] i j k)
            /\ (get3 [[[1]]] i 0 k = 0 -> get3 (tensor_of out) i j k = 0).
Proof.
  assert (Hx : shape3 1 2 1 [[[1]; [2]]]) by shape_tac.
  assert (Hm : shape3 1 1 1 [[[1]]]) by shape_tac.
  split; [exact Hx|]. split; [exact Hm|].
  exact (ConvFlow_x0_passes_through_masked gelu_tanh dropout_eval
           spline_identity ConvFlow_small 1 1 [[[1]; [2]]] [[[1]]] None false
           Hx Hm).
Defined.

(** C2, as the claim has it, fails: on the input [[[[1], [2]]]] under the
    mask [[[[0]]]] the first half of the channels of the output of
    [ConvFlow_small] holds 0 where the input holds 1. *)
Lemma ConvFlow_x0_changed_under_mask :
  exists out,
    ConvFlow_forward gelu_tanh dropout_eval spline_identity ConvFlow_small
                     [[[1]; [2]]] [[[0]]] None false = Ok out
    /\ get3 (tensor_of out) 0 0 0 = 0
    /\ get3 [[[1]; [2]]] 0 0 0 = 1
    /\ map (firstn 1) (tensor_of out) <> map (firstn 1) [[[1]; [2]]].
Proof.
  assert (Hx : shape3 1 (1 + 1) 1 [[[1]; [2]]]) by shape_tac.
  assert (Hm : shape3 1 1 1 [[[0]]]) by shape_tac.
  destruct (ConvFlow_forward_first_half gelu_tanh dropout_eval spline_identity
              ConvFlow_small None false Hx Hm) as (out & E & Hs & _ & Hg).
  exists out. split; [exact E|].
  assert (E0 : get3 (tensor_of out) 0 0 0 = 0).
  { rewrite (Hg 0%nat 0%nat 0%nat) by (simpl; lia).
    unfold get3, get2. cbn [nth]. ring. }
  split; [exact E0|]. split; [reflexivity|].
  intros Heq.
  assert (E1 : get3 (map (firstn 1) (tensor_of out)) 0 0 0 = 1)
    by (rewrite Heq; reflexivity).
  rewrite (split_first_get 1 0 0 0 Hs) in E1 by lia.
  rewrite E0 in E1. lra.
Qed.

(** C3 at [ElementwiseAffine(1)] as constructed, on the inputs [[[[1]]]] and
    [[[[2]]]] under the mask [[[[1]]]]. *)
Lemma ElementwiseAffine_logdet_sum_logs_mask_witness :
  exists logdet,
    logdet_of (ElementwiseAffine_forward (ElementwiseAffine_init 1)
                                         [[[1]]] [[[1]]] false) = Some logdet
    /\ logdet_of (ElementwiseAffine_forward (ElementwiseAffine_init 1)
                                            [[[2]]] [[[1]]] false) = Some logdet
    /\ length logdet = 1%nat
    /\ forall i, (i < 1)%nat ->
         nth i logdet 0
         = spec_affine_logdet (ea_logs (ElementwiseAffine_init 1))
                              [[[1]]] 1 1 i.
Proof.
  apply (ElementwiseAffine_logdet_sum_logs_mask (ElementwiseAffine_init 1)
           1 1 1 [[[1]]] [[[2]]] [[[1]]]); shape_tac.
Defined.

(** C4 at [ElementwiseAffine(1)] as constructed, on the input [[[[1]]]]
    under the mask [[[[0]]]]. *)
Lemma ElementwiseAffine_reverse_formula_witness :
  exists x,
    ElementwiseAffine_forward (ElementwiseAffine_init 1) [[[1]]] [[[0]]] true
    = Reverse x
    /\ shape3 1 1 1 x
    /\ forall i j k, (i < 1)%nat -> (j < 1)%nat -> (k < 1)%nat ->
         get3 x i j k
         = (get3 [[[1]]] i j k - get2 (ea_m (ElementwiseAffine_init 1)) j 0)
           * exp (- get2 (ea_logs (ElementwiseAffine_init 1)) j 0)
           * get3 [[[0]]] i 0 k
         /\ (get3 [[[0]]] i 0 k = 0 -> get3 x i j k = 0).
Proof.
  apply (ElementwiseAffine_reverse_formula (ElementwiseAffine_init 1)
           1 1 1 [[[1]]] [[[0]]]); shape_tac.
Defined.

(** C4, as the claim has it, fails: with [m = 0] and [logs = 0], input 1 and
    mask 0 the code returns 0, and the formula of the claim divides by the
    mask entry 0. *)
Lemma ElementwiseAffine_reverse_no_division :
  ElementwiseAffine_forward (ElementwiseAffine_init 1) [[[1]]] [[[0]]] true
  = Reverse [[[(1 - 0) * exp (- 0) * 0]]]
  /\ spec_affine_inverse 1 0 0 0 = None
  /\ Some ((1 - 0) * exp (- 0) * 0) <> spec_affine_inverse 1 0 0 0.
Proof.
  split; [reflexivity|].
  assert (E : spec_affine_inverse 1 0 0 0 = None).
  { unfold spec_affine_inverse. destruct (Req_dec_T 0 0) as [_|H].
    - reflexivity.
    - exfalso. apply H. reflexivity. }
  split; [exact E|]. rewrite E. discriminate.
Qed.

(** C5 on the all-ones input and mask of shape [(1, 1, 1)]. *)
Lemma Log_forward_clamp_ones_witness :
  exists y logdet,
    Log_forward [[[1]]] [[[1]]] false = Forward y logdet
    /\ (forall i j k, (i < 1)%nat -> (j < 1)%nat -> (k < 1)%nat ->
          get3 y i j k
          = ln (Rmax (get3 [[[1]]] i j k) 1e-5) * get3 [[[1]]] i 0 k)
    /\ ([[[1]]] = ones3 1 1 1 -> [[[1]]] = ones3 1 1 1 ->
        y = zeros3 1 1 1 /\ logdet = repeat 0 1).
Proof.
  apply (Log_forward_clamp_ones 1 1 1 [[[1]]] [[[1]]]); shape_tac.
Defined.

(** C8 at [ConvFlow_small], on an input of three channels. *)
Lemma ConvFlow_forward_odd_channels_raises_witness :
  torch_split1 [[[1]; [2]; [3]]] (cf_half_channels ConvFlow_small)
               (cf_half_channels ConvFlow_small) = None
  /\ (exists msg,
        ConvFlow_forward gelu_tanh dropout_eval spline_identity ConvFlow_small
                         [[[1]; [2]; [3]]] [[[1]]] None false
        = RuntimeError msg)
  /\ (forall out,
        ConvFlow_forward gelu_tanh dropout_eval spline_identity ConvFlow_small
                         [[[1]; [2]; [3]]] [[[1]]] None false <> Ok out).
Proof.
  apply (ConvFlow_forward_odd_channels_raises gelu_tanh dropout_eval
           spline_identity ConvFlow_small 1 3 1 [[[1]; [2]; [3]]] [[[1]]]
           None false).
  - shape_tac.
  - lia.
  - exists 1%nat. reflexivity.
Defined.

(** * More of [modules.py] on concrete tensors *)

Lemma dropout_eval_shape p (y : Tensor3) b c t :
  shape3 b c t y -> shape3 b c t (dropout_eval p y).
Proof. intros H. exact H. Defined.

Lemma odd_3 : Nat.Odd 3.
Proof. exists 1%nat. reflexivity. Defined.

Lemma even_2 : Nat.Even 2.
Proof. exists 1%nat. reflexivity. Defined.

Lemma ConvFlow_small_wf : ConvFlow_wf ConvFlow_small.
Proof. apply ConvFlow_init_wf. lia. Defined.

Lemma DDSConv_small_wf : DDSConv_wf DDSConv_small.
Proof. apply DDSConv_init_wf. lia. Defined.

Lemma is_mask_one_zero_4 : is_mask [[[1; 1; 1; 0]]].
Proof.
  unfold is_mask. do 2 (constructor; [|constructor]).
  do 3 (constructor; [right; reflexivity|]).
  constructor; [left; reflexivity|]. constructor.
Defined.

(** X1 on the input [[[[-1, 2]]]] under the mask [[[[1, 0]]]]. *)
Lemma Log_reverse_of_forward_clamps_witness :
  tensor_of (Log_forward (tensor_of (Log_forward [[[-1; 2]]] [[[1; 0]]] false))
                         [[[1; 0]]] true)
  = tmul (torch_clamp_min [[[-1; 2]]] 1e-5) [[[1; 0]]].
Proof.
  apply (Log_reverse_of_forward_clamps 1 1 2 [[[-1; 2]]] [[[1; 0]]]);
    [shape_tac | shape_tac | exact is_mask_one_zero].
Defined.

(** X2 on the input [[[[0, -20]]]] under the mask [[[[1, 0]]]]. *)
Lemma Log_forward_of_reverse_witness :
  tensor_of (Log_forward (tensor_of (Log_forward [[[0; -20]]] [[[1; 0]]] true))
                         [[[1; 0]]] false)
  = tmul [[[0; -20]]] [[[1; 0]]].
Proof.
  apply (Log_forward_of_reverse 1 1 2 [[[0; -20]]] [[[1; 0]]]);
    [shape_tac | shape_tac | exact is_mask_one_zero |].
  intros i j k Hi Hj Hk.
  destruct i as [|i]; [|lia]. destruct j as [|j]; [|lia].
  destruct k as [|[|k]]; [| |lia]; unfold get3, get2; cbn [nth]; intros E.
  - pose proof ln_eps_neg. lra.
  - exfalso. lra.
Defined.

(** X3 on the input [[[[1, 2]]]] under the mask [[[[1, 0]]]]. *)
Lemma Log_forward_logdet_bound_witness :
  exists y logdet,
    Log_forward [[[1; 2]]] [[[1; 0]]] false = Forward y logdet
    /\ length logdet = 1%nat
    /\ forall i, (i < 1)%nat ->
         nth i logdet 0
         = - sigma 1 (fun j => sigma 2 (fun k => get3 y i j k))
         /\ nth i logdet 0 <= INR 1 * (INR 2 * - ln 1e-5).
Proof.
  apply (Log_forward_logdet_bound 1 1 2 [[[1; 2]]] [[[1; 0]]]);
    [shape_tac | shape_tac | exact is_mask_one_zero].
Defined.

(** X4 at [ElementwiseAffine(1)] as constructed. *)
Lemma ElementwiseAffine_forward_of_reverse_witness :
  tensor_of (ElementwiseAffine_forward (ElementwiseAffine_init 1)
               (tensor_of (ElementwiseAffine_forward (ElementwiseAffine_init 1)
                             [[[3; 4]]] [[[1; 0]]] true))
               [[[1; 0]]] false)
  = tmul [[[3; 4]]] [[[1; 0]]].
Proof.
  apply (ElementwiseAffine_forward_of_reverse (ElementwiseAffine_init 1)
           1 1 2 [[[3; 4]]] [[[1; 0]]]);
    [shape_tac | shape_tac | shape_tac | shape_tac | exact is_mask_one_zero].
Defined.

(** X5 on the input [[[[3, 4]]]] under the mask [[[[1, 0]]]]. *)
Lemma ElementwiseAffine_init_masks_witness :
  ElementwiseAffine_forward (ElementwiseAffine_init 1) [[[3; 4]]] [[[1; 0]]]
                            false
  = Forward (tmul [[[3; 4]]] [[[1; 0]]]) (repeat 0 1)
  /\ ElementwiseAffine_forward (ElementwiseAffine_init 1) [[[3; 4]]]
                               [[[1; 0]]] true
     = Reverse (tmul [[[3; 4]]] [[[1; 0]]]).
Proof.
  apply (ElementwiseAffine_init_masks 1 1 2 [[[3; 4]]] [[[1; 0]]]); shape_tac.
Defined.

(** X6 on an input of three channels. *)
Lemma Flip_forward_entries_witness :
  shape3 1 3 1 (tensor_of (Flip_forward [[[1]; [2]; [3]]] [] false))
  /\ forall i j k, (i < 1)%nat -> (j < 3)%nat ->
       get3 (tensor_of (Flip_forward [[[1]; [2]; [3]]] [] false)) i j k
       = get3 [[[1]; [2]; [3]]] i (3 - 1 - j) k.
Proof.
  apply (Flip_forward_entries 1 3 1 [[[1]; [2]; [3]]] [] false). shape_tac.
Defined.

(** X7 at [ConvFlow_small], which splits two channels, on four channels. *)
Lemma ConvFlow_forward_channel_mismatch_raises_witness :
  exists msg,
    ConvFlow_forward gelu_tanh dropout_eval spline_identity ConvFlow_small
                     [[[1]; [2]; [3]; [4]]] [[[1]]] None false
    = RuntimeError msg.
Proof.
  apply (ConvFlow_forward_channel_mismatch_raises gelu_tanh dropout_eval
           spline_identity ConvFlow_small 1 4 1 [[[1]; [2]; [3]; [4]]]
           [[[1]]] None false).
  - shape_tac.
  - lia.
  - discriminate.
Defined.

(** X8 at [ConvFlow_small] in forward mode. *)
Lemma ConvFlow_forward_shape_padding_witness :
  exists out,
    ConvFlow_forward gelu_tanh dropout_eval spline_identity ConvFlow_small
                     [[[1; 2]; [3; 4]]] [[[1; 0]]] None false = Ok out
    /\ shape3 1 2 2 (tensor_of out)
    /\ (forall i j k, (i < 1)%nat -> (j < 2)%nat -> (k < 2)%nat ->
          get3 [[[1; 0]]] i 0 k = 0 -> get3 (tensor_of out) i j k = 0)
    /\ exists logdet, logdet_of out = Some logdet /\ length logdet = 1%nat.
Proof.
  apply (ConvFlow_forward_shape_padding gelu_tanh dropout_eval spline_identity
           ConvFlow_small 1 2 [[[1; 2]; [3; 4]]] [[[1; 0]]] None false
           ConvFlow_small_wf odd_1);
    [simpl; lia | simpl; lia | simpl; lia | lia | exact I
     | shape_tac | shape_tac].
Defined.

(** X9 at [LayerNorm(2)] as constructed. *)
Lemma LayerNorm_forward_channel_axis_witness :
  shape3 1 2 3 (LayerNorm_forward (LayerNorm_init 2) [[[1; 2; 3]; [3; 4; 5]]]).
Proof.
  apply (LayerNorm_forward_channel_axis (LayerNorm_init 2) 1 2 3
           [[[1; 2; 3]; [3; 4; 5]]]);
    [reflexivity | reflexivity | reflexivity | simpl; lra | lia | lia
     | shape_tac].
Defined.

(** X10 on an input of two channels and three time steps. *)
Lemma LayerNorm_init_zero_mean_witness :
  sigma 2 (fun j => get3 (LayerNorm_forward (LayerNorm_init 2)
                            [[[1; 2; 3]; [3; 4; 5]]]) 0 j 1) = 0.
Proof.
  apply (LayerNorm_init_zero_mean 1 2 3 [[[1; 2; 3]; [3; 4; 5]]]);
    [lia | lia | shape_tac | lia | lia].
Defined.

(** X11 at [DDSConv_small] under a mask. *)
Lemma DDSConv_forward_preserves_shape_witness :
  shape3 1 2 4
    (DDSConv_forward gelu_tanh dropout_eval DDSConv_small
       [[[1; 2; 3; 4]; [5; 6; 7; 8]]] (Some [[[1; 1; 1; 0]]]) None).
Proof.
  apply (DDSConv_forward_preserves_shape gelu_tanh dropout_eval DDSConv_small
           1 4 [[[1; 2; 3; 4]; [5; 6; 7; 8]]] (Some [[[1; 1; 1; 0]]]) None
           dropout_eval_shape DDSConv_small_wf odd_3).
  - simpl. lia.
  - lia.
  - shape_tac.
  - exact I.
  - shape_tac.
Defined.

(** X12 at [DDSConv_small]: the last time step is masked. *)
Lemma DDSConv_forward_padding_witness :
  get3 (DDSConv_forward gelu_tanh dropout_eval DDSConv_small
          [[[1; 2; 3; 4]; [5; 6; 7; 8]]] (Some [[[1; 1; 1; 0]]]) None)
       0 1 3 = 0.
Proof.
  apply (proj1 (DDSConv_forward_padding gelu_tanh dropout_eval DDSConv_small
                  1 4 [[[1; 2; 3; 4]; [5; 6; 7; 8]]] [[[1; 1; 1; 0]]] None
                  dropout_eval_shape DDSConv_small_wf odd_3
                  ltac:(simpl; lia) ltac:(lia) ltac:(shape_tac) I
                  ltac:(shape_tac))).
  - simpl. lia.
  - lia.
  - simpl. lia.
  - lia.
  - reflexivity.
Defined.

(** X13 at [DSResBlock(2, 3)]. *)
Lemma DSResBlock_forward_preserves_shape_witness :
  shape3 1 2 4
    (DSResBlock_forward gelu_tanh dropout_eval
       (DSResBlock_init 2 3
          (fun _ => ([[[1; 1; 1]]; [[1; 1; 1]]], [0; 0]))
          (fun _ => ([[[1]; [1]]; [[1]; [1]]], [0; 0])))
       [[[1; 2; 3; 4]; [5; 6; 7; 8]]] (Some [[[1; 1; 1; 0]]])).
Proof.
  apply (DSResBlock_forward_preserves_shape gelu_tanh dropout_eval 2 3 _ _
           1 4 [[[1; 2; 3; 4]; [5; 6; 7; 8]]] (Some [[[1; 1; 1; 0]]])
           dropout_eval_shape odd_3);
    [lia | lia | shape_tac].
Defined.

(** X14 at [TextResidualBlock(2, 3, 1, n=2)]. *)
Lemma TextResidualBlock_forward_preserves_shape_witness :
  shape3 1 2 4
    (TextResidualBlock_forward gelu_tanh dropout_eval
       (TextResidualBlock_init 2 3 1 2
          (fun _ _ => ([[[1; 1; 1]]; [[1; 1; 1]]], [0; 0]))
          (fun _ _ => ([[[1]; [1]]; [[1]; [1]]], [0; 0])))
       [[[1; 2; 3; 4]; [5; 6; 7; 8]]]).
Proof.
  apply (TextResidualBlock_forward_preserves_shape gelu_tanh dropout_eval
           2 3 1 2 _ _ 1 4 [[[1; 2; 3; 4]; [5; 6; 7; 8]]]
           dropout_eval_shape odd_3);
    [lia | lia | shape_tac].
Defined.

(** X15 at [ResBlock1_small] under a mask. *)
Lemma ResBlock1_forward_shape_padding_witness :
  shape3 1 1 4 (ResBlock1_forward ResBlock1_small [[[1; 2; 3; 4]]]
                                  (Some [[[1; 1; 1; 0]]]))
  /\ forall m i j k, Some [[[1; 1; 1; 0]]] = Some m ->
       (i < 1)%nat -> (j < 1)%nat -> (k < 4)%nat ->
       get3 m i 0 k = 0 ->
       get3 (ResBlock1_forward ResBlock1_small [[[1; 2; 3; 4]]]
                               (Some [[[1; 1; 1; 0]]])) i j k = 0.
Proof.
  apply (ResBlock1_forward_shape_padding ResBlock1_small 1 3 1 4
           [[[1; 2; 3; 4]]] (Some [[[1; 1; 1; 0]]])
           (ResBlock1_init_wf 1 3 1 3 5 _ _ ltac:(lia) ltac:(lia) ltac:(lia))
           odd_3);
    [lia | lia | shape_tac | shape_tac].
Defined.

(** X16 at [ConvFlow_small], which has one bin. *)
Lemma ConvFlow_spline_params_bins_witness :
  length (get4 (fst (fst (ConvFlow_spline_params gelu_tanh dropout_eval
                            ConvFlow_small [[[1; 2]]] [[[1; 0]]] None)))
               0 0 1) = 1%nat
  /\ length (get4 (snd (fst (ConvFlow_spline_params gelu_tanh dropout_eval
                               ConvFlow_small [[[1; 2]]] [[[1; 0]]] None)))
                  0 0 1) = 1%nat
  /\ length (get4 (snd (ConvFlow_spline_params gelu_tanh dropout_eval
                          ConvFlow_small [[[1; 2]]] [[[1; 0]]] None))
                  0 0 1) = 0%nat.
Proof.
  apply (ConvFlow_spline_params_bins gelu_tanh dropout_eval ConvFlow_small
           1 2 [[[1; 2]]] [[[1; 0]]] None dropout_eval_shape
           ConvFlow_small_wf).
  - exact odd_1.
  - simpl. lia.
  - simpl. lia.
  - simpl. lia.
  - lia.
  - shape_tac.
  - shape_tac.
  - exact I.
  - lia.
  - simpl. lia.
  - lia.
Defined.

(** X17 at [PositionalEncoding(d_model=2, max_len=3)]. *)
Lemma PositionalEncoding_init_even_witness :
  exists self,
    PositionalEncoding_init 3 2 = Done self
    /\ shape2 3 2 (pe_encoding self)
    /\ get2 (pe_encoding self) 2 0 = sin (INR 2 / Rpower 10000 (INR 0 / INR 2))
    /\ get2 (pe_encoding self) 2 1 = cos (INR 2 / Rpower 10000 (INR 0 / INR 2)).
Proof.
  destruct (PositionalEncoding_init_even 3 2 even_2)
    as (self & E & Hs & Hf & _).
  exists self. split; [exact E|]. split; [exact Hs|].
  apply (Hf 2%nat 0%nat); lia.
Defined.

(** X18 at [PositionalEncoding(d_model=3, max_len=2)]. *)
Lemma PositionalEncoding_init_odd_raises_witness :
  PositionalEncoding_init 2 3 = Raise "RuntimeError".
Proof.
  apply (PositionalEncoding_init_odd_raises 2 3 odd_3). lia.
Defined.

(** X19 on two inputs of shape [(1, 2)] and a table of three rows. *)
Lemma PositionalEncoding_forward_rows_witness :
  PositionalEncoding_forward {| pe_encoding := [[0; 1]; [2; 3]; [4; 5]] |}
                             [[7; 8]]
  = firstn 2 [[0; 1]; [2; 3]; [4; 5]]
  /\ PositionalEncoding_forward {| pe_encoding := [[0; 1]; [2; 3]; [4; 5]] |}
                                [[0; 0]]
     = PositionalEncoding_forward {| pe_encoding := [[0; 1]; [2; 3]; [4; 5]] |}
                                  [[7; 8]].
Proof.
  destruct (PositionalEncoding_forward_rows
              {| pe_encoding := [[0; 1]; [2; 3]; [4; 5]] |} 1 2
              [[7; 8]] [[0; 0]])
    as (E & _ & _ & E'); [shape_tac | shape_tac | lia |].
  split; [exact E | exact E'].
Defined.

(** X20 at the kernel size 2. *)
Lemma ConvNorm_init_even_kernel_raises_witness :
  ConvNorm_init 1 1 2 1 None 2 true false [[[1; 1]]] [0]
  = Raise "AssertionError".
Proof.
  apply (ConvNorm_init_even_kernel_raises 1 1 2 1 2 true false [[[1; 1]]] [0]).
  discriminate.
Defined.

(** X25 at the kernel size 3 with dilation 2, and at the kernel size 2 with
    the padding 4. *)
Lemma ConvNorm_init_padding_witness :
  (exists self,
     ConvNorm_init 1 1 3 1 None 2 true false [[[1; 1; 1]]] [0] = Done self
     /\ conv_padding (cn_conv self) = 2%nat)
  /\ (exists self,
       ConvNorm_init 1 1 2 1 (Some 4%nat) 2 true false [[[1; 1]]] [0]
       = Done self
       /\ conv_padding (cn_conv self) = 4%nat).
Proof.
  split.
  - apply (proj1 (ConvNorm_init_padding 1 1 3 1 2 true false [[[1; 1; 1]]] [0]
                    ltac:(lia) ltac:(lia) ltac:(lia) ltac:(lia))).
    reflexivity.
  - apply (proj2 (ConvNorm_init_padding 1 1 2 1 2 true false [[[1; 1]]] [0]
                    ltac:(lia) ltac:(lia) ltac:(lia) ltac:(lia))).
Defined.

(** X21 at [ConvNorm(1, 2, kernel_size=3, dilation=2, transpose=True)]. *)
Lemma ConvNorm_forward_keeps_length_witness :
  exists self,
    ConvNorm_init 1 2 3 1 None 2 true true [[[1; 1; 1]]; [[1; 0; 1]]] [0; 0]
    = Done self
    /\ shape3 1 4 2 (ConvNorm_forward self [[[1]; [2]; [3]; [4]]]).
Proof.
  apply (ConvNorm_forward_keeps_length 1 2 3 2 true true
           [[[1; 1; 1]]; [[1; 0; 1]]] [0; 0] 1 4 [[[1]; [2]; [3]; [4]]]);
    [reflexivity | lia | lia | lia | lia | shape_tac].
Defined.

(** X22 at [LinearNorm(2, 1, bias=True)]. *)
Lemma LinearNorm_forward_linear_witness :
  get3 (LinearNorm_forward (LinearNorm_init 2 1 true [[1; 2]])
          (tadd (map3 (Rmult 3) [[[1; 2]]]) [[[5; 7]]])) 0 0 0
  = 3 * get3 (LinearNorm_forward (LinearNorm_init 2 1 true [[1; 2]])
                [[[1; 2]]]) 0 0 0
    + get3 (LinearNorm_forward (LinearNorm_init 2 1 true [[1; 2]])
              [[[5; 7]]]) 0 0 0.
Proof.
  apply (proj2 (LinearNorm_forward_linear 2 1 true [[1; 2]] 1 1 3
                  [[[1; 2]]] [[[5; 7]]] ltac:(lia) ltac:(lia)
                  ltac:(shape_tac) ltac:(shape_tac)));
    lia.
Defined.

(** X23 at [ConvFlow(2, 1, 1, 0, num_bins=1, tail_bound=5)] as
    constructed. *)
Lemma ConvFlow_init_fixed_spline_witness :
  exists out,
    ConvFlow_forward gelu_tanh dropout_eval spline_identity ConvFlow_small
                     [[[1; 2]; [3; 4]]] [[[1; 0]]] None false = Ok out
    /\ forall i j k, (i < 1)%nat -> (j < 1)%nat -> (k < 2)%nat ->
         get3 (tensor_of out) i (1 + j) k
         = fst (spline_identity (get3 [[[1; 2]; [3; 4]]] i (1 + j) k)
                                (repeat 0 1) (repeat 0 1) (repeat 0 (1 - 1))
                                false 5)
           * get3 [[[1; 0]]] i 0 k.
Proof.
  apply (ConvFlow_init_fixed_spline gelu_tanh dropout_eval spline_identity
           2 1 1 0 1 5 ([[[1]]], [0]) (fun _ => ([], [])) (fun _ => ([], []))
           1 2 [[[1; 2]; [3; 4]]] [[[1; 0]]] None false dropout_eval_shape).
  - exact odd_1.
  - simpl. lia.
  - lia.
  - lia.
  - lia.
  - shape_tac.
  - shape_tac.
  - exact I.
Defined.

Lemma spline_identity_forward_of_inverse v uw uh ud tail_bound :
  fst (spline_identity (fst (spline_identity v uw uh ud true tail_bound))
                       uw uh ud false tail_bound) = v.
Proof. reflexivity. Defined.

(** X24 at [ConvFlow_small] on the input [[[[1, 2], [3, 4]]]] under the
    mask [[[[1, 0]]]]. *)
Lemma ConvFlow_forward_of_reverse_witness :
  exists x logdet,
    ConvFlow_forward gelu_tanh dropout_eval spline_identity ConvFlow_small
                     [[[1; 2]; [3; 4]]] [[[1; 0]]] None true = Ok (Reverse x)
    /\ ConvFlow_forward gelu_tanh dropout_eval spline_identity ConvFlow_small
                        x [[[1; 0]]] None false
       = Ok (Forward (tmul [[[1; 2]; [3; 4]]] [[[1; 0]]]) logdet).
Proof.
  apply (ConvFlow_forward_of_reverse gelu_tanh dropout_eval spline_identity
           ConvFlow_small 1 2 [[[1; 2]; [3; 4]]] [[[1; 0]]]
           spline_identity_forward_of_inverse ConvFlow_small_wf odd_1).
  - simpl. lia.
  - simpl. lia.
  - simpl. lia.
  - lia.
  - shape_tac.
  - shape_tac.
  - exact is_mask_one_zero.
Defined.

(** C10 at [ConvFlow(2, 1, 1, 0, num_bins=2)] as constructed, on the [x0]
    [[[[1, 2]]]] under the mask [[[[1, 0]]]]: at batch entry 0, channel 0
    and time step 1 there are two widths, two heights and one derivative,
    all 0. *)
Lemma ConvFlow_init_zero_spline_params_witness :
  get4 (fst (fst (ConvFlow_spline_params gelu_tanh dropout_eval
                    (ConvFlow_init 2 1 1 0 2 5 ([[[1]]], [0])
                                   (fun _ => ([], [])) (fun _ => ([], [])))
                    [[[1; 2]]] [[[1; 0]]] None))) 0 0 1 = [0; 0]
  /\ get4 (snd (fst (ConvFlow_spline_params gelu_tanh dropout_eval
                       (ConvFlow_init 2 1 1 0 2 5 ([[[1]]], [0])
                                      (fun _ => ([], [])) (fun _ => ([], [])))
                       [[[1; 2]]] [[[1; 0]]] None))) 0 0 1 = [0; 0]
  /\ get4 (snd (ConvFlow_spline_params gelu_tanh dropout_eval
                  (ConvFlow_init 2 1 1 0 2 5 ([[[1]]], [0])
                                 (fun _ => ([], [])) (fun _ => ([], [])))
                  [[[1; 2]]] [[[1; 0]]] None)) 0 0 1 = [0].
Proof.
  pose proof (ConvFlow_init_zero_spline_params gelu_tanh dropout_eval
                2 1 1 0 2 5 ([[[1]]], [0]) (fun _ => ([], []))
                (fun _ => ([], [])) 1 2 [[[1; 2]]] [[[1; 0]]] None) as H.
  cbv zeta in H. destruct H as (_ & _ & _ & _ & _ & H).
  apply H.
  - exact dropout_eval_shape.
  - exact odd_1.
  - simpl. lia.
  - lia.
  - lia.
  - lia.
  - shape_tac.
  - shape_tac.
  - exact I.
  - lia.
  - simpl. lia.
  - lia.
Defined.
